(** * Volvo SQLite -> knowledge-base importer: a shallow embedding

    Embedding of [scripts/import_volvo_to_supabase.py].  The script reads
    three SQLite tables, renders one text chunk per canonical product row,
    asks an embedding service for one vector per chunk and bulk-inserts the
    batch into a document store.

    Conventions of the embedding.
    - A Python [str] is a [string] holding its UTF-8 encoding; [len] counts
      code points ([Py.len]), the other operations used by the script act
      the same on bytes and on code points.
    - A nullable SQLite column is an [option]; SQL comparisons against NULL
      are never true.
    - A SQLite REAL (a Python [float]) is the rational it denotes, a [Q]:
      the script only compares prices, tests them against zero and prints
      them with two decimals, all of which are exact on the denoted value.
    - SQLite leaves the relative order of rows with equal sort keys open.
      The embedding fixes what the engine does: rows are visited in table
      (rowid) order, [ORDER BY] is a stable sort, and an aggregate sees the
      rows of its group in visiting order. *)

From Stdlib Require Import ZArith QArith Qabs List String Ascii DecimalString.
From Stdlib Require Import Bool Lia Sorted Permutation Floats.SpecFloat.
Import ListNotations.

Open Scope string_scope.
Open Scope Z_scope.

(* ================================================================== *)
(** ** Python values *)
(* ================================================================== *)

Module Py.

(** The newline character of the script's ["\n"]. *)
Definition nl : string := String (ascii_of_nat 10) "".

(** [str(n)] for an [int]. *)
Definition str_of_Z (z : Z) : string := NilZero.string_of_int (Z.to_int z).

(** [str(x)] inside an f-string for a value that may be [None]. *)
Definition str_opt (o : option string) : string :=
  match o with Some s => s | None => "None" end.

(** Truthiness of the values the script tests with [if x] or [x or y]. *)
Definition truthy_str (o : option string) : bool :=
  match o with Some s => negb (s =? "")%string | None => false end.

Definition truthy_Z (o : option Z) : bool :=
  match o with Some z => negb (z =? 0) | None => false end.

Definition truthy_Q (o : option Q) : bool :=
  match o with Some q => negb (Qeq_bool q 0) | None => false end.

(** [a or b] where [b] is the last operand's fallback. *)
Definition or_else (a : option string) (b : option string) : option string :=
  if truthy_str a then a else b.

(** *** Code points of a UTF-8 string *)

(** A byte [10xxxxxx] continues the code point started before it. *)
Definition is_continuation (c : ascii) : bool :=
  let n := nat_of_ascii c in ((128 <=? n) && (n <? 192))%nat.

(** [len(s)]: the number of code points. *)
Fixpoint len (s : string) : nat :=
  match s with
  | EmptyString => O
  | String c s' => if is_continuation c then len s' else S (len s')
  end.

(** The code points of [s], each as the string of its bytes. *)
Fixpoint chars (s : string) : list string :=
  match s with
  | EmptyString => []
  | String c s' =>
      match chars s' with
      | [] => [String c ""]
      | k :: ks =>
          match k with
          | String d _ =>
              if is_continuation d then (String c k) :: ks
              else String c "" :: k :: ks
          | EmptyString => String c "" :: ks
          end
      end
  end.

Definition bytes (l : list nat) : string :=
  fold_right (fun n s => String (ascii_of_nat n) s) "" l.

(** The code points for which [str.isspace] holds, the ones [strip]
    removes: U+0009..U+000D, U+001C..U+0020, U+0085, U+00A0, U+1680,
    U+2000..U+200A, U+2028, U+2029, U+202F, U+205F, U+3000. *)
Definition whitespace : list string :=
  map bytes
    ([[9]; [10]; [11]; [12]; [13]; [28]; [29]; [30]; [31]; [32];
      [194; 133]; [194; 160]; [225; 154; 128];
      [226; 128; 128]; [226; 128; 129]; [226; 128; 130]; [226; 128; 131];
      [226; 128; 132]; [226; 128; 133]; [226; 128; 134]; [226; 128; 135];
      [226; 128; 136]; [226; 128; 137]; [226; 128; 138];
      [226; 128; 168]; [226; 128; 169]; [226; 128; 175];
      [226; 129; 159]; [227; 128; 128]])%nat.

Definition is_space (k : string) : bool :=
  existsb (String.eqb k) whitespace.

Fixpoint drop_while {A} (f : A -> bool) (l : list A) : list A :=
  match l with
  | [] => []
  | x :: l' => if f x then drop_while f l' else l
  end.

(** [s.strip()]. *)
Definition strip (s : string) : string :=
  let front := drop_while is_space (chars s) in
  String.concat "" (rev (drop_while is_space (rev front))).

(** [s.split(',')]: the pieces between the separator bytes; always at
    least one piece. *)
Fixpoint split (sep : ascii) (s : string) : list string :=
  match s with
  | EmptyString => [""]
  | String c s' =>
      if Ascii.eqb c sep then "" :: split sep s'
      else match split sep s' with
           | p :: ps => String c p :: ps
           | [] => [String c ""]
           end
  end.

(** [needle in hay] for strings. *)
Fixpoint contains (needle hay : string) : bool :=
  prefix needle hay ||
  match hay with
  | EmptyString => false
  | String _ hay' => contains needle hay'
  end.

(** [x in names] for a list of strings. *)
Definition mem (x : string) (l : list string) : bool :=
  existsb (String.eqb x) l.

(** *** [f"{x:.2f}"] *)

(** Nearest integer to a non-negative rational, ties to even: the
    rounding of the correctly rounded float formatting. *)
Definition round_half_even (q : Q) : Z :=
  let n := Qnum q in
  let d := Zpos (Qden q) in
  let fl := n / d in
  let r := n mod d in
  if 2 * r <? d then fl
  else if d <? 2 * r then fl + 1
  else if Z.even fl then fl else fl + 1.

Definition two_digits (z : Z) : string :=
  if z <? 10 then "0" ++ str_of_Z z else str_of_Z z.

Definition fmt2 (q : Q) : string :=
  let c := round_half_even (Qabs q * 100) in
  (if Qlt_le_dec q 0 then "-" else "") ++
  str_of_Z (c / 100) ++ "." ++ two_digits (c mod 100).

(** [min(l)] and [max(l)] on a non-empty list of numbers: the first
    smallest, respectively the first largest, element. *)
Fixpoint min_from (m : Q) (l : list Q) : Q :=
  match l with
  | [] => m
  | x :: l' => min_from (if Qlt_le_dec x m then x else m) l'
  end.

Fixpoint max_from (m : Q) (l : list Q) : Q :=
  match l with
  | [] => m
  | x :: l' => max_from (if Qlt_le_dec m x then x else m) l'
  end.

Definition min (l : list Q) : option Q :=
  match l with [] => None | x :: l' => Some (min_from x l') end.

Definition max (l : list Q) : option Q :=
  match l with [] => None | x :: l' => Some (max_from x l') end.

End Py.

(* ================================================================== *)
(** ** SQLite values, ordering and aggregates *)
(* ================================================================== *)

Module Sql.

(** [a = b] in a WHERE clause: true only when both sides are non-NULL
    and equal. *)
Definition eq_text (a b : option string) : bool :=
  match a, b with
  | Some x, Some y => (x =? y)%string
  | _, _ => false
  end.

Definition eq_int (a b : option Z) : bool :=
  match a, b with
  | Some x, Some y => x =? y
  | _, _ => false
  end.

(** The value of a boolean SQL expression is 1, 0 or NULL. *)
Definition of_bool (b : bool) : option Z := Some (if b then 1 else 0).

(** [col = 'text'] as an expression: NULL when the column is NULL. *)
Definition eq_text_expr (a : option string) (lit : string) : option Z :=
  match a with
  | Some x => of_bool (x =? lit)%string
  | None => None
  end.

(** [col IS NOT NULL]. *)
Definition is_not_null {A} (a : option A) : option Z :=
  of_bool (match a with Some _ => true | None => false end).

(** Sort order of values: NULL sorts before every other value. *)
Definition cmp_null {A} (c : A -> A -> comparison) (a b : option A)
  : comparison :=
  match a, b with
  | None, None => Eq
  | None, Some _ => Lt
  | Some _, None => Gt
  | Some x, Some y => c x y
  end.

Definition cmp_int : option Z -> option Z -> comparison := cmp_null Z.compare.
Definition cmp_num : option Q -> option Q -> comparison := cmp_null Qcompare.
Definition cmp_text : option string -> option string -> comparison :=
  cmp_null String.compare.

(** One ORDER BY term: a key expression with a direction. *)
Definition asc {A K} (c : K -> K -> comparison) (key : A -> K)
  : A -> A -> comparison := fun a b => c (key a) (key b).

Definition desc {A K} (c : K -> K -> comparison) (key : A -> K)
  : A -> A -> comparison := fun a b => c (key b) (key a).

(** Two ORDER BY terms in sequence: the second decides among rows the
    first leaves equal. *)
Definition then_by {A} (c1 c2 : A -> A -> comparison)
  : A -> A -> comparison :=
  fun a b => match c1 a b with Eq => c2 a b | r => r end.

(** [ORDER BY]: a stable sort of the rows in visiting order.  SQL does
    not say which of several rows that tie on every term comes first;
    here it is the one visited first. *)
Fixpoint insert {A} (cmp : A -> A -> comparison) (x : A) (l : list A)
  : list A :=
  match l with
  | [] => [x]
  | y :: l' =>
      match cmp x y with
      | Gt => y :: insert cmp x l'
      | _ => x :: l
      end
  end.

Definition order_by {A} (cmp : A -> A -> comparison) (l : list A) : list A :=
  fold_right (insert cmp) [] l.

(** [LIMIT n]. *)
Definition limit {A} (n : nat) (l : list A) : list A := firstn n l.

(** The non-NULL values of a column. *)
Fixpoint non_null {A} (l : list (option A)) : list A :=
  match l with
  | [] => []
  | Some x :: l' => x :: non_null l'
  | None :: l' => non_null l'
  end.

(** [MIN(col)] and [MAX(col)] over the rows of a group: NULL values are
    skipped, the result is NULL when nothing is left. *)
Definition min_int (l : list (option Z)) : option Z :=
  match non_null l with
  | [] => None
  | x :: xs => Some (fold_left Z.min xs x)
  end.

Definition max_int (l : list (option Z)) : option Z :=
  match non_null l with
  | [] => None
  | x :: xs => Some (fold_left Z.max xs x)
  end.

(** [DISTINCT] inside an aggregate: a value already seen is skipped.  The
    values come in the order in which the rows of the group are visited;
    SQL promises no order. *)
Fixpoint distinct_from (seen l : list string) : list string :=
  match l with
  | [] => []
  | x :: l' =>
      if Py.mem x seen then distinct_from seen l'
      else x :: distinct_from (x :: seen) l'
  end.

Definition distinct (l : list string) : list string := distinct_from [] l.

(** [GROUP_CONCAT(DISTINCT col)]: the distinct non-NULL values joined by
    a comma, NULL when there is none. *)
Definition group_concat_distinct (l : list (option string)) : option string :=
  match distinct (non_null l) with
  | [] => None
  | vs => Some (String.concat "," vs)
  end.

(** The distinct values of a nullable grouping column (NULLs form one
    group). *)
Fixpoint group_keys_from (seen_null : bool) (seen : list string)
  (l : list (option string)) : list (option string) :=
  match l with
  | [] => []
  | None :: l' =>
      if seen_null then group_keys_from seen_null seen l'
      else None :: group_keys_from true seen l'
  | Some x :: l' =>
      if Py.mem x seen then group_keys_from seen_null seen l'
      else Some x :: group_keys_from seen_null (x :: seen) l'
  end.

Definition group_keys (l : list (option string)) : list (option string) :=
  group_keys_from false [] l.

(** Rows of one group: the grouping column is NULL for all of them or
    equal for all of them. *)
Definition same_group (k a : option string) : bool :=
  match k, a with
  | None, None => true
  | Some x, Some y => (x =? y)%string
  | _, _ => false
  end.

End Sql.

(* ================================================================== *)
(** ** The source database *)
(* ================================================================== *)

(** A row of [products], with the columns the script reads. *)
Module Product.
Record t : Type := mk {
  id : Z;
  oe_nummer : option string;
  has_fitments : option Z;
  translation_status : option string;
  normalized_name : option string;
  swedish_translation : option string;
  skandix_name_eng : option string;
  skandix_price : option Q;
  skandix_product_id : option Z;
  vp_artikelnummer : option string;
  source : option string;
  part_system : option string;
  kl_namn : option string;
  folkrace_namn : option string;
  vp_namn : option string;
  cvr_namn : option string;
  fordon_namn : option string
}.
End Product.

(** A row of [expanded_fitments]. *)
Module Fitment.
Record t : Type := mk {
  product_id : option Z;
  model : option string;
  variant : option string;
  year_from : option Z;
  year_to : option Z;
  engine : option string
}.
End Fitment.

(** A row of [alternative_names]. *)
Module AltName.
Record t : Type := mk {
  product_id : option Z;
  alternative_name : option string;
  source_site : option string
}.
End AltName.

(** The three tables, each as the list of its rows in the order in which
    the queries of the script visit them: the order of the table when the
    table is scanned. *)
Record database : Type := mk_database {
  products : list Product.t;
  expanded_fitments : list Fitment.t;
  alternative_names : list AltName.t
}.

(** CONFIGURATION *)
Definition BATCH_SIZE : nat := 100.
Definition MAX_PRODUCTS : option nat := None.

(* ================================================================== *)
(** ** format_fitments *)
(* ================================================================== *)

(** One result row of the grouped query of [format_fitments]. *)
Record fitment_group : Type := mk_fitment_group {
  fg_model : option string;
  fg_variants : option string;
  fg_year_start : option Z;
  fg_year_end : option Z;
  fg_engines : option string
}.

(** The rows of [expanded_fitments] with [product_id = ?]. *)
Definition fitment_rows (product_id : Z) (conn : database) : list Fitment.t :=
  filter (fun f => Sql.eq_int (Fitment.product_id f) (Some product_id))
    (expanded_fitments conn).

(** The aggregates of one [GROUP BY model] group. *)
Definition aggregate_group (rows : list Fitment.t) (k : option string)
  : fitment_group :=
  let grp := filter (fun f => Sql.same_group k (Fitment.model f)) rows in
  {| fg_model := k;
     fg_variants := Sql.group_concat_distinct (map Fitment.variant grp);
     fg_year_start := Sql.min_int (map Fitment.year_from grp);
     fg_year_end := Sql.max_int (map Fitment.year_to grp);
     fg_engines := Sql.group_concat_distinct (map Fitment.engine grp) |}.

(** [SELECT model, GROUP_CONCAT(DISTINCT variant), MIN(year_from),
    MAX(year_to), GROUP_CONCAT(DISTINCT engine) FROM expanded_fitments
    WHERE product_id = ? GROUP BY model ORDER BY model]. *)
Definition fitments_query (product_id : Z) (conn : database)
  : list fitment_group :=
  let rows := fitment_rows product_id conn in
  map (aggregate_group rows)
    (Sql.order_by Sql.cmp_text (Sql.group_keys (map Fitment.model rows))).

(** [engines.split(',') if engines else []], then the comprehension
    [[e.strip() for e in engine_list if e and e != 'NULL']]. *)
Definition engine_list (engines : option string) : list string :=
  let pieces :=
    if Py.truthy_str engines
    then match engines with Some s => Py.split "," s | None => [] end
    else [] in
  map Py.strip
    (filter (fun e => negb (e =? "")%string && negb (e =? "NULL")%string)
       pieces).

(** The text of [line] at the end of one loop iteration. *)
Definition fitment_line (g : fitment_group) : string :=
  let line := "Volvo " ++ Py.str_opt (fg_model g) in
  let line :=
    if Py.truthy_Z (fg_year_start g) && Py.truthy_Z (fg_year_end g)
    then match fg_year_start g, fg_year_end g with
         | Some ys, Some ye =>
             line ++ " " ++ Py.str_of_Z ys ++ "-" ++ Py.str_of_Z ye
         | _, _ => line
         end
    else line in
  match engine_list (fg_engines g) with
  | [] => line
  | es => line ++ " (" ++ String.concat ", " (firstn 5 es) ++ ")"
  end.

Definition format_fitments (product_id : Z) (conn : database) : string :=
  match fitments_query product_id conn with
  | [] => ""
  | fitments =>
      String.concat Py.nl
        ("Passar till:" :: map (fun g => "- " ++ fitment_line g) fitments)
  end.

(* ================================================================== *)
(** ** format_alternative_names *)
(* ================================================================== *)

Definition same_pair (a b : option string * option string) : bool :=
  Sql.same_group (fst a) (fst b) && Sql.same_group (snd a) (snd b).

(** [SELECT DISTINCT]: a result row equal to an earlier one is dropped. *)
Fixpoint distinct_pairs (seen l : list (option string * option string))
  : list (option string * option string) :=
  match l with
  | [] => []
  | x :: l' =>
      if existsb (same_pair x) seen then distinct_pairs seen l'
      else x :: distinct_pairs (x :: seen) l'
  end.

(** [SELECT DISTINCT alternative_name, source_site FROM alternative_names
    WHERE product_id = ? LIMIT 20].  The query has no ORDER BY: the
    distinct rows come in the order in which the rows are visited, and
    the LIMIT keeps the first of them. *)
Definition alternative_names_query (product_id : Z) (conn : database)
  : list (option string * option string) :=
  Sql.limit 20
    (distinct_pairs []
       (map (fun a => (AltName.alternative_name a, AltName.source_site a))
          (filter (fun a => Sql.eq_int (AltName.product_id a) (Some product_id))
             (alternative_names conn)))).

Definition format_alternative_names (product_id : Z) (conn : database)
  : string :=
  match alternative_names_query product_id conn with
  | [] => ""
  | alts =>
      "Även känd som: " ++
      String.concat ", "
        (map (fun a => Py.str_opt (fst a) ++ " (" ++ Py.str_opt (snd a) ++ ")")
           (firstn 10 alts))
  end.

(* ================================================================== *)
(** ** get_product_variants *)
(* ================================================================== *)

(** The dictionary built from one result row of [get_product_variants]. *)
Module Variant.
Record t : Type := mk {
  id : Z;
  skandix_product_id : option Z;
  vp_artikelnummer : option string;
  normalized_name : option string;
  skandix_name_eng : option string;
  skandix_price : option Q;
  source : option string
}.
End Variant.

(** The SELECT list of [get_product_variants]. *)
Definition variant_of (p : Product.t) : Variant.t :=
  {| Variant.id := Product.id p;
     Variant.skandix_product_id := Product.skandix_product_id p;
     Variant.vp_artikelnummer := Product.vp_artikelnummer p;
     Variant.normalized_name := Product.normalized_name p;
     Variant.skandix_name_eng := Product.skandix_name_eng p;
     Variant.skandix_price := Product.skandix_price p;
     Variant.source := Product.source p |}.

(** [has_fitments = 1 OR translation_status = 'verified'], the filter of
    both product queries. *)
Definition eligible (p : Product.t) : bool :=
  Sql.eq_int (Product.has_fitments p) (Some 1)
  || Sql.eq_text (Product.translation_status p) (Some "verified").

(** [oe_nummer = ? AND (has_fitments = 1 OR translation_status =
    'verified')], the WHERE clause of [get_product_variants]. *)
Definition is_variant_of (oe : option string) (p : Product.t) : bool :=
  Sql.eq_text (Product.oe_nummer p) oe && eligible p.

(** [ORDER BY has_fitments DESC, skandix_price ASC]. *)
Definition variant_order : Product.t -> Product.t -> comparison :=
  Sql.then_by (Sql.desc Sql.cmp_int Product.has_fitments)
              (Sql.asc Sql.cmp_num Product.skandix_price).

(** The rows of [products] behind the result of [get_product_variants]:
    FROM, WHERE and ORDER BY, before the SELECT list is applied. *)
Definition variant_rows (oe_nummer : option string) (conn : database)
  : list Product.t :=
  Sql.order_by variant_order
    (filter (is_variant_of oe_nummer) (products conn)).

Definition get_product_variants (oe_nummer : option string) (conn : database)
  : list Variant.t :=
  map variant_of (variant_rows oe_nummer conn).

(* ================================================================== *)
(** ** get_all_names and create_chunk *)
(* ================================================================== *)

(** [if v: names.append(v)]. *)
Definition append_if_truthy (names : list string) (v : option string)
  : list string :=
  match v with
  | Some s => if Py.truthy_str v then (names ++ [s])%list else names
  | None => names
  end.

(** [if v and v not in names: names.append(v)]. *)
Definition append_if_new (names : list string) (v : option string)
  : list string :=
  match v with
  | Some s =>
      if Py.truthy_str v && negb (Py.mem s names) then (names ++ [s])%list
      else names
  | None => names
  end.

Definition get_all_names (row : Product.t) : list string :=
  let names := [] in
  let names := append_if_truthy names (Product.normalized_name row) in
  let names := append_if_truthy names (Product.swedish_translation row) in
  let names := append_if_truthy names (Product.skandix_name_eng row) in
  let names :=
    fold_left append_if_new
      [Product.kl_namn row; Product.folkrace_namn row; Product.vp_namn row;
       Product.cvr_namn row; Product.fordon_namn row]
      names in
  filter (fun n => negb (n =? "")%string && negb (n =? "NULL")%string
                   && (3 <? Py.len n)%nat)
    names.

(** The metadata dictionary of a chunk. *)
Record metadata : Type := mk_metadata {
  md_product_id : Z;
  md_oe_nummer : option string;
  md_part_system : string;
  md_price_from : option Q;
  md_price_to : option Q;
  md_variant_count : nat;
  md_variant_ids : list Z;
  md_skandix_ids : list Z;
  md_vp_ids : list string;
  md_has_fitments : bool;
  md_source : option string;
  md_verified : bool
}.

(** A chunk: the dictionary returned by [create_chunk], with the
    ['embedding'] key that [generate_embeddings] sets later. *)
Record chunk (V : Type) : Type := mk_chunk {
  ch_title : string;
  ch_content : string;
  ch_metadata : metadata;
  ch_embedding : option V
}.
Arguments mk_chunk {V}.
Arguments ch_title {V}.
Arguments ch_content {V}.
Arguments ch_metadata {V}.
Arguments ch_embedding {V}.

(** [a or b or ... or default]. *)
Fixpoint first_truthy (l : list (option string)) (default : string) : string :=
  match l with
  | [] => default
  | Some s :: l' =>
      if Py.truthy_str (Some s) then s else first_truthy l' default
  | None :: l' => first_truthy l' default
  end.

(** [prices = [v['skandix_price'] for v in variants if v['skandix_price']]]. *)
Fixpoint variant_prices (variants : list Variant.t) : list Q :=
  match variants with
  | [] => []
  | v :: vs =>
      match Variant.skandix_price v with
      | Some q =>
          if Py.truthy_Q (Some q) then q :: variant_prices vs
          else variant_prices vs
      | None => variant_prices vs
      end
  end.

(** The value of [price] after the "Pris" block of [create_chunk]. *)
Definition price_summary (variants : list Variant.t) : string :=
  let prices := variant_prices variants in
  match prices with
  | [] => "Pris saknas"
  | p0 :: rest =>
      if (1 <? List.length prices)%nat
      then "Från " ++ Py.fmt2 (Py.min_from p0 rest) ++ " SEK (finns "
           ++ Py.str_of_Z (Z.of_nat (List.length variants)) ++ " varianter)"
      else Py.fmt2 p0 ++ " SEK"
  end.

(** One line of the variant listing, [i] counting from 1. *)
Definition variant_line (i : nat) (var : Variant.t) : string :=
  let var_name :=
    first_truthy [Variant.normalized_name var; Variant.skandix_name_eng var]
      "Variant" in
  let var_price :=
    match Variant.skandix_price var with
    | Some q => if Py.truthy_Q (Some q) then Py.fmt2 q ++ " SEK"
                else "Pris saknas"
    | None => "Pris saknas"
    end in
  let var_ids : list string :=
    List.app
      (match Variant.skandix_product_id var with
       | Some n => if Py.truthy_Z (Some n) then ["Skandix " ++ Py.str_of_Z n]
                   else []
       | None => []
       end)
      (match Variant.vp_artikelnummer var with
       | Some s => if Py.truthy_str (Some s) then ["VP " ++ s] else []
       | None => []
       end) in
  let id_str :=
    match var_ids with
    | [] => ""
    | _ => " (" ++ String.concat ", " var_ids ++ ")"
    end in
  Py.nl ++ Py.str_of_Z (Z.of_nat i) ++ ". " ++ var_name ++ " - " ++ var_price
  ++ id_str.

Fixpoint variant_lines (i : nat) (variants : list Variant.t) : string :=
  match variants with
  | [] => ""
  | v :: vs => variant_line i v ++ variant_lines (S i) vs
  end.

Definition variants_section (variants : list Variant.t) : string :=
  if (1 <? List.length variants)%nat
  then Py.nl ++ Py.nl ++ "TILLGÄNGLIGA VARIANTER:" ++ variant_lines 1 variants
  else "".

(** Truthy entries of an optional column of the variants. *)
Fixpoint truthy_values {A} (truthy : option A -> bool) (l : list (option A))
  : list A :=
  match l with
  | [] => []
  | Some x :: l' =>
      if truthy (Some x) then x :: truthy_values truthy l'
      else truthy_values truthy l'
  | None :: l' => truthy_values truthy l'
  end.

Definition create_chunk {V} (row : Product.t) (fitments alt_names : string)
  (conn : database) : chunk V :=
  let primary_name :=
    first_truthy [Product.normalized_name row; Product.swedish_translation row;
                  Product.skandix_name_eng row] "Okänd produkt" in
  let all_names := get_all_names row in
  let names_section :=
    match all_names with
    | [] => primary_name
    | _ => String.concat " / " (firstn 5 all_names)
    end in
  let oe_section := "OE-nummer: " ++ Py.str_opt (Product.oe_nummer row) in
  let oe_section :=
    match Product.vp_artikelnummer row with
    | Some vp => if Py.truthy_str (Some vp) then oe_section ++ ", VP: " ++ vp
                 else oe_section
    | None => oe_section
    end in
  let system := first_truthy [Product.part_system row] "allmänt" in
  let variants := get_product_variants (Product.oe_nummer row) conn in
  let variants_section := variants_section variants in
  let prices := variant_prices variants in
  let price := price_summary variants in
  let head_parts : list string :=
    ["PRODUKTNAMN: " ++ primary_name;
     "ALTERNATIVA NAMN: " ++ names_section;
     "OE-NUMMER: " ++ oe_section;
     "SYSTEM: " ++ system;
     "PRIS: " ++ price] in
  let variants_part : list string :=
    if (variants_section =? "")%string then [] else [variants_section] in
  let fitments_part : list string :=
    if (fitments =? "")%string then [] else [Py.nl ++ fitments] in
  let alt_names_part : list string :=
    if (alt_names =? "")%string then [] else [Py.nl ++ alt_names] in
  let english_part : list string :=
    match Product.skandix_name_eng row with
    | Some eng =>
        if Py.truthy_str (Some eng) && negb (Py.contains eng names_section)
        then [Py.nl ++ "Engelsk benämning: " ++ eng]
        else []
    | None => []
    end in
  let content_parts : list string :=
    List.app head_parts
      (List.app variants_part
         (List.app fitments_part (List.app alt_names_part english_part))) in
  let content := String.concat Py.nl content_parts in
  {| ch_title := primary_name;
     ch_content := content;
     ch_metadata :=
       {| md_product_id := Product.id row;
          md_oe_nummer := Product.oe_nummer row;
          md_part_system := system;
          md_price_from := Py.min prices;
          md_price_to := Py.max prices;
          md_variant_count := List.length variants;
          md_variant_ids := map Variant.id variants;
          md_skandix_ids :=
            truthy_values Py.truthy_Z (map Variant.skandix_product_id variants);
          md_vp_ids :=
            truthy_values Py.truthy_str (map Variant.vp_artikelnummer variants);
          md_has_fitments := Py.truthy_Z (Product.has_fitments row);
          md_source := Product.source row;
          md_verified :=
            Sql.eq_text (Product.translation_status row) (Some "verified") |};
     ch_embedding := None |}.

(* ================================================================== *)
(** ** The deduplication query of import_products *)
(* ================================================================== *)

(** [ORDER BY has_fitments DESC, translation_status = 'verified' DESC,
    normalized_name IS NOT NULL DESC, skandix_price IS NOT NULL DESC]. *)
Definition dedup_order : Product.t -> Product.t -> comparison :=
  Sql.then_by (Sql.desc Sql.cmp_int Product.has_fitments)
    (Sql.then_by
       (Sql.desc Sql.cmp_int
          (fun p => Sql.eq_text_expr (Product.translation_status p) "verified"))
       (Sql.then_by
          (Sql.desc Sql.cmp_int
             (fun p => Sql.is_not_null (Product.normalized_name p)))
          (Sql.desc Sql.cmp_int
             (fun p => Sql.is_not_null (Product.skandix_price p))))).

(** The part-number group of [oe]: the rows [p2] with
    [p2.oe_nummer = oe], in visiting order. *)
Definition oe_group (oe : option string) (conn : database) : list Product.t :=
  filter (fun p2 => Sql.eq_text (Product.oe_nummer p2) oe) (products conn).

(** The scalar subquery [SELECT id FROM products p2 WHERE p2.oe_nummer =
    p1.oe_nummer ORDER BY ... LIMIT 1]; NULL when it has no row.  The
    ORDER BY has no id term: of several rows that tie on its four terms
    the subquery returns the one visited first. *)
Definition best_of_group (oe : option string) (conn : database)
  : option Product.t :=
  match Sql.limit 1 (Sql.order_by dedup_order (oe_group oe conn)) with
  | p :: _ => Some p
  | [] => None
  end.

Definition best_id (p1 : Product.t) (conn : database) : option Z :=
  match best_of_group (Product.oe_nummer p1) conn with
  | Some p => Some (Product.id p)
  | None => None
  end.

(** [SELECT id FROM products p1 WHERE id = (...)]. *)
Definition representative_ids (conn : database) : list Z :=
  map Product.id
    (filter (fun p1 => Sql.eq_int (Some (Product.id p1)) (best_id p1 conn))
       (products conn)).

(** [total_products]: [COUNT( * )], capped by [MAX_PRODUCTS] when that is
    set and not zero ([if MAX_PRODUCTS:]). *)
Definition total_products (conn : database) : nat :=
  match MAX_PRODUCTS with
  | Some (S cap) => Nat.min (List.length (products conn)) (S cap)
  | Some O | None => List.length (products conn)
  end.

(** [ORDER BY has_fitments DESC, id] of the outer query. *)
Definition canonical_order : Product.t -> Product.t -> comparison :=
  Sql.then_by (Sql.desc Sql.cmp_int Product.has_fitments)
              (Sql.asc Z.compare Product.id).

(** The rows the main loop iterates over: [SELECT * FROM products WHERE id
    IN (...) AND (has_fitments = 1 OR translation_status = 'verified')
    ORDER BY has_fitments DESC, id LIMIT ?]. *)
Definition canonical_rows (conn : database) : list Product.t :=
  Sql.limit (total_products conn)
    (Sql.order_by canonical_order
       (filter (fun p => existsb (Z.eqb (Product.id p)) (representative_ids conn)
                         && eligible p)
          (products conn))).

(** The canonical rows of the part-number group of [oe]. *)
Definition selected_for (oe : option string) (conn : database)
  : list Product.t :=
  filter (fun p => Sql.eq_text (Product.oe_nummer p) oe) (canonical_rows conn).

(** [id] is the row key of [products]: the table holds its rows in
    ascending [id] order, so no two rows share an [id]. *)
Definition stored_by_id (conn : database) : Prop :=
  StronglySorted (fun a b => Product.id a < Product.id b) (products conn).

(* ================================================================== *)
(** ** Binary64 arithmetic of the cost estimate *)
(* ================================================================== *)

Module Float.

Definition prec : Z := 53.
Definition emax : Z := 1024.

(** An [int] as the operand of a true division. *)
Definition of_int (z : Z) : spec_float :=
  match z with
  | Z0 => S754_zero false
  | Zpos p => S754_finite false p 0
  | Zneg p => S754_finite true p 0
  end.

(** [a / b] on two [int]s, [b] positive: the quotient rounded once. *)
Definition true_div (a b : Z) : spec_float :=
  SFdiv prec emax (of_int a) (of_int b).

Definition mul (x y : spec_float) : spec_float := SFmul prec emax x y.

(** The literal [0.02]. *)
Definition two_hundredths : spec_float :=
  S754_finite false 5764607523034235 (-58).

(** The rational a finite float denotes; 0 for the others. *)
Definition to_Q (x : spec_float) : Q :=
  match x with
  | S754_finite s m e =>
      let n := if s then Zneg m else Zpos m in
      if 0 <=? e then inject_Z (n * 2 ^ e)
      else Qmake n (Z.to_pos (2 ^ (- e)))
  | _ => 0%Q
  end.

End Float.

(* ================================================================== *)
(** ** The two remote services and the import loop *)
(* ================================================================== *)

Section Pipeline.

(** The type of an embedding vector. *)
Variable V : Type.

(** A record of the [knowledge_base] table, as [insert_to_supabase]
    builds it. *)
Record kb_record : Type := mk_kb_record {
  kb_title : string;
  kb_content : string;
  kb_embedding : V;
  kb_metadata : metadata;
  kb_source : string;
  kb_tokens : Z
}.

(** What the script sends out, in the order it sends it. *)
Inductive event : Type :=
| EmbeddingRequest (input : list string)
| BulkInsert (records : list kb_record).

(** The answer of a remote call: a value, or an exception raised by the
    client library. *)
Inductive api_result (A : Type) : Type :=
| Returned (a : A)
| ApiFailure.
Arguments Returned {A}.
Arguments ApiFailure {A}.

(** The remote services.  An answer may depend on everything sent before.
    [embeddings_create] gives [response.data] as the list of its
    [.embedding]s; [knowledge_base_insert] gives [result.data], which may
    be absent. *)
Record services : Type := mk_services {
  embeddings_create : list event -> list string -> api_result (list V);
  knowledge_base_insert :
    list event -> list kb_record -> api_result (option (list kb_record))
}.

(** The exceptions that end a run. *)
Inductive exception : Type :=
| ApiError
| IndexError
| KeyError
| InsertFailed
| ZeroDivisionError.

(** Computations that send events and may raise: the events sent so far
    are threaded through, an exception stops what follows. *)
Definition M (A : Type) : Type := list event -> (A + exception) * list event.

Definition ret {A} (a : A) : M A := fun tr => (inl a, tr).

Definition raise {A} (e : exception) : M A := fun tr => (inr e, tr).

Definition bind {A B} (m : M A) (k : A -> M B) : M B :=
  fun tr =>
    match m tr with
    | (inl a, tr') => k a tr'
    | (inr e, tr') => (inr e, tr')
    end.

Notation "x <- m ;; k" := (bind m (fun x => k))
  (at level 61, m at next level, right associativity).

Variable svc : services.

(** [openai_client.embeddings.create(model=..., input=texts)]. *)
Definition call_embeddings (texts : list string) : M (list V) :=
  fun tr =>
    let tr' := (tr ++ [EmbeddingRequest texts])%list in
    match embeddings_create svc tr texts with
    | Returned data => (inl data, tr')
    | ApiFailure => (inr ApiError, tr')
    end.

(** [supabase.table('knowledge_base').insert(records).execute()]. *)
Definition call_insert (records : list kb_record)
  : M (option (list kb_record)) :=
  fun tr =>
    let tr' := (tr ++ [BulkInsert records])%list in
    match knowledge_base_insert svc tr records with
    | Returned data => (inl data, tr')
    | ApiFailure => (inr ApiError, tr')
    end.

(** [for i, chunk in enumerate(chunks): chunk['embedding'] =
    response.data[i].embedding]; an index past the end of the response
    raises. *)
Fixpoint attach_embeddings (chunks : list (chunk V)) (data : list V)
  : M (list (chunk V)) :=
  match chunks with
  | [] => ret []
  | c :: cs =>
      match data with
      | [] => raise IndexError
      | v :: vs =>
          cs' <- attach_embeddings cs vs ;;
          ret (mk_chunk (ch_title c) (ch_content c) (ch_metadata c) (Some v)
                 :: cs')
      end
  end.

Definition generate_embeddings (chunks : list (chunk V)) : M (list (chunk V)) :=
  let texts := map ch_content chunks in
  data <- call_embeddings texts ;;
  attach_embeddings chunks data.

(** One entry of [records]; reading a missing ['embedding'] raises. *)
Definition record_of (c : chunk V) : M kb_record :=
  match ch_embedding c with
  | Some v =>
      ret {| kb_title := ch_title c;
             kb_content := ch_content c;
             kb_embedding := v;
             kb_metadata := ch_metadata c;
             kb_source := "volvo_sqlite";
             kb_tokens := Z.of_nat (Py.len (ch_content c)) / 4 |}
  | None => raise KeyError
  end.

Fixpoint records_of (chunks : list (chunk V)) : M (list kb_record) :=
  match chunks with
  | [] => ret []
  | c :: cs =>
      r <- record_of c ;;
      rs <- records_of cs ;;
      ret (r :: rs)
  end.

Definition insert_to_supabase (chunks : list (chunk V)) : M nat :=
  records <- records_of chunks ;;
  data <- call_insert records ;;
  match data with
  | Some (r :: rs) => ret (List.length (r :: rs))
  | Some [] | None => raise InsertFailed
  end.

(** The variables of the main loop. *)
Record loop_state : Type := mk_loop_state {
  batch_chunks : list (chunk V);
  processed : nat;
  inserted : nat
}.

(** The chunk built for one row of the main query. *)
Definition chunk_of_row (conn : database) (row : Product.t) : chunk V :=
  let fitments := format_fitments (Product.id row) conn in
  let alt_names := format_alternative_names (Product.id row) conn in
  create_chunk row fitments alt_names conn.

(** One iteration of [for row in cursor], for a batch size [size]. *)
Definition loop_body (size : nat) (conn : database) (st : loop_state)
  (row : Product.t) : M loop_state :=
  let chunk := chunk_of_row conn row in
  let batch := (batch_chunks st ++ [chunk])%list in
  let n := S (processed st) in
  if (size <=? List.length batch)%nat then
    chunks_with_embeddings <- generate_embeddings batch ;;
    count <- insert_to_supabase chunks_with_embeddings ;;
    ret {| batch_chunks := []; processed := n;
           inserted := (inserted st + count)%nat |}
  else
    ret {| batch_chunks := batch; processed := n; inserted := inserted st |}.

Fixpoint loop (size : nat) (conn : database) (rows : list Product.t)
  (st : loop_state) : M loop_state :=
  match rows with
  | [] => ret st
  | row :: rows' =>
      st' <- loop_body size conn st row ;;
      loop size conn rows' st'
  end.

(** [if batch_chunks: ...] after the loop.  The chunks of the list are
    updated in place, the list stays bound to [batch_chunks]. *)
Definition final_flush (st : loop_state) : M loop_state :=
  match batch_chunks st with
  | [] => ret st
  | _ =>
      chunks_with_embeddings <- generate_embeddings (batch_chunks st) ;;
      count <- insert_to_supabase chunks_with_embeddings ;;
      ret {| batch_chunks := chunks_with_embeddings;
             processed := processed st;
             inserted := (inserted st + count)%nat |}
  end.

(** [sum([len(c['content']) // 4 for c in batch_chunks]) * processed //
    len(batch_chunks) if batch_chunks else 0]. *)
Definition estimate_tokens (batch : list (chunk V)) (n : nat) : Z :=
  match batch with
  | [] => 0
  | _ =>
      fold_right Z.add 0
        (map (fun c => Z.of_nat (Py.len (ch_content c)) / 4) batch)
      * Z.of_nat n / Z.of_nat (List.length batch)
  end.

(** [total_tokens / 1_000_000 * 0.02]. *)
Definition estimate_cost (total_tokens : Z) : spec_float :=
  Float.mul (Float.true_div total_tokens 1000000) Float.two_hundredths.

(** The figures of the summary the script prints. *)
Record summary : Type := mk_summary {
  sm_processed : nat;
  sm_inserted : nat;
  sm_total_tokens : Z;
  sm_cost : spec_float;
  sm_cost_printed : string
}.

(** The summary block: the success rate divides by [processed]. *)
Definition summarize (st : loop_state) : M summary :=
  match processed st with
  | O => raise ZeroDivisionError
  | S _ =>
      let total_tokens := estimate_tokens (batch_chunks st) (processed st) in
      let cost := estimate_cost total_tokens in
      ret {| sm_processed := processed st;
             sm_inserted := inserted st;
             sm_total_tokens := total_tokens;
             sm_cost := cost;
             sm_cost_printed := "$" ++ Py.fmt2 (Float.to_Q cost) |}
  end.

(** The import with the batch size as a parameter. *)
Definition import_with (size : nat) (conn : database) : M summary :=
  st <- loop size conn (canonical_rows conn)
          {| batch_chunks := []; processed := O; inserted := O |} ;;
  st <- final_flush st ;;
  summarize st.

Definition import_products (conn : database) : M summary :=
  import_with BATCH_SIZE conn.

End Pipeline.

Arguments Returned {A}.
Arguments ApiFailure {A}.
Arguments EmbeddingRequest {V}.
Arguments BulkInsert {V}.
Arguments kb_title {V}.
Arguments kb_content {V}.
Arguments kb_embedding {V}.
Arguments kb_metadata {V}.
Arguments kb_source {V}.
Arguments kb_tokens {V}.
Arguments batch_chunks {V}.
Arguments processed {V}.
Arguments inserted {V}.
Arguments mk_loop_state {V}.
Arguments mk_kb_record {V}.
Arguments mk_services {V}.
Arguments embeddings_create {V}.
Arguments knowledge_base_insert {V}.
Arguments ret {V A}.
Arguments raise {V A}.
Arguments bind {V A B}.
Arguments call_embeddings {V}.
Arguments call_insert {V}.
Arguments attach_embeddings {V}.
Arguments generate_embeddings {V}.
Arguments record_of {V}.
Arguments records_of {V}.
Arguments insert_to_supabase {V}.
Arguments chunk_of_row {V}.
Arguments loop_body {V}.
Arguments loop {V}.
Arguments final_flush {V}.
Arguments estimate_tokens {V}.
Arguments summarize {V}.
Arguments import_with {V}.
Arguments import_products {V}.

(* ================================================================== *)
(** ** Vocabulary of the statements *)
(* ================================================================== *)

(** A variant counts as priced when its price is present and not zero,
    the test [if v['skandix_price']] of [create_chunk]; a variant whose
    stored price is 0 has a known price and is not priced. *)
Definition priced (v : Variant.t) : bool :=
  match Variant.skandix_price v with
  | Some q => negb (Qeq_bool q 0)
  | None => false
  end.

(** A variant with a known price: the column is not NULL. *)
Definition has_price (v : Variant.t) : bool :=
  match Variant.skandix_price v with
  | Some _ => true
  | None => false
  end.


(** [id] identifies a row of [products]: no two rows share one. *)
Definition unique_ids (conn : database) : Prop :=
  NoDup (map Product.id (products conn)).

(** The comparison [cmp] is a total preorder: swapping the arguments flips
    the answer, and "not after" is transitive. *)
Definition flips {A} (cmp : A -> A -> comparison) : Prop :=
  forall a b, cmp b a = CompOpp (cmp a b).

Definition chains {A} (cmp : A -> A -> comparison) : Prop :=
  forall a b c, cmp a b <> Gt -> cmp b c <> Gt -> cmp a c <> Gt.

(** Order-preserving de-duplication: every value stays at its first
    occurrence, its later copies are deleted. *)
Fixpoint first_occurrences (l : list string) : list string :=
  match l with
  | [] => []
  | x :: l' => x :: remove string_dec x (first_occurrences l')
  end.

(** [m] is the smallest, respectively the largest, element of [l]. *)
Definition least (m : Z) (l : list Z) : Prop :=
  In m l /\ forall y, In y l -> m <= y.

Definition greatest (m : Z) (l : list Z) : Prop :=
  In m l /\ forall y, In y l -> y <= m.

(** The fitment rows of one product that belong to the model group [k]. *)
Definition model_group (k : option string) (product_id : Z) (conn : database)
  : list Fitment.t :=
  filter (fun f => Sql.same_group k (Fitment.model f))
    (fitment_rows product_id conn).

(** The engine part of a fitment line: nothing without engines, else the
    first five in parentheses. *)
Definition engine_segment (engines : list string) : string :=
  match engines with
  | [] => ""
  | _ => " (" ++ String.concat ", " (firstn 5 engines) ++ ")"
  end.

(** An engine code that the rendering leaves as it is: not empty, not the
    text NULL, free of commas and of surrounding white space. *)
Definition plain_code (s : string) : bool :=
  negb (s =? "")%string && negb (s =? "NULL")%string
  && negb (Py.contains "," s) && (Py.strip s =? s)%string.

(** What the rendering makes of the stored codes [codes]: every code is
    cut at its commas, empty pieces and the text NULL are dropped, and
    what is left is stripped of surrounding white space. *)
Definition rendered_codes (codes : list string) : list string :=
  map Py.strip
    (filter (fun e => negb (e =? "")%string && negb (e =? "NULL")%string)
       (flat_map (Py.split ",") codes)).

(** What stays in the batch buffer after [cs] went through the loop with
    the buffer holding [b] at the start and every flush succeeding. *)
Fixpoint carry {A} (size : nat) (b cs : list A) : list A :=
  match cs with
  | [] => b
  | c :: cs' =>
      let b' := (b ++ [c])%list in
      if (size <=? List.length b')%nat then carry size [] cs'
      else carry size b' cs'
  end.

Section PipelineVocabulary.

Context {V : Type}.

(** The chunk [c] after [chunk['embedding'] = v]. *)
Definition with_embedding (c : chunk V) (v : V) : chunk V :=
  mk_chunk (ch_title c) (ch_content c) (ch_metadata c) (Some v).

(** The token estimate of a chunk, [len(content) // 4]. *)
Definition tokens_of (c : chunk V) : Z := Z.of_nat (Py.len (ch_content c)) / 4.

(** The store record of chunk [c] carrying the vector [v]. *)
Definition record_with (c : chunk V) (v : V) : kb_record V :=
  {| kb_title := ch_title c;
     kb_content := ch_content c;
     kb_embedding := v;
     kb_metadata := ch_metadata c;
     kb_source := "volvo_sqlite";
     kb_tokens := tokens_of c |}.

(** What one flush of [batch] sends when the vector of a text is [emb]
    of it. *)
Definition flush_events (emb : string -> V) (batch : list (chunk V))
  : list (event V) :=
  [EmbeddingRequest (map ch_content batch);
   BulkInsert (map (fun c => record_with c (emb (ch_content c))) batch)].

(** The store answered the insert of [records], sent after [tr], with an
    empty or absent result. *)
Definition empty_result (svc : services V) (tr : list (event V))
  (records : list (kb_record V)) : Prop :=
  knowledge_base_insert svc tr records = Returned None \/
  knowledge_base_insert svc tr records = Returned (Some []).

(** No insert of [tr] got an empty or absent result. *)
Definition quiet (svc : services V) (tr : list (event V)) : Prop :=
  forall tr1 records tr2,
    tr = (tr1 ++ BulkInsert records :: tr2)%list ->
    ~ empty_result svc tr1 records.

(** The total-token figure as C7 words it: the estimates of the last
    batch, scaled by the processed rows over the batch size. *)
Definition tokens_scaled_by_batch_size (last_batch : list (chunk V))
  (n : nat) : Z :=
  fold_right Z.add 0 (map tokens_of last_batch) * Z.of_nat n
  / Z.of_nat BATCH_SIZE.

End PipelineVocabulary.

Section AbortVocabulary.

Context {V : Type} (svc : services V).

(** [m] keeps the trace quiet, or stops with [InsertFailed] right after
    the first insert that got an empty or absent result. *)
Definition stops_at_empty_result {A} (m : M V A) : Prop :=
  forall tr, quiet svc tr ->
    match m tr with
    | (inl _, tr') => quiet svc tr'
    | (inr e, tr') =>
        quiet svc tr' \/
        (e = InsertFailed /\
         exists tr1 records,
           tr' = (tr1 ++ [BulkInsert records])%list /\
           quiet svc tr1 /\ empty_result svc tr1 records)
    end.

End AbortVocabulary.

(* ================================================================== *)
(** ** Sample rows *)
(* ================================================================== *)

(** A product row with the columns the ranking and the price summary
    read; the other columns are NULL. *)
Definition sample_product (id : Z) (oe : string) (has_fitments : option Z)
  (status name : option string) (price : option Q) : Product.t :=
  {| Product.id := id;
     Product.oe_nummer := Some oe;
     Product.has_fitments := has_fitments;
     Product.translation_status := status;
     Product.normalized_name := name;
     Product.swedish_translation := None;
     Product.skandix_name_eng := None;
     Product.skandix_price := price;
     Product.skandix_product_id := None;
     Product.vp_artikelnummer := None;
     Product.source := None;
     Product.part_system := None;
     Product.kl_namn := None;
     Product.folkrace_namn := None;
     Product.vp_namn := None;
     Product.cvr_namn := None;
     Product.fordon_namn := None |}.

Definition products_only (rows : list Product.t) : database :=
  {| products := rows; expanded_fitments := []; alternative_names := [] |}.

(** Two groups: "1234" with a verified and an unverified row that agree
    on everything else, and a third row without a price; "5678" with a
    single row that has neither fitments nor a verified translation. *)
Definition sample_db : database :=
  products_only
    [sample_product 1 "1234" (Some 1) (Some "pending") (Some "Bromsskiva")
       (Some 150%Q);
     sample_product 2 "1234" (Some 1) (Some "verified") (Some "Bromsskiva")
       (Some 100%Q);
     sample_product 3 "1234" (Some 1) None (Some "Bromsskiva") None;
     sample_product 4 "5678" (Some 0) (Some "pending") (Some "Oljefilter")
       (Some (1995 # 10))].

(** Fitment rows of product 7: two rows for the 740 and, for the 240, two
    rows without a year-to. *)
Definition sample_fitment (model : string) (year_from year_to : option Z)
  (engine : option string) : Fitment.t :=
  {| Fitment.product_id := Some 7;
     Fitment.model := Some model;
     Fitment.variant := None;
     Fitment.year_from := year_from;
     Fitment.year_to := year_to;
     Fitment.engine := engine |}.

Definition fitments_db : database :=
  {| products := [];
     expanded_fitments :=
       [sample_fitment "740" (Some 1985) (Some 1987) (Some "B200");
        sample_fitment "740" (Some 1988) (Some 1992) (Some "B230");
        sample_fitment "240" (Some 1975) None (Some "B21");
        sample_fitment "240" (Some 1979) None (Some "B21")];
     alternative_names := [] |}.

(** The two 740 rows alone. *)
Definition volvo_740_db : database :=
  {| products := [];
     expanded_fitments :=
       [sample_fitment "740" (Some 1985) (Some 1987) (Some "B200");
        sample_fitment "740" (Some 1988) (Some 1992) (Some "B230")];
     alternative_names := [] |}.

(** [n] products with ids and part numbers 1..n, each with fitments. *)
Definition numbered_products (n : nat) : database :=
  products_only
    (map (fun i => sample_product (Z.of_nat i) (Py.str_of_Z (Z.of_nat i))
                     (Some 1) None (Some "Bromsskiva") None)
       (seq 1 n)).

(** Services that always answer: the vector of a text is its length, the
    store returns the records it was given. *)
Definition echo_services : services nat :=
  {| embeddings_create := fun _ texts => Returned (map Py.len texts);
     knowledge_base_insert := fun _ records => Returned (Some records) |}.

(** A store that returns an empty result. *)
Definition empty_store_services : services nat :=
  {| embeddings_create := fun _ texts => Returned (map Py.len texts);
     knowledge_base_insert := fun _ _ => Returned (Some []) |}.

(* ================================================================== *)
(** ** Further vocabulary and sample rows *)
(* ================================================================== *)

(** SQL does not say in which order a query without ORDER BY returns its
    rows, in which order an aggregate takes the rows of a group, or which
    of several rows that tie under an ORDER BY comes first.  In SQLite it
    is the order in which the query plan visits the rows: the order of the
    table when the table is scanned, the order of an index when an index
    is scanned.  The queries of the script visit the rows in the order of
    the lists of the [database]; the same tables visited in another order
    are the database with a list replaced by a permutation of it. *)
Definition with_products (scan : list Product.t) (conn : database)
  : database :=
  {| products := scan;
     expanded_fitments := expanded_fitments conn;
     alternative_names := alternative_names conn |}.

Definition with_fitments (scan : list Fitment.t) (conn : database)
  : database :=
  {| products := products conn;
     expanded_fitments := scan;
     alternative_names := alternative_names conn |}.

Definition with_alternative_names (scan : list AltName.t) (conn : database)
  : database :=
  {| products := products conn;
     expanded_fitments := expanded_fitments conn;
     alternative_names := scan |}.

(** The eight name columns [get_all_names] reads, in reading order. *)
Definition name_columns (row : Product.t) : list (option string) :=
  [Product.normalized_name row; Product.swedish_translation row;
   Product.skandix_name_eng row; Product.kl_namn row;
   Product.folkrace_namn row; Product.vp_namn row; Product.cvr_namn row;
   Product.fordon_namn row].

(** The three columns [get_all_names] appends without looking at the
    names it already has. *)
Definition primary_columns (row : Product.t) : list (option string) :=
  [Product.normalized_name row; Product.swedish_translation row;
   Product.skandix_name_eng row].

(** A row the filter of the two product queries lets through: it has
    fitments or a verified translation. *)
Definition usable (p : Product.t) : Prop :=
  Product.has_fitments p = Some 1
  \/ Product.translation_status p = Some "verified".

Definition present {A} (o : option A) : nat :=
  match o with Some _ => 1%nat | None => 0%nat end.

(** The four keys of the precedence as C1 words it, 1 for "true" or
    "present" and 0 otherwise: has fitments, verified translation,
    normalized name present, price present. *)
Definition claimed_keys (p : Product.t) : list nat :=
  [match Product.has_fitments p with Some 1 => 1%nat | _ => 0%nat end;
   match Product.translation_status p with
   | Some s => if (s =? "verified")%string then 1%nat else 0%nat
   | None => 0%nat
   end;
   present (Product.normalized_name p);
   present (Product.skandix_price p)].

(** The four keys as the query ranks them, for a has_fitments flag that
    is 0 or 1.  They differ from the claimed ones in the second: a
    verified translation ranks first, any other status next, and no
    status at all last. *)
Definition ranking_keys (p : Product.t) : list nat :=
  [match Product.has_fitments p with Some 1 => 1%nat | _ => 0%nat end;
   match Product.translation_status p with
   | Some s => if (s =? "verified")%string then 2%nat else 1%nat
   | None => 0%nat
   end;
   present (Product.normalized_name p);
   present (Product.skandix_price p)].

(** [k] ranks before [k']: at the first position where they differ [k]
    has the larger key. *)
Fixpoint ranks_before (k k' : list nat) : bool :=
  match k, k' with
  | x :: t, y :: t' => if (x =? y)%nat then ranks_before t t' else (y <? x)%nat
  | _, _ => false
  end.

(** C1 as it is stated, for the part numbers that have a usable row,
    when the rows of [products] are visited in the order [scan]: exactly
    one row is selected, and it ranks before every other row of the group
    under the claimed keys or ties with it and has the smaller id. *)
Definition claimed_selection (scan : list Product.t) (conn : database)
  : Prop :=
  forall oe,
    (exists p, In p (oe_group (Some oe) conn) /\ usable p) ->
    exists best,
      selected_for (Some oe) (with_products scan conn) = [best]
      /\ forall r, In r (oe_group (Some oe) conn) -> r <> best ->
           ranks_before (claimed_keys best) (claimed_keys r) = true
           \/ (claimed_keys best = claimed_keys r
               /\ Product.id best < Product.id r).

(** A text column without a usable value: NULL or the empty text. *)
Definition blank (o : option string) : Prop := o = None \/ o = Some "".

(** The rows of [alternative_names] with [product_id = ?], as the pairs
    the query selects. *)
Definition alt_pairs (product_id : Z) (conn : database)
  : list (option string * option string) :=
  map (fun a => (AltName.alternative_name a, AltName.source_site a))
    (filter (fun a => Sql.eq_int (AltName.product_id a) (Some product_id))
       (alternative_names conn)).

(** One rendered alternative name, ["name (site)"]. *)
Definition render_alt (a : option string * option string) : string :=
  Py.str_opt (fst a) ++ " (" ++ Py.str_opt (snd a) ++ ")".

Section RunVocabulary.

Context {V : Type}.

(** A request or an insert for at least one and at most [size] chunks. *)
Definition sized (size : nat) (e : event V) : Prop :=
  match e with
  | EmbeddingRequest texts =>
      (1 <= List.length texts <= size)%nat
  | BulkInsert records =>
      (1 <= List.length records <= size)%nat
  end.

(** A trace made of request/insert pairs, each insert carrying the texts
    of the request before it, in the same order. *)
Inductive paired : list (event V) -> Prop :=
| paired_nil : paired []
| paired_step (tr : list (event V)) (records : list (kb_record V)) :
    paired tr ->
    paired (tr ++ [EmbeddingRequest (map kb_content records);
                   BulkInsert records]).

(** How a run can stop early: after a complete pair, with the error of
    the insert; or after a request with no insert, with the error of the
    request. *)
Definition stopped (e : exception) (tr : list (event V)) : Prop :=
  ((e = ApiError \/ e = InsertFailed) /\ paired tr)
  \/ ((e = ApiError \/ e = IndexError) /\
      exists t texts, tr = (t ++ [EmbeddingRequest texts])%list /\ paired t).

(** What the store is to keep of a chunk: title, text, metadata, the
    source tag and the token estimate. *)
Definition chunk_core (c : chunk V)
  : string * string * metadata * string * Z :=
  (ch_title c, ch_content c, ch_metadata c, "volvo_sqlite", tokens_of c).

Definition record_core (r : kb_record V)
  : string * string * metadata * string * Z :=
  (kb_title r, kb_content r, kb_metadata r, kb_source r, kb_tokens r).

(** All records sent to the store in a trace, in sending order. *)
Definition inserted_records (tr : list (event V)) : list (kb_record V) :=
  flat_map (fun e => match e with
                     | BulkInsert records => records
                     | EmbeddingRequest _ => []
                     end) tr.

(** What the store has been sent of its records, in sending order. *)
Definition cores_sent (tr : list (event V))
  : list (string * string * metadata * string * Z) :=
  map record_core (inserted_records tr).

(** All texts sent to the embedding service in a trace, in sending
    order. *)
Definition requested_texts (tr : list (event V)) : list string :=
  flat_map (fun e => match e with
                     | EmbeddingRequest texts => texts
                     | BulkInsert _ => []
                     end) tr.

(** A store that, when it returns rows, returns one per record. *)
Definition row_per_record (svc : services V) : Prop :=
  forall tr records data,
    knowledge_base_insert svc tr records = Returned (Some data) ->
    List.length data = List.length records.

End RunVocabulary.

(** Part number "7777" with two rows that tie on all four keys;
    [by_price] visits them as an index on (oe_nummer, skandix_price)
    does, the cheaper row first. *)
Definition first_tied_row : Product.t :=
  sample_product 1 "7777" (Some 1) (Some "pending") (Some "Kamrem")
    (Some 100%Q).

Definition second_tied_row : Product.t :=
  sample_product 2 "7777" (Some 1) (Some "pending") (Some "Kamrem")
    (Some 50%Q).

Definition tied_db : database :=
  products_only [first_tied_row; second_tied_row].

Definition by_price : list Product.t := [second_tied_row; first_tied_row].

(** Part number "8001" with a row without translation status that has a
    name and a price, and a row with an unverified status that has
    neither. *)
Definition null_status_db : database :=
  products_only
    [sample_product 1 "8001" (Some 1) None (Some "Kamrem") (Some 1%Q);
     sample_product 2 "8001" (Some 1) (Some "pending") None None].

(** A part number with an unverified row whose has_fitments is 0 and a
    verified row whose has_fitments is NULL. *)
Definition null_flag_db : database :=
  products_only
    [sample_product 5 "9001" (Some 0) (Some "pending") (Some "Kamrem")
       (Some 1%Q);
     sample_product 6 "9001" None (Some "verified") (Some "Kamrem")
       (Some 1%Q)].

(** Fitment rows of product 7 for the S40 whose engine codes differ in
    white space or hold a comma. *)
Definition spaced_codes_db : database :=
  {| products := [];
     expanded_fitments :=
       [{| Fitment.product_id := Some 7; Fitment.model := Some "S40";
           Fitment.variant := None; Fitment.year_from := Some 2000;
           Fitment.year_to := Some 2004; Fitment.engine := Some "B4204" |};
        {| Fitment.product_id := Some 7; Fitment.model := Some "S40";
           Fitment.variant := None; Fitment.year_from := Some 2000;
           Fitment.year_to := Some 2004; Fitment.engine := Some " B4204" |};
        {| Fitment.product_id := Some 7; Fitment.model := Some "S40";
           Fitment.variant := None; Fitment.year_from := Some 2000;
           Fitment.year_to := Some 2004;
           Fitment.engine := Some "B4184,B4204" |}];
     alternative_names := [] |}.

(** Two fitment rows of product 7 for the 240, stored with engine B21
    before engine B19; [by_engine] visits them as an index on
    (product_id, engine) does. *)
Definition two_engines_db : database :=
  {| products := [];
     expanded_fitments :=
       [sample_fitment "240" (Some 1975) None (Some "B21");
        sample_fitment "240" (Some 1979) None (Some "B19")];
     alternative_names := [] |}.

Definition by_engine : list Fitment.t :=
  [sample_fitment "240" (Some 1979) None (Some "B19");
   sample_fitment "240" (Some 1975) None (Some "B21")].

(** Part numbers with a stored price of 0, all rows with fitments:
    "4321" with rows priced 0, 100 and 150, "4400" with one row priced 0,
    "4500" with rows priced 0 and 100. *)
Definition zero_price_db : database :=
  products_only
    [sample_product 11 "4321" (Some 1) None (Some "Bromsok") (Some 0%Q);
     sample_product 12 "4321" (Some 1) None (Some "Bromsok") (Some 100%Q);
     sample_product 13 "4321" (Some 1) None (Some "Bromsok") (Some 150%Q);
     sample_product 14 "4400" (Some 1) None (Some "Kamrem") (Some 0%Q);
     sample_product 15 "4500" (Some 1) None (Some "Bromsok") (Some 0%Q);
     sample_product 16 "4500" (Some 1) None (Some "Bromsok") (Some 100%Q)].

(** The only row of part number "4400". *)
Definition zero_priced_row : Product.t :=
  sample_product 14 "4400" (Some 1) None (Some "Kamrem") (Some 0%Q).

(** Product 7 with three rows of alternative names, two of them the same
    pair, and one row of another product. *)
Definition alt_names_db : database :=
  {| products := [];
     expanded_fitments := [];
     alternative_names :=
       [AltName.mk (Some 7) (Some "Bromsok") (Some "skandix");
        AltName.mk (Some 7) (Some "Bromsok") (Some "skandix");
        AltName.mk (Some 7) (Some "Ok") (Some "vp");
        AltName.mk (Some 8) (Some "Kamrem") (Some "vp")] |}.

(** An embedding service that answers with no vector at all. *)
Definition short_answer_services : services nat :=
  {| embeddings_create := fun _ _ => Returned [];
     knowledge_base_insert := fun _ records => Returned (Some records) |}.

(** The three rows of group "1234" in [sample_db]. *)
Definition pending_row : Product.t :=
  sample_product 1 "1234" (Some 1) (Some "pending") (Some "Bromsskiva")
    (Some 150%Q).

Definition verified_row : Product.t :=
  sample_product 2 "1234" (Some 1) (Some "verified") (Some "Bromsskiva")
    (Some 100%Q).

Definition unpriced_row : Product.t :=
  sample_product 3 "1234" (Some 1) None (Some "Bromsskiva") None.

(** A row without a normalized name, with a Swedish translation and an
    English name. *)
Definition translated_row : Product.t :=
  {| Product.id := 21;
     Product.oe_nummer := Some "2100";
     Product.has_fitments := Some 1;
     Product.translation_status := None;
     Product.normalized_name := None;
     Product.swedish_translation := Some "Bromsskiva";
     Product.skandix_name_eng := Some "Brake disc";
     Product.skandix_price := None;
     Product.skandix_product_id := None;
     Product.vp_artikelnummer := None;
     Product.source := None;
     Product.part_system := Some "";
     Product.kl_namn := None;
     Product.folkrace_namn := None;
     Product.vp_namn := None;
     Product.cvr_namn := None;
     Product.fordon_namn := None |}.

(** Row [i] of [numbered_products]. *)
Definition numbered_row (i : Z) : Product.t :=
  sample_product i (Py.str_of_Z i) (Some 1) None (Some "Bromsskiva") None.

(** The chunk of the verified row, before it has a vector. *)
Definition sample_chunk : chunk nat := chunk_of_row sample_db verified_row.

(* ================================================================== *)
(** * Properties *)
(* ================================================================== *)

(** ** The embedding on sample inputs *)

Example len_counts_code_points : Py.len "Från" = 4%nat.
Proof. reflexivity. Qed.

Example strip_removes_white_space : Py.strip "  B200 " = "B200".
Proof. reflexivity. Qed.

Example split_keeps_empty_pieces :
  Py.split "," "B200,,B230" = ["B200"; ""; "B230"] /\
  Py.split "," "" = [""].
Proof. split; reflexivity. Qed.

Example fmt2_rounds_to_even :
  Py.fmt2 (1995 # 10) = "199.50" /\ Py.fmt2 100 = "100.00" /\
  Py.fmt2 (1 # 8) = "0.12" /\ Py.fmt2 (3 # 8) = "0.38" /\
  Py.fmt2 (- 1 # 1000) = "-0.00" /\ Py.fmt2 (12999 # 1000) = "13.00" /\
  Py.fmt2 (3011782250804019 # 1125899906842624) = "2.67".
Proof. repeat split; reflexivity. Qed.

Example fitments_of_sample :
  format_fitments 7 fitments_db =
  "Passar till:" ++ Py.nl ++ "- Volvo 240 (B21)" ++ Py.nl
  ++ "- Volvo 740 1985-1992 (B200, B230)".
Proof. reflexivity. Qed.

Example no_fitments_of_other_product : format_fitments 8 fitments_db = "".
Proof. reflexivity. Qed.

Example canonical_rows_of_sample :
  map Product.id (canonical_rows sample_db) = [2].
Proof. reflexivity. Qed.

Example chunk_of_sample :
  ch_content
    (@chunk_of_row nat sample_db
       (sample_product 2 "1234" (Some 1) (Some "verified") (Some "Bromsskiva")
          (Some 100%Q))) =
  "PRODUKTNAMN: Bromsskiva" ++ Py.nl
  ++ "ALTERNATIVA NAMN: Bromsskiva" ++ Py.nl
  ++ "OE-NUMMER: OE-nummer: 1234" ++ Py.nl
  ++ "SYSTEM: allmänt" ++ Py.nl
  ++ "PRIS: Från 100.00 SEK (finns 3 varianter)" ++ Py.nl
  ++ Py.nl ++ Py.nl ++ "TILLGÄNGLIGA VARIANTER:" ++ Py.nl
  ++ "1. Bromsskiva - Pris saknas" ++ Py.nl
  ++ "2. Bromsskiva - 100.00 SEK" ++ Py.nl
  ++ "3. Bromsskiva - 150.00 SEK".
Proof. reflexivity. Qed.

Example cost_of_250_tokens :
  estimate_cost 250 = S754_finite false 5902958103587057 (-70).
Proof. reflexivity. Qed.

Example empty_table_has_no_success_rate :
  import_products echo_services (products_only []) [] =
  (inr ZeroDivisionError, []).
Proof. reflexivity. Qed.

(** ** Lists, strings and sorting *)

Lemma string_app_assoc (a b c : string) : (a ++ b) ++ c = a ++ b ++ c.
Proof.
  induction a as [|x a IH]; simpl; [reflexivity | now rewrite IH].
Qed.

Lemma string_app_empty_r (a : string) : a ++ "" = a.
Proof.
  induction a as [|x a IH]; simpl; [reflexivity | now rewrite IH].
Qed.

Lemma mem_In (x : string) (l : list string) : Py.mem x l = true <-> In x l.
Proof.
  unfold Py.mem. rewrite existsb_exists. split.
  - intros [y [Hy He]]. apply String.eqb_eq in He. now subst.
  - intros H. exists x. split; [assumption | apply String.eqb_refl].
Qed.

Lemma mem_not_In (x : string) (l : list string) :
  Py.mem x l = false <-> ~ In x l.
Proof.
  rewrite <- mem_In. destruct (Py.mem x l); split; congruence.
Qed.

Lemma filter_perm {A} (f : A -> bool) (l l' : list A) :
  Permutation l l' -> Permutation (filter f l) (filter f l').
Proof.
  induction 1 as [| x l l' H IH | x y l | l l' l'' H1 IH1 H2 IH2]; simpl.
  - constructor.
  - destruct (f x); [now constructor | assumption].
  - destruct (f x), (f y); try apply Permutation_refl. apply perm_swap.
  - eapply Permutation_trans; eassumption.
Qed.

Lemma perm_nil_iff {A} (l l' : list A) :
  Permutation l l' -> (l = [] <-> l' = []).
Proof.
  intros H. split; intros E; rewrite E in H.
  - now apply Permutation_nil.
  - now apply Permutation_nil, Permutation_sym.
Qed.

Section OrderBy.

Context {A : Type} (cmp : A -> A -> comparison).

Lemma insert_perm (x : A) (l : list A) :
  Permutation (Sql.insert cmp x l) (x :: l).
Proof.
  induction l as [|y l IH]; simpl.
  - apply Permutation_refl.
  - destruct (cmp x y); try apply Permutation_refl.
    eapply perm_trans; [apply perm_skip, IH | apply perm_swap].
Qed.

Lemma order_by_perm (l : list A) : Permutation (Sql.order_by cmp l) l.
Proof.
  induction l as [|x l IH]; simpl.
  - apply perm_nil.
  - eapply perm_trans; [apply insert_perm | now apply perm_skip].
Qed.

Lemma order_by_In (x : A) (l : list A) :
  In x (Sql.order_by cmp l) <-> In x l.
Proof.
  split; apply Permutation_in;
    [apply order_by_perm | apply Permutation_sym, order_by_perm].
Qed.

Lemma order_by_length (l : list A) :
  List.length (Sql.order_by cmp l) = List.length l.
Proof. apply Permutation_length, order_by_perm. Qed.

Lemma order_by_nil_iff (l : list A) : Sql.order_by cmp l = [] <-> l = [].
Proof.
  split; intros H.
  - apply length_zero_iff_nil. rewrite <- order_by_length, H. reflexivity.
  - subst. reflexivity.
Qed.

(** The first row of a stable sort: nothing sorts before it, and every
    row met earlier in the table sorts strictly after it. *)
Lemma order_by_head (Hf : flips cmp) (Ht : chains cmp) (l : list A) (h : A)
  (rest : list A) :
  Sql.order_by cmp l = h :: rest ->
  exists l1 l2,
    l = (l1 ++ h :: l2)%list /\
    (forall y, In y l1 -> cmp h y = Lt) /\
    (forall y, In y l2 -> cmp h y <> Gt).
Proof.
  revert h rest. induction l as [|x l IH]; intros h rest H.
  - discriminate.
  - change (Sql.order_by cmp (x :: l))
      with (Sql.insert cmp x (Sql.order_by cmp l)) in H.
    destruct (Sql.order_by cmp l) as [|h' rest'] eqn:E.
    + simpl in H. injection H as <- <-.
      apply (proj1 (order_by_nil_iff l)) in E. subst l.
      exists [], []. repeat split; intros y [].
    + destruct (IH h' rest' eq_refl) as (l1 & l2 & -> & H1 & H2).
      simpl in H. destruct (cmp x h') eqn:C.
      * injection H as <- <-. exists [], (l1 ++ h' :: l2)%list.
        repeat split; [intros y [] |]. intros y Hy.
        apply (Ht x h' y); [congruence |].
        apply in_app_or in Hy. destruct Hy as [Hy | [<- | Hy]].
        -- rewrite (H1 y Hy). discriminate.
        -- pose proof (Hf h' h') as Hr. destruct (cmp h' h'); simpl in Hr;
             congruence.
        -- now apply H2.
      * injection H as <- <-. exists [], (l1 ++ h' :: l2)%list.
        repeat split; [intros y [] |]. intros y Hy.
        apply (Ht x h' y); [congruence |].
        apply in_app_or in Hy. destruct Hy as [Hy | [<- | Hy]].
        -- rewrite (H1 y Hy). discriminate.
        -- pose proof (Hf h' h') as Hr. destruct (cmp h' h'); simpl in Hr;
             congruence.
        -- now apply H2.
      * injection H as <- _. exists (x :: l1), l2.
        repeat split; [| assumption]. intros y [<- | Hy].
        -- rewrite (Hf x h'), C. reflexivity.
        -- now apply H1.
Qed.

End OrderBy.

(** ** The ORDER BY terms are total preorders *)

Lemma cmp_int_flips : flips Sql.cmp_int.
Proof.
  intros [a|] [b|]; simpl; try reflexivity. apply Z.compare_antisym.
Qed.

Lemma cmp_int_chains : chains Sql.cmp_int.
Proof.
  intros [a|] [b|] [c|]; unfold Sql.cmp_int, Sql.cmp_null; intros H1 H2;
    try congruence.
  apply Z.compare_le_iff.
  apply (proj1 (Z.compare_le_iff a b)) in H1.
  apply (proj1 (Z.compare_le_iff b c)) in H2. lia.
Qed.

Lemma Zcompare_flips : flips Z.compare.
Proof. intros a b. apply Z.compare_antisym. Qed.

Lemma Zcompare_chains : chains Z.compare.
Proof.
  intros a b c H1 H2. apply Z.compare_le_iff.
  apply (proj1 (Z.compare_le_iff a b)) in H1.
  apply (proj1 (Z.compare_le_iff b c)) in H2. lia.
Qed.

Section Terms.

Context {A K : Type} (c : K -> K -> comparison) (key : A -> K).

Lemma asc_flips : flips c -> flips (Sql.asc c key).
Proof. intros H a b. apply H. Qed.

Lemma asc_chains : chains c -> chains (Sql.asc c key).
Proof. intros H a b d. apply H. Qed.

Lemma desc_flips : flips c -> flips (Sql.desc c key).
Proof. intros H a b. apply H. Qed.

Lemma desc_chains : chains c -> chains (Sql.desc c key).
Proof. intros H a b d H1 H2. unfold Sql.desc in *. now apply (H _ (key b)). Qed.

End Terms.

Section ThenBy.

Context {A : Type} (c1 c2 : A -> A -> comparison).
Hypothesis (F1 : flips c1) (T1 : chains c1) (F2 : flips c2) (T2 : chains c2).

Lemma then_by_flips : flips (Sql.then_by c1 c2).
Proof.
  intros a b. unfold Sql.then_by. rewrite (F1 a b).
  destruct (c1 a b); simpl; [apply F2 | reflexivity | reflexivity].
Qed.

Lemma then_by_chains : chains (Sql.then_by c1 c2).
Proof.
  intros a b d. unfold Sql.then_by. intros H1 H2.
  pose proof (T1 a b d) as Tabd.
  pose proof (T1 d a b) as Tdab. pose proof (T1 b d a) as Tbda.
  rewrite (F1 a d) in Tdab, Tbda. rewrite (F1 a b) in Tbda.
  rewrite (F1 b d) in Tdab.
  destruct (c1 a b) eqn:Eab; try congruence;
    destruct (c1 b d) eqn:Ebd; try congruence;
    destruct (c1 a d) eqn:Ead; simpl in *; try congruence;
    first [ now apply (T2 a b d)
          | exfalso; apply Tabd; congruence
          | exfalso; apply Tdab; congruence
          | exfalso; apply Tbda; congruence ].
Qed.

End ThenBy.

Lemma dedup_order_flips : flips dedup_order.
Proof.
  unfold dedup_order.
  repeat (apply then_by_flips || apply desc_flips || apply cmp_int_flips).
Qed.

Lemma dedup_order_chains : chains dedup_order.
Proof.
  unfold dedup_order.
  repeat (apply then_by_chains || apply then_by_flips || apply desc_chains
          || apply desc_flips || apply cmp_int_chains || apply cmp_int_flips).
Qed.

(** ** The deduplication query *)

Lemma limit_all {A} (n : nat) (l : list A) :
  (List.length l <= n)%nat -> Sql.limit n l = l.
Proof. intros H. unfold Sql.limit. now apply firstn_all2. Qed.

Lemma filter_length_le {A} (f : A -> bool) (l : list A) :
  (List.length (filter f l) <= List.length l)%nat.
Proof.
  induction l as [|x l IH]; simpl; [lia |]. destruct (f x); simpl; lia.
Qed.

(** The LIMIT of the main query never cuts: it is the number of rows of
    the table the rows are taken from. *)
Lemma canonical_rows_unlimited (conn : database) :
  canonical_rows conn =
  Sql.order_by canonical_order
    (filter (fun p => existsb (Z.eqb (Product.id p)) (representative_ids conn)
                      && eligible p)
       (products conn)).
Proof.
  unfold canonical_rows. apply limit_all.
  rewrite order_by_length. unfold total_products, MAX_PRODUCTS.
  apply filter_length_le.
Qed.

Lemma canonical_rows_In (conn : database) (p : Product.t) :
  In p (canonical_rows conn) <->
  In p (products conn) /\ In (Product.id p) (representative_ids conn)
  /\ eligible p = true.
Proof.
  rewrite canonical_rows_unlimited, order_by_In, filter_In, andb_true_iff.
  rewrite existsb_exists. split.
  - intros (Hp & (z & Hz & He) & Hel). apply Z.eqb_eq in He. subst z. tauto.
  - intros (Hp & Hr & Hel). repeat split; try assumption.
    exists (Product.id p). split; [assumption | apply Z.eqb_refl].
Qed.

Lemma sorted_filter {A} (R : A -> A -> Prop) (f : A -> bool) (l : list A) :
  StronglySorted R l -> StronglySorted R (filter f l).
Proof.
  induction 1 as [|x l Hs IH Hx]; simpl; [constructor |].
  destruct (f x); [| assumption]. constructor; [assumption |].
  rewrite Forall_forall in *. intros y Hy. apply filter_In in Hy.
  apply Hx, Hy.
Qed.

Lemma sorted_split {A} (R : A -> A -> Prop) (l1 l2 : list A) (h : A) :
  StronglySorted R (l1 ++ h :: l2) ->
  (forall y, In y l1 -> R y h) /\ (forall y, In y l2 -> R h y).
Proof.
  induction l1 as [|x l1 IH]; simpl; intros H; inversion H as [|? ? Hs Hf];
    subst.
  - split; [intros y [] |]. now rewrite Forall_forall in Hf.
  - destruct (IH Hs) as [H1 H2]. split; [| assumption].
    intros y [<- | Hy]; [| now apply H1].
    rewrite Forall_forall in Hf. apply Hf, in_elt.
Qed.

Lemma sorted_NoDup {A} (R : A -> A -> Prop) (l : list A) :
  (forall x, ~ R x x) -> StronglySorted R l -> NoDup l.
Proof.
  intros Hirr. induction 1 as [|x l Hs IH Hx]; constructor; [| assumption].
  intros Hin. rewrite Forall_forall in Hx. apply (Hirr x), Hx, Hin.
Qed.

Lemma NoDup_single {A} (l : list A) (h : A) :
  NoDup l -> (forall x, In x l <-> x = h) -> l = [h].
Proof.
  intros Hn Hl. destruct l as [|x l].
  - exfalso. apply (proj2 (Hl h) eq_refl).
  - assert (x = h) by (apply Hl; now left). subst x.
    destruct l as [|y l]; [reflexivity |]. exfalso.
    assert (y = h) by (apply Hl; right; now left). subst y.
    inversion Hn as [|? ? Hnot _]. apply Hnot. now left.
Qed.

Lemma no_element_nil {A} (l : list A) : (forall x, ~ In x l) -> l = [].
Proof.
  destruct l as [|x l]; [reflexivity |]. intros H. exfalso.
  apply (H x). now left.
Qed.

Lemma stored_by_id_unique (conn : database) :
  stored_by_id conn -> unique_ids conn.
Proof.
  unfold stored_by_id, unique_ids.
  induction 1 as [|x l Hs IH Hx]; simpl; constructor; [| assumption].
  rewrite in_map_iff. intros (y & Hy & Hin).
  rewrite Forall_forall in Hx. specialize (Hx y Hin). lia.
Qed.

Lemma unique_ids_inj (conn : database) (p q : Product.t) :
  unique_ids conn -> In p (products conn) -> In q (products conn) ->
  Product.id p = Product.id q -> p = q.
Proof.
  unfold unique_ids.
  induction (products conn) as [|x l IH]; intros Hs Hp Hq E.
  - destruct Hp.
  - inversion Hs as [|? ? Hnot Hs']; subst.
    destruct Hp as [<- | Hp], Hq as [<- | Hq].
    + reflexivity.
    + exfalso. apply Hnot. rewrite E. now apply in_map.
    + exfalso. apply Hnot. rewrite <- E. now apply in_map.
    + now apply IH.
Qed.

Lemma eq_text_true (a b : option string) :
  Sql.eq_text a b = true <-> exists s, a = Some s /\ b = Some s.
Proof.
  destruct a as [x|], b as [y|]; simpl; split;
    try discriminate; try (intros (s & H1 & H2); discriminate).
  - intros H. apply String.eqb_eq in H. subst. now exists y.
  - intros (s & H1 & H2). injection H1 as ->. injection H2 as ->.
    apply String.eqb_refl.
Qed.

Lemma eq_int_true (a b : option Z) :
  Sql.eq_int a b = true <-> exists z, a = Some z /\ b = Some z.
Proof.
  destruct a as [x|], b as [y|]; simpl; split;
    try discriminate; try (intros (s & H1 & H2); discriminate).
  - intros H. apply Z.eqb_eq in H. subst. now exists y.
  - intros (s & H1 & H2). injection H1 as ->. injection H2 as ->.
    apply Z.eqb_refl.
Qed.

Lemma oe_group_In (oe : option string) (conn : database) (p : Product.t) :
  In p (oe_group oe conn) <->
  In p (products conn) /\ Sql.eq_text (Product.oe_nummer p) oe = true.
Proof. unfold oe_group. apply filter_In. Qed.

Lemma best_of_group_some (oe : option string) (conn : database) :
  oe_group oe conn <> [] -> exists h, best_of_group oe conn = Some h.
Proof.
  intros H. unfold best_of_group.
  destruct (Sql.order_by dedup_order (oe_group oe conn)) as [|h rest] eqn:E.
  - apply (proj1 (order_by_nil_iff _ _)) in E. contradiction.
  - exists h. reflexivity.
Qed.

Lemma representative_iff (conn : database) (p : Product.t) :
  unique_ids conn -> In p (products conn) ->
  (In (Product.id p) (representative_ids conn) <->
   best_id p conn = Some (Product.id p)).
Proof.
  intros Hs Hp. unfold representative_ids. rewrite in_map_iff. split.
  - intros (p1 & Hid & Hin). apply filter_In in Hin. destruct Hin as [Hin He].
    assert (p1 = p) by (now apply (unique_ids_inj conn)). subst p1.
    apply eq_int_true in He. destruct He as (z & Hz & ->). congruence.
  - intros Hb. exists p. split; [reflexivity |]. apply filter_In.
    split; [assumption |]. rewrite Hb. simpl. apply Z.eqb_refl.
Qed.

Lemma sample_db_stored : stored_by_id sample_db.
Proof. unfold stored_by_id. simpl. repeat constructor; simpl; lia. Qed.

(** ** Prices *)

(** Two fractions for one number print alike. *)
Lemma round_half_even_Qeq (a b : Q) :
  (a == b)%Q -> Py.round_half_even a = Py.round_half_even b.
Proof.
  destruct a as [n1 d1], b as [n2 d2]. unfold Qeq, Py.round_half_even.
  cbn [Qnum Qden]. intros H.
  pose proof (Z.div_mod n1 (Zpos d1) ltac:(lia)) as E1.
  pose proof (Z.div_mod n2 (Zpos d2) ltac:(lia)) as E2.
  pose proof (Z.mod_pos_bound n1 (Zpos d1) ltac:(lia)) as B1.
  pose proof (Z.mod_pos_bound n2 (Zpos d2) ltac:(lia)) as B2.
  set (f1 := n1 / Zpos d1) in *. set (f2 := n2 / Zpos d2) in *.
  set (r1 := n1 mod Zpos d1) in *. set (r2 := n2 mod Zpos d2) in *.
  set (D1 := Zpos d1) in *. set (D2 := Zpos d2) in *.
  assert (HD1 : 0 < D1) by (unfold D1; lia).
  assert (HD2 : 0 < D2) by (unfold D2; lia).
  assert (K : D1 * D2 * (f1 - f2) = r2 * D1 - r1 * D2) by nia.
  assert (K1 : r2 * D1 < D1 * D2) by nia.
  assert (K2 : r1 * D2 < D1 * D2) by nia.
  assert (K3 : 0 <= r2 * D1) by nia.
  assert (K4 : 0 <= r1 * D2) by nia.
  assert (K5 : 0 < D1 * D2) by nia.
  assert (Hf : f1 = f2).
  { destruct (Z.lt_trichotomy f1 f2) as [L|[L|L]]; [exfalso | exact L | exfalso].
    - assert (D1 * D2 * (f1 - f2) <= - (D1 * D2)) by nia. lia.
    - assert (D1 * D2 <= D1 * D2 * (f1 - f2)) by nia. lia. }
  assert (Hr : r1 * D2 = r2 * D1) by nia.
  rewrite <- Hf.
  assert (H1 : (2 * r1 <? D1) = (2 * r2 <? D2)).
  { destruct (Z.ltb_spec (2 * r1) D1), (Z.ltb_spec (2 * r2) D2); try reflexivity; nia. }
  assert (H2 : (D1 <? 2 * r1) = (D2 <? 2 * r2)).
  { destruct (Z.ltb_spec D1 (2 * r1)), (Z.ltb_spec D2 (2 * r2)); try reflexivity; nia. }
  rewrite H1, H2. reflexivity.
Qed.

Lemma fmt2_Qeq (p q : Q) : (p == q)%Q -> Py.fmt2 p = Py.fmt2 q.
Proof.
  intros H. unfold Py.fmt2.
  rewrite (round_half_even_Qeq (Qabs p * 100) (Qabs q * 100)) by (now rewrite H).
  destruct (Qlt_le_dec p 0) as [L1|L1], (Qlt_le_dec q 0) as [L2|L2]; try reflexivity; exfalso.
  - rewrite H in L1. apply (Qlt_not_le _ _ L1 L2).
  - rewrite <- H in L2. apply (Qlt_not_le _ _ L2 L1).
Qed.

Lemma variant_prices_cons (v : Variant.t) (vs : list Variant.t) :
  variant_prices (v :: vs) =
  match Variant.skandix_price v with
  | Some q => if priced v then q :: variant_prices vs else variant_prices vs
  | None => variant_prices vs
  end.
Proof.
  unfold priced. cbn [variant_prices].
  destruct (Variant.skandix_price v); reflexivity.
Qed.

Lemma priced_has_price (v : Variant.t) :
  priced v = true -> exists q, Variant.skandix_price v = Some q.
Proof.
  unfold priced. destruct (Variant.skandix_price v) as [q|]; [now exists q |].
  discriminate.
Qed.

Lemma variant_prices_In (vs : list Variant.t) (q : Q) :
  In q (variant_prices vs) <->
  exists v, In v vs /\ Variant.skandix_price v = Some q /\ priced v = true.
Proof.
  induction vs as [|v vs IH].
  - split; [intros [] | intros (v & [] & _)].
  - rewrite variant_prices_cons.
    destruct (Variant.skandix_price v) as [p|] eqn:E;
      [destruct (priced v) eqn:T |]; cbn [In]; rewrite IH; split.
    + intros [<- | (w & Hw & Hp)]; [exists v | exists w]; auto.
    + intros (w & [<- | Hw] & Hp & Ht).
      * left. congruence.
      * right. now exists w.
    + intros (w & Hw & Hp). exists w. auto.
    + intros (w & [<- | Hw] & Hp & Ht); [congruence | now exists w].
    + intros (w & Hw & Hp). exists w. auto.
    + intros (w & [<- | Hw] & Hp & Ht); [congruence | now exists w].
Qed.

Lemma variant_prices_length (vs : list Variant.t) :
  List.length (variant_prices vs) = List.length (filter priced vs).
Proof.
  induction vs as [|v vs IH]; [reflexivity |].
  rewrite variant_prices_cons. cbn [filter].
  destruct (priced v) eqn:T.
  - destruct (priced_has_price v T) as [q ->]. cbn [List.length].
    now rewrite IH.
  - destruct (Variant.skandix_price v); assumption.
Qed.

Lemma variant_prices_single (vs : list Variant.t) (v : Variant.t) (p : Q) :
  filter priced vs = [v] -> Variant.skandix_price v = Some p ->
  variant_prices vs = [p].
Proof.
  induction vs as [|w vs IH]; [discriminate |].
  rewrite variant_prices_cons. cbn [filter]. intros H Hp.
  destruct (priced w) eqn:T.
  - injection H as -> H. rewrite Hp. f_equal. apply length_zero_iff_nil.
    now rewrite variant_prices_length, H.
  - destruct (Variant.skandix_price w); now apply IH.
Qed.

Lemma min_from_spec (l : list Q) (m0 : Q) :
  (Py.min_from m0 l = m0 \/ In (Py.min_from m0 l) l) /\
  (Py.min_from m0 l <= m0)%Q /\
  forall q, In q l -> (Py.min_from m0 l <= q)%Q.
Proof.
  revert m0. induction l as [|x l IH]; intros m0; simpl.
  - repeat split; [now left | apply Qle_refl | intros q []].
  - destruct (Qlt_le_dec x m0) as [L|L].
    + destruct (IH x) as (H1 & H2 & H3). repeat split.
      * right. destruct H1 as [-> | H1]; [now left | now right].
      * eapply Qle_trans; [exact H2 | now apply Qlt_le_weak].
      * intros q [<- | Hq]; [assumption | now apply H3].
    + destruct (IH m0) as (H1 & H2 & H3). repeat split.
      * destruct H1 as [-> | H1]; [now left | right; now right].
      * assumption.
      * intros q [<- | Hq]; [| now apply H3].
        eapply Qle_trans; [exact H2 | exact L].
Qed.

Lemma priced_iff (v : Variant.t) :
  priced v = true <->
  exists q, Variant.skandix_price v = Some q /\ ~ (q == 0)%Q.
Proof.
  unfold priced. destruct (Variant.skandix_price v) as [p|].
  - rewrite negb_true_iff. split.
    + intros H. exists p. split; [reflexivity |]. intros E.
      apply Qeq_bool_iff in E. congruence.
    + intros (q & Hq & Hne). injection Hq as <-.
      destruct (Qeq_bool p 0) eqn:E; [| reflexivity].
      apply Qeq_bool_iff in E. contradiction.
  - split; [discriminate | intros (q & Hq & _); discriminate].
Qed.

Lemma not_priced_iff (v : Variant.t) :
  priced v = false <->
  forall q, Variant.skandix_price v = Some q -> (q == 0)%Q.
Proof.
  unfold priced. destruct (Variant.skandix_price v) as [p|].
  - rewrite negb_false_iff. split.
    + intros H q Hq. injection Hq as <-. now apply Qeq_bool_iff.
    + intros H. apply Qeq_bool_iff. now apply H.
  - split; [intros _ q Hq; discriminate | reflexivity].
Qed.

(** The summary when more than one variant is priced. *)
Lemma price_summary_many (vs : list Variant.t) :
  (1 < List.length (filter priced vs))%nat ->
  exists m,
    (exists v, In v vs /\ priced v = true
               /\ Variant.skandix_price v = Some m) /\
    (forall v q, In v vs -> priced v = true ->
       Variant.skandix_price v = Some q -> (m <= q)%Q) /\
    price_summary vs =
    "Från " ++ Py.fmt2 m ++ " SEK (finns "
    ++ Py.str_of_Z (Z.of_nat (List.length vs)) ++ " varianter)".
Proof.
  intros H. rewrite <- variant_prices_length in H. unfold price_summary.
  pose proof (variant_prices_In vs) as Hin.
  destruct (variant_prices vs) as [|p0 rest] eqn:E; [simpl in H; lia |].
  apply Nat.ltb_lt in H. rewrite H.
  exists (Py.min_from p0 rest).
  destruct (min_from_spec rest p0) as (H1 & H2 & H3).
  split; [| split; [| reflexivity]].
  - assert (Hm : In (Py.min_from p0 rest) (p0 :: rest))
      by (destruct H1 as [-> | H1]; [now left | now right]).
    apply Hin in Hm. destruct Hm as (v & Hv & Hp & Ht). now exists v.
  - intros v q Hv Ht Hq.
    assert (Hq' : In q (p0 :: rest)) by (apply Hin; now exists v).
    destruct Hq' as [<- | Hq']; [assumption | now apply H3].
Qed.

(** C3 (amended).  A variant counts as priced when its price is present
    and not zero.  The fifth line of a chunk's text is "PRIS: " followed
    by the price summary of the variants of the row's part number.  The
    summary is "Pris saknas" when no variant is priced; the price with two
    decimals and " SEK" when exactly one is (199.50 gives "199.50 SEK");
    and "Från <smallest price> SEK (finns N varianter)" when more than one
    is (prices 100 and 150 give "Från 100.00 SEK (finns 2 varianter)"). *)
Theorem price_summary_cases :
  (forall v,
     priced v = true <->
     exists q, Variant.skandix_price v = Some q /\ ~ (q == 0)%Q)
  /\ (forall (V : Type) (conn : database) (row : Product.t)
             (fitments alt_names : string),
        exists before after,
          List.length before = 4%nat /\
          ch_content (@create_chunk V row fitments alt_names conn) =
          String.concat Py.nl
            (List.app before
               (("PRIS: "
                 ++ price_summary
                      (get_product_variants (Product.oe_nummer row) conn))
                :: after)))
  /\ (forall vs, filter priced vs = [] -> price_summary vs = "Pris saknas")
  /\ (forall vs v p,
        filter priced vs = [v] -> Variant.skandix_price v = Some p ->
        price_summary vs = Py.fmt2 p ++ " SEK")
  /\ (forall vs v p,
        filter priced vs = [v] -> Variant.skandix_price v = Some p ->
        (p == 199.5)%Q -> price_summary vs = "199.50 SEK")
  /\ (forall vs,
        (1 < List.length (filter priced vs))%nat ->
        exists m,
          (exists v, In v vs /\ priced v = true
                     /\ Variant.skandix_price v = Some m) /\
          (forall v q, In v vs -> priced v = true ->
             Variant.skandix_price v = Some q -> (m <= q)%Q) /\
          price_summary vs =
          "Från " ++ Py.fmt2 m ++ " SEK (finns "
          ++ Py.str_of_Z (Z.of_nat (List.length vs)) ++ " varianter)")
  /\ (forall v1 v2 p1 p2,
        Variant.skandix_price v1 = Some p1 -> (p1 == 100)%Q ->
        Variant.skandix_price v2 = Some p2 -> (p2 == 150)%Q ->
        price_summary [v1; v2] = "Från 100.00 SEK (finns 2 varianter)").
Proof.
  assert (Hone : forall vs v p,
            filter priced vs = [v] -> Variant.skandix_price v = Some p ->
            price_summary vs = Py.fmt2 p ++ " SEK").
  { intros vs v p H Hp. unfold price_summary.
    now rewrite (variant_prices_single vs v p H Hp). }
  split; [exact priced_iff |].
  split; [| split; [| split; [| split; [| split]]]].
  - intros V conn row fitments alt_names.
    eexists [_; _; _; _], _. split; [reflexivity |].
    unfold create_chunk. cbn [ch_content List.app]. reflexivity.
  - intros vs H. unfold price_summary.
    assert (E : variant_prices vs = []).
    { apply length_zero_iff_nil. now rewrite variant_prices_length, H. }
    now rewrite E.
  - exact Hone.
  - intros vs v p H Hp Hq. rewrite (Hone vs v p H Hp).
    now rewrite (fmt2_Qeq p 199.5 Hq).
  - apply price_summary_many.
  - intros v1 v2 p1 p2 H1 Hp1 H2 Hp2.
    assert (T1 : priced v1 = true).
    { apply priced_iff. exists p1. split; [exact H1 |].
      rewrite Hp1. discriminate. }
    assert (T2 : priced v2 = true).
    { apply priced_iff. exists p2. split; [exact H2 |].
      rewrite Hp2. discriminate. }
    unfold price_summary. rewrite !variant_prices_cons, H1, H2, T1, T2.
    cbn [variant_prices List.length Nat.ltb Nat.leb Py.min_from].
    assert (Hm : ((if Qlt_le_dec p2 p1 then p2 else p1) == 100)%Q).
    { destruct (Qlt_le_dec p2 p1) as [L|L]; [| exact Hp1].
      exfalso. rewrite Hp1, Hp2 in L. discriminate. }
    now rewrite (fmt2_Qeq _ 100 Hm).
Qed.

Lemma price_summary_cases_witness :
  price_summary (get_product_variants (Some "4400") zero_price_db)
  = "Pris saknas"
  /\ price_summary
       [variant_of (sample_product 14 "4400" (Some 1) None None (Some 0%Q));
        variant_of (sample_product 4 "4400" (Some 1) None None
                      (Some (399 # 2)))]
     = "199.50 SEK"
  /\ (exists m,
        (exists v,
           In v (get_product_variants (Some "4321") zero_price_db)
           /\ priced v = true /\ Variant.skandix_price v = Some m)
        /\ (forall v q,
              In v (get_product_variants (Some "4321") zero_price_db) ->
              priced v = true -> Variant.skandix_price v = Some q ->
              (m <= q)%Q)
        /\ price_summary (get_product_variants (Some "4321") zero_price_db) =
           "Från " ++ Py.fmt2 m ++ " SEK (finns "
           ++ Py.str_of_Z
                (Z.of_nat
                   (List.length
                      (get_product_variants (Some "4321") zero_price_db)))
           ++ " varianter)")
  /\ price_summary
       [variant_of (sample_product 1 "1234" (Some 1) None None (Some 100%Q));
        variant_of (sample_product 2 "1234" (Some 1) None None (Some 150%Q))]
     = "Från 100.00 SEK (finns 2 varianter)".
Proof.
  destruct price_summary_cases as (_ & _ & H0 & _ & H1 & Hn & H2).
  split; [| split; [| split]].
  - apply H0. reflexivity.
  - eapply H1; reflexivity.
  - apply Hn. vm_compute. lia.
  - eapply H2; reflexivity.
Defined.

(** C3 as stated fails for a stored price of 0.  The only variant of
    part number 4400 has a known price, 0, and the summary is
    "Pris saknas", not "0.00 SEK". *)
Lemma zero_price_reads_as_missing :
  map Variant.skandix_price
    (get_product_variants (Some "4400") zero_price_db) = [Some 0%Q]
  /\ filter has_price (get_product_variants (Some "4400") zero_price_db)
     = get_product_variants (Some "4400") zero_price_db
  /\ price_summary (get_product_variants (Some "4400") zero_price_db)
     = "Pris saknas"
  /\ price_summary (get_product_variants (Some "4400") zero_price_db)
     <> Py.fmt2 0 ++ " SEK".
Proof.
  split; [reflexivity |]. split; [reflexivity |]. split; [reflexivity |].
  vm_compute. discriminate.
Qed.

(** ** Variants of a part number *)

Lemma variant_rows_In (oe : option string) (conn : database) (p : Product.t) :
  In p (variant_rows oe conn) <->
  In p (products conn) /\ is_variant_of oe p = true.
Proof. unfold variant_rows. rewrite order_by_In. apply filter_In. Qed.

Lemma get_product_variants_length (oe : option string) (conn : database) :
  List.length (get_product_variants oe conn) =
  List.length (filter (is_variant_of oe) (products conn)).
Proof.
  unfold get_product_variants, variant_rows.
  now rewrite length_map, order_by_length.
Qed.

Lemma eligible_false (r : Product.t) :
  Product.has_fitments r <> Some 1 ->
  Product.translation_status r <> Some "verified" ->
  eligible r = false.
Proof.
  intros Hf Hv. unfold eligible. apply orb_false_iff. split.
  - destruct (Sql.eq_int (Product.has_fitments r) (Some 1)) eqn:E;
      [| reflexivity].
    apply eq_int_true in E. destruct E as (z & Hz & Hone).
    injection Hone as <-. contradiction.
  - destruct (Sql.eq_text (Product.translation_status r) (Some "verified"))
      eqn:E; [| reflexivity].
    apply eq_text_true in E. destruct E as (z & Hz & Hone).
    injection Hone as <-. contradiction.
Qed.

Lemma best_of_group_In (oe : option string) (conn : database)
  (h : Product.t) :
  best_of_group oe conn = Some h -> In h (oe_group oe conn).
Proof.
  unfold best_of_group.
  destruct (Sql.order_by dedup_order (oe_group oe conn)) as [|h' rest] eqn:E;
    [discriminate |].
  simpl. intros H. injection H as <-.
  apply (order_by_In dedup_order). rewrite E. now left.
Qed.

(** A canonical row is one of the variants of its own part number. *)
Lemma canonical_row_is_variant (conn : database) (row : Product.t) :
  unique_ids conn -> In row (canonical_rows conn) ->
  In row (variant_rows (Product.oe_nummer row) conn).
Proof.
  intros Hu Hc. apply canonical_rows_In in Hc. destruct Hc as (Hp & Hr & He).
  apply (representative_iff conn row Hu Hp) in Hr. unfold best_id in Hr.
  destruct (best_of_group (Product.oe_nummer row) conn) as [h|] eqn:Hb;
    [| discriminate].
  injection Hr as Hid. apply best_of_group_In in Hb.
  apply oe_group_In in Hb. destruct Hb as [Hh Hoe].
  assert (h = row) by (now apply (unique_ids_inj conn)). subst h.
  apply variant_rows_In. split; [assumption |].
  unfold is_variant_of. now rewrite Hoe, He.
Qed.

Lemma min_none_iff (l : list Q) : Py.min l = None <-> l = [].
Proof. destruct l; simpl; split; congruence. Qed.

Lemma max_none_iff (l : list Q) : Py.max l = None <-> l = [].
Proof. destruct l; simpl; split; congruence. Qed.

Lemma no_price_iff (vs : list Variant.t) :
  variant_prices vs = [] <-> forall v, In v vs -> priced v = false.
Proof.
  split.
  - intros E v Hv. destruct (priced v) eqn:T; [| reflexivity].
    destruct (priced_has_price v T) as [q Hq].
    assert (Hin : In q (variant_prices vs))
      by (apply variant_prices_In; now exists v).
    rewrite E in Hin. destruct Hin.
  - intros H. apply no_element_nil. intros q Hq.
    apply variant_prices_In in Hq. destruct Hq as (v & Hv & _ & T).
    rewrite (H v Hv) in T. discriminate.
Qed.

(** C10 (amended).  A variant counts as priced when its price is present
    and not zero.  When more than one variant is priced, the number printed
    in "Från <min> SEK (finns N varianter)" is the number of rows of the
    part number that pass the variant filter, priced or not; it is at
    least the number of priced variants and can be larger: two priced
    variants out of three print "finns 3 varianter", whether the third has
    no price or the price 0. *)
Theorem summary_counts_all_variants :
  (forall v,
     priced v = true <->
     exists q, Variant.skandix_price v = Some q /\ ~ (q == 0)%Q)
  /\
  (forall (conn : database) (oe : option string),
     let vs := get_product_variants oe conn in
     let n := List.length (filter (is_variant_of oe) (products conn)) in
     (1 < List.length (filter priced vs))%nat ->
     (List.length (filter priced vs) <= n)%nat /\
     exists m,
       price_summary vs =
       "Från " ++ Py.fmt2 m ++ " SEK (finns " ++ Py.str_of_Z (Z.of_nat n)
       ++ " varianter)")
  /\
  (let vs := get_product_variants (Some "1234") sample_db in
   List.length (filter priced vs) = 2%nat /\
   List.length vs = 3%nat /\
   price_summary vs = "Från 100.00 SEK (finns 3 varianter)")
  /\
  (let vs := get_product_variants (Some "4321") zero_price_db in
   List.length (filter has_price vs) = 3%nat /\
   List.length (filter priced vs) = 2%nat /\
   List.length vs = 3%nat /\
   price_summary vs = "Från 100.00 SEK (finns 3 varianter)").
Proof.
  split; [exact priced_iff |]. split; [| split].
  - intros conn oe vs n H. subst n.
    rewrite <- get_product_variants_length. fold vs. split.
    + apply filter_length_le.
    + destruct (price_summary_many vs H) as (m & _ & _ & Hm). now exists m.
  - split; [reflexivity |]. split; reflexivity.
  - split; [reflexivity |]. split; [reflexivity |]. split; reflexivity.
Qed.

Lemma summary_counts_all_variants_witness :
  (List.length
     (filter priced (get_product_variants (Some "4321") zero_price_db))
   <= List.length
        (filter (is_variant_of (Some "4321")) (products zero_price_db)))%nat
  /\ exists m,
       price_summary (get_product_variants (Some "4321") zero_price_db) =
       "Från " ++ Py.fmt2 m ++ " SEK (finns "
       ++ Py.str_of_Z
            (Z.of_nat
               (List.length
                  (filter (is_variant_of (Some "4321"))
                     (products zero_price_db))))
       ++ " varianter)".
Proof.
  apply (proj1 (proj2 summary_counts_all_variants) zero_price_db
           (Some "4321")).
  vm_compute. lia.
Defined.

(** C10 as stated fails for a stored price of 0.  Both variants of part
    number 4500 have a known price, 0 and 100, and the summary is
    "100.00 SEK": no count is printed at all. *)
Lemma known_prices_without_count :
  (1 < List.length
         (filter has_price
            (get_product_variants (Some "4500") zero_price_db)))%nat
  /\ price_summary (get_product_variants (Some "4500") zero_price_db)
     = "100.00 SEK"
  /\ forall m n,
       price_summary (get_product_variants (Some "4500") zero_price_db)
       <> "Från " ++ Py.fmt2 m ++ " SEK (finns " ++ Py.str_of_Z n
          ++ " varianter)".
Proof.
  assert (E : price_summary (get_product_variants (Some "4500") zero_price_db)
              = "100.00 SEK") by reflexivity.
  split; [vm_compute; lia |]. split; [exact E |].
  intros m n H. rewrite E in H. cbn [String.append] in H. discriminate.
Qed.

(** C6 (amended).  For the chunk of a canonical row, [variant_ids]
    contains the row's own id, and [price_from] and [price_to] are null
    exactly when every variant of the part number has no price or the
    price 0. *)
Theorem chunk_metadata_invariant (V : Type) (conn : database)
  (row : Product.t) (fitments alt_names : string) :
  unique_ids conn ->
  In row (canonical_rows conn) ->
  let md := ch_metadata (@create_chunk V row fitments alt_names conn) in
  let vs := get_product_variants (Product.oe_nummer row) conn in
  In (Product.id row) (md_variant_ids md) /\
  (md_price_from md = None <->
   forall v q, In v vs -> Variant.skandix_price v = Some q -> (q == 0)%Q) /\
  (md_price_to md = None <->
   forall v q, In v vs -> Variant.skandix_price v = Some q -> (q == 0)%Q).
Proof.
  intros Hu Hc md vs. subst md vs. unfold create_chunk.
  cbn [ch_metadata md_variant_ids md_price_from md_price_to].
  assert (Hzero : forall vs : list Variant.t,
            (forall v, In v vs -> priced v = false) <->
            (forall v q, In v vs -> Variant.skandix_price v = Some q ->
               (q == 0)%Q)).
  { intros vs. split.
    - intros H v q Hv. now apply not_priced_iff, H.
    - intros H v Hv. apply not_priced_iff. intros q. now apply H. }
  split; [| split].
  - unfold get_product_variants. rewrite map_map.
    change (fun x => Variant.id (variant_of x)) with Product.id.
    apply in_map. now apply canonical_row_is_variant.
  - rewrite min_none_iff, <- Hzero. apply no_price_iff.
  - rewrite max_none_iff, <- Hzero. apply no_price_iff.
Qed.

Lemma zero_price_db_unique_ids : unique_ids zero_price_db.
Proof. unfold unique_ids. simpl. repeat constructor; simpl; lia. Qed.

Lemma chunk_metadata_invariant_witness :
  In (Product.id zero_priced_row)
    (md_variant_ids
       (ch_metadata (@create_chunk nat zero_priced_row "" "" zero_price_db)))
  /\ md_price_from
       (ch_metadata (@create_chunk nat zero_priced_row "" "" zero_price_db))
     = None
  /\ md_price_to
       (ch_metadata (@create_chunk nat zero_priced_row "" "" zero_price_db))
     = None.
Proof.
  assert (Hc : In zero_priced_row (canonical_rows zero_price_db))
    by (vm_compute; tauto).
  assert (Hz : forall v q,
             In v (get_product_variants (Product.oe_nummer zero_priced_row)
                     zero_price_db) ->
             Variant.skandix_price v = Some q -> (q == 0)%Q).
  { intros v q Hv Hq. vm_compute in Hv. destruct Hv as [<- | []].
    injection Hq as <-. reflexivity. }
  destruct (chunk_metadata_invariant nat zero_price_db zero_priced_row "" ""
              zero_price_db_unique_ids Hc) as (H1 & H2 & H3).
  split; [exact H1 |]. split; [apply H2, Hz | apply H3, Hz].
Defined.

(** C6 as stated fails for a stored price of 0.  The chunk of the only
    row of part number 4400 has both price fields null although its one
    variant has a known price, 0. *)
Lemma zero_price_leaves_range_null :
  In zero_priced_row (canonical_rows zero_price_db)
  /\ (exists v,
        In v (get_product_variants (Some "4400") zero_price_db)
        /\ Variant.skandix_price v = Some 0%Q)
  /\ md_price_from
       (ch_metadata (@chunk_of_row nat zero_price_db zero_priced_row)) = None
  /\ md_price_to
       (ch_metadata (@chunk_of_row nat zero_price_db zero_priced_row)) = None.
Proof.
  split; [vm_compute; tauto |].
  split; [eexists; split; [left; reflexivity | reflexivity] |].
  split; reflexivity.
Qed.

(** C5.  A product row without fitments and without a verified
    translation is never a canonical row and never one of the variant
    rows of a part number; with ids identifying rows, no chunk has its id
    as [product_id] or among its [variant_ids]. *)
Theorem ineligible_rows_excluded (conn : database) (r : Product.t) :
  Product.has_fitments r <> Some 1 ->
  Product.translation_status r <> Some "verified" ->
  ~ In r (canonical_rows conn) /\
  (forall oe, ~ In r (variant_rows oe conn)) /\
  (unique_ids conn -> In r (products conn) ->
   forall (V : Type) (row : Product.t) (fitments alt_names : string),
     In row (canonical_rows conn) ->
     let md := ch_metadata (@create_chunk V row fitments alt_names conn) in
     md_product_id md <> Product.id r /\
     ~ In (Product.id r) (md_variant_ids md)).
Proof.
  intros Hf Hv. pose proof (eligible_false r Hf Hv) as He.
  split; [| split].
  - intros H. apply canonical_rows_In in H. destruct H as (_ & _ & H).
    congruence.
  - intros oe H. apply variant_rows_In in H. destruct H as [_ H].
    unfold is_variant_of in H. rewrite He, andb_false_r in H. discriminate.
  - intros Hu Hr V row fitments alt_names Hc md. subst md.
    unfold create_chunk. cbn [ch_metadata md_product_id md_variant_ids].
    split.
    + intros E. apply canonical_rows_In in Hc. destruct Hc as (Hp & _ & Hel).
      assert (row = r) by (now apply (unique_ids_inj conn)). congruence.
    + unfold get_product_variants. rewrite map_map.
      change (fun x => Variant.id (variant_of x)) with Product.id.
      rewrite in_map_iff. intros (p & Hid & Hin).
      apply variant_rows_In in Hin. destruct Hin as [Hp Hvar].
      assert (p = r) by (now apply (unique_ids_inj conn)). subst p.
      unfold is_variant_of in Hvar. rewrite He, andb_false_r in Hvar.
      discriminate.
Qed.

Lemma ineligible_rows_excluded_witness :
  let r :=
    sample_product 4 "5678" (Some 0) (Some "pending") (Some "Oljefilter")
      (Some (1995 # 10)) in
  let row :=
    sample_product 2 "1234" (Some 1) (Some "verified") (Some "Bromsskiva")
      (Some 100%Q) in
  let md := ch_metadata (@create_chunk nat row "" "" sample_db) in
  ~ In r (canonical_rows sample_db) /\
  (forall oe, ~ In r (variant_rows oe sample_db)) /\
  md_product_id md <> Product.id r /\
  ~ In (Product.id r) (md_variant_ids md).
Proof.
  intros r row md.
  destruct (ineligible_rows_excluded sample_db r) as (H1 & H2 & H3).
  - simpl. discriminate.
  - simpl. discriminate.
  - split; [exact H1 | split; [exact H2 |]].
    apply (H3 (stored_by_id_unique sample_db sample_db_stored)).
    + vm_compute. tauto.
    + vm_compute. now left.
Defined.

(** ** Aggregates of the fitment query *)

Lemma remove_filter (x : string) (l : list string) :
  remove string_dec x l = filter (fun y => negb (y =? x)%string) l.
Proof.
  induction l as [|y l IH]; simpl; [reflexivity |].
  destruct (string_dec x y) as [<- | Hne].
  - now rewrite String.eqb_refl.
  - destruct (String.eqb_spec y x); [congruence | simpl; now rewrite IH].
Qed.

Lemma filter_filter {A} (f g : A -> bool) (l : list A) :
  filter f (filter g l) = filter (fun x => g x && f x) l.
Proof.
  induction l as [|x l IH]; simpl; [reflexivity |].
  destruct (g x); simpl; [destruct (f x) |]; now rewrite IH.
Qed.

Lemma filter_all_true {A} (f : A -> bool) (l : list A) :
  (forall x, f x = true) -> filter f l = l.
Proof.
  intros H. induction l as [|x l IH]; simpl; [reflexivity |].
  now rewrite H, IH.
Qed.

Lemma filter_all_true_in {A} (f : A -> bool) (l : list A) :
  (forall x, In x l -> f x = true) -> filter f l = l.
Proof.
  induction l as [|x l IH]; intros H; simpl; [reflexivity |].
  rewrite (H x (or_introl eq_refl)), IH; [reflexivity |].
  intros y Hy. apply H. now right.
Qed.

(** DISTINCT keeps the first occurrence of every value, in row order. *)
Lemma distinct_from_spec (seen l : list string) :
  Sql.distinct_from seen l =
  filter (fun x => negb (Py.mem x seen)) (first_occurrences l).
Proof.
  revert seen. induction l as [|x l IH]; intros seen; simpl; [reflexivity |].
  rewrite remove_filter, filter_filter.
  destruct (Py.mem x seen) eqn:M; simpl.
  - rewrite IH. apply filter_ext_in. intros y _.
    destruct (String.eqb_spec y x) as [-> | _]; simpl; [| reflexivity].
    now rewrite M.
  - f_equal. rewrite IH. apply filter_ext. intros y. simpl.
    rewrite String.eqb_sym. now destruct (x =? y)%string.
Qed.

Lemma distinct_spec (l : list string) : Sql.distinct l = first_occurrences l.
Proof.
  unfold Sql.distinct. rewrite distinct_from_spec.
  apply filter_all_true. reflexivity.
Qed.

Lemma first_occurrences_In (l : list string) (x : string) :
  In x (first_occurrences l) <-> In x l.
Proof.
  induction l as [|y l IH]; simpl; [tauto |].
  rewrite remove_filter, filter_In, IH.
  destruct (String.eqb_spec x y) as [-> | Hne]; simpl.
  - intuition.
  - intuition congruence.
Qed.

Lemma first_occurrences_NoDup (l : list string) : NoDup (first_occurrences l).
Proof.
  induction l as [|y l IH]; simpl; constructor.
  - apply remove_In.
  - rewrite remove_filter. now apply NoDup_filter.
Qed.

Lemma fold_min_spec (l : list Z) (x : Z) :
  least (fold_left Z.min l x) (x :: l).
Proof.
  revert x. induction l as [|y l IH]; intros x; simpl.
  - split; [now left |]. intros z [<- | []]. lia.
  - destruct (IH (Z.min x y)) as [Hin Hle]. split.
    + destruct Hin as [E | Hin]; [| right; now right].
      rewrite <- E. destruct (Z.min_spec x y) as [[_ ->] | [_ ->]];
        [now left | right; now left].
    + intros z [<- | [<- | Hz]].
      * specialize (Hle (Z.min x y) (or_introl eq_refl)). lia.
      * specialize (Hle (Z.min x y) (or_introl eq_refl)). lia.
      * apply Hle. now right.
Qed.

Lemma fold_max_spec (l : list Z) (x : Z) :
  greatest (fold_left Z.max l x) (x :: l).
Proof.
  revert x. induction l as [|y l IH]; intros x; simpl.
  - split; [now left |]. intros z [<- | []]. lia.
  - destruct (IH (Z.max x y)) as [Hin Hle]. split.
    + destruct Hin as [E | Hin]; [| right; now right].
      rewrite <- E. destruct (Z.max_spec x y) as [[_ ->] | [_ ->]];
        [right; now left | now left].
    + intros z [<- | [<- | Hz]].
      * specialize (Hle (Z.max x y) (or_introl eq_refl)). lia.
      * specialize (Hle (Z.max x y) (or_introl eq_refl)). lia.
      * apply Hle. now right.
Qed.

Lemma least_unique (l : list Z) (m m' : Z) : least m l -> least m' l -> m = m'.
Proof. intros [H1 H2] [H3 H4]. specialize (H2 _ H3). specialize (H4 _ H1). lia. Qed.

Lemma greatest_unique (l : list Z) (m m' : Z) :
  greatest m l -> greatest m' l -> m = m'.
Proof. intros [H1 H2] [H3 H4]. specialize (H2 _ H3). specialize (H4 _ H1). lia. Qed.

(** MIN is the least non-NULL value, NULL when there is none. *)
Lemma min_int_spec (col : list (option Z)) :
  (Sql.min_int col = None <-> Sql.non_null col = []) /\
  (forall m, Sql.min_int col = Some m <-> least m (Sql.non_null col)).
Proof.
  unfold Sql.min_int. destruct (Sql.non_null col) as [|x xs].
  - split; [tauto |]. intros m. split; [discriminate | intros [[] _]].
  - split; [split; discriminate |]. intros m. split.
    + intros H. injection H as <-. apply fold_min_spec.
    + intros H. f_equal. eapply least_unique; [apply fold_min_spec | exact H].
Qed.

(** MAX is the greatest non-NULL value, NULL when there is none. *)
Lemma max_int_spec (col : list (option Z)) :
  (Sql.max_int col = None <-> Sql.non_null col = []) /\
  (forall m, Sql.max_int col = Some m <-> greatest m (Sql.non_null col)).
Proof.
  unfold Sql.max_int. destruct (Sql.non_null col) as [|x xs].
  - split; [tauto |]. intros m. split; [discriminate | intros [[] _]].
  - split; [split; discriminate |]. intros m. split.
    + intros H. injection H as <-. apply fold_max_spec.
    + intros H. f_equal.
      eapply greatest_unique; [apply fold_max_spec | exact H].
Qed.

Lemma group_keys_from_In (sn : bool) (seen : list string)
  (l : list (option string)) (k : option string) :
  In k (Sql.group_keys_from sn seen l) <->
  In k l /\ match k with None => sn = false | Some x => ~ In x seen end.
Proof.
  revert sn seen. induction l as [|[y|] l IH]; intros sn seen; simpl.
  - tauto.
  - destruct (Py.mem y seen) eqn:M.
    + rewrite IH. apply mem_In in M. destruct k as [x|]; intuition congruence.
    + apply mem_not_In in M. simpl. rewrite IH. destruct k as [x|]; simpl.
      * destruct (string_dec y x) as [-> | Hne].
        -- split; [intros _ | intros _; now left]. split; [now left | exact M].
        -- split.
           ++ intros [E | [H1 H2]]; [congruence |]. split; [now right |].
              intros H3. apply H2. now right.
           ++ intros [[E | H1] H2]; [congruence |]. right.
              split; [assumption |]. intros [E | H3]; [congruence | tauto].
      * intuition congruence.
  - destruct sn.
    + rewrite IH. destruct k as [x|]; intuition congruence.
    + simpl. rewrite IH. destruct k as [x|]; intuition congruence.
Qed.

Lemma group_keys_from_NoDup (sn : bool) (seen : list string)
  (l : list (option string)) :
  NoDup (Sql.group_keys_from sn seen l).
Proof.
  revert sn seen. induction l as [|[y|] l IH]; intros sn seen; simpl.
  - constructor.
  - destruct (Py.mem y seen); [apply IH |]. constructor; [| apply IH].
    rewrite group_keys_from_In. intros [_ H]. apply H. now left.
  - destruct sn; [apply IH |]. constructor; [| apply IH].
    rewrite group_keys_from_In. intros [_ H]. discriminate.
Qed.

Lemma group_keys_In (l : list (option string)) (k : option string) :
  In k (Sql.group_keys l) <-> In k l.
Proof.
  unfold Sql.group_keys. rewrite group_keys_from_In.
  destruct k; simpl; tauto.
Qed.

(** The models of the result rows: the distinct models of the product's
    fitment rows, sorted. *)
Lemma fitments_query_models (product_id : Z) (conn : database) :
  map fg_model (fitments_query product_id conn) =
  Sql.order_by Sql.cmp_text
    (Sql.group_keys (map Fitment.model (fitment_rows product_id conn))).
Proof.
  unfold fitments_query. rewrite map_map. simpl. apply map_id.
Qed.

Lemma fitments_query_In (product_id : Z) (conn : database)
  (g : fitment_group) :
  In g (fitments_query product_id conn) ->
  g = aggregate_group (fitment_rows product_id conn) (fg_model g).
Proof.
  unfold fitments_query. rewrite in_map_iff. intros (k & <- & _). reflexivity.
Qed.

Lemma fitments_query_nil (product_id : Z) (conn : database) :
  fitments_query product_id conn = [] <-> fitment_rows product_id conn = [].
Proof.
  unfold fitments_query. split.
  - intros H. apply map_eq_nil in H.
    apply (proj1 (order_by_nil_iff _ _)) in H.
    destruct (fitment_rows product_id conn) as [|f rows]; [reflexivity |].
    exfalso. assert (Hin : In (Fitment.model f)
                             (Sql.group_keys (map Fitment.model (f :: rows))))
      by (apply group_keys_In; now left).
    rewrite H in Hin. destruct Hin.
  - intros ->. reflexivity.
Qed.

(** ** Rendering of a fitment line *)

Lemma fitment_line_with_years (g : fitment_group) (ys ye : Z) :
  fg_year_start g = Some ys -> fg_year_end g = Some ye ->
  ys <> 0 -> ye <> 0 ->
  fitment_line g =
  "Volvo " ++ Py.str_opt (fg_model g) ++ " " ++ Py.str_of_Z ys ++ "-"
  ++ Py.str_of_Z ye ++ engine_segment (engine_list (fg_engines g)).
Proof.
  intros Hs He Hys Hye. unfold fitment_line, engine_segment.
  rewrite Hs, He. unfold Py.truthy_Z.
  apply Z.eqb_neq in Hys. apply Z.eqb_neq in Hye. rewrite Hys, Hye.
  cbn [negb andb].
  destruct (engine_list (fg_engines g)).
  - now rewrite string_app_empty_r.
  - now rewrite !string_app_assoc.
Qed.

Lemma fitment_line_without_years (g : fitment_group) :
  Py.truthy_Z (fg_year_start g) && Py.truthy_Z (fg_year_end g) = false ->
  fitment_line g =
  "Volvo " ++ Py.str_opt (fg_model g)
  ++ engine_segment (engine_list (fg_engines g)).
Proof.
  intros H. unfold fitment_line, engine_segment. rewrite H.
  destruct (engine_list (fg_engines g)).
  - now rewrite string_app_empty_r.
  - now rewrite !string_app_assoc.
Qed.

(** The two shapes of the line of a model group, by the years of its
    rows. *)
Lemma year_range_cases (product_id : Z) (conn : database)
  (g : fitment_group) :
  In g (fitments_query product_id conn) ->
  let grp := model_group (fg_model g) product_id conn in
  let froms := Sql.non_null (map Fitment.year_from grp) in
  let tos := Sql.non_null (map Fitment.year_to grp) in
  let engines := engine_segment (engine_list (fg_engines g)) in
  (forall ys ye,
     least ys froms -> greatest ye tos -> ys <> 0 -> ye <> 0 ->
     fitment_line g =
     "Volvo " ++ Py.str_opt (fg_model g) ++ " " ++ Py.str_of_Z ys ++ "-"
     ++ Py.str_of_Z ye ++ engines)
  /\
  (froms = [] \/ least 0 froms \/ tos = [] \/ greatest 0 tos ->
   fitment_line g = "Volvo " ++ Py.str_opt (fg_model g) ++ engines).
Proof.
  intros Hg grp froms tos engines. subst engines.
  apply fitments_query_In in Hg.
  assert (Hs : fg_year_start g = Sql.min_int (map Fitment.year_from grp))
    by (rewrite Hg at 1; reflexivity).
  assert (He : fg_year_end g = Sql.max_int (map Fitment.year_to grp))
    by (rewrite Hg at 1; reflexivity).
  destruct (min_int_spec (map Fitment.year_from grp)) as [Hmin0 Hmin].
  destruct (max_int_spec (map Fitment.year_to grp)) as [Hmax0 Hmax].
  split.
  - intros ys ye Hys Hye Hn1 Hn2. apply fitment_line_with_years; trivial.
    + rewrite Hs. now apply Hmin.
    + rewrite He. now apply Hmax.
  - intros H. apply fitment_line_without_years. rewrite Hs, He.
    destruct H as [H | [H | [H | H]]].
    + apply Hmin0 in H. now rewrite H.
    + apply Hmin in H. now rewrite H.
    + apply Hmax0 in H. rewrite H. apply andb_false_r.
    + apply Hmax in H. rewrite H. apply andb_false_r.
Qed.

(** C9.  In the line of a model group the year range is written when the
    least year-from and the greatest year-to of the group's rows both
    exist and are not zero; when either does not exist or is zero the
    line has no year range, only the model and the engine list. *)
Theorem year_range_rule (product_id : Z) (conn : database)
  (g : fitment_group) :
  In g (fitments_query product_id conn) ->
  let grp := model_group (fg_model g) product_id conn in
  let froms := Sql.non_null (map Fitment.year_from grp) in
  let tos := Sql.non_null (map Fitment.year_to grp) in
  let engines := engine_segment (engine_list (fg_engines g)) in
  (forall ys ye,
     least ys froms -> greatest ye tos -> ys <> 0 -> ye <> 0 ->
     fitment_line g =
     "Volvo " ++ Py.str_opt (fg_model g) ++ " " ++ Py.str_of_Z ys ++ "-"
     ++ Py.str_of_Z ye ++ engines)
  /\
  (froms = [] \/ least 0 froms \/ tos = [] \/ greatest 0 tos ->
   fitment_line g = "Volvo " ++ Py.str_opt (fg_model g) ++ engines).
Proof. exact (year_range_cases product_id conn g). Qed.

(** ** Engine codes through GROUP_CONCAT and split *)

Lemma contains_comma_cons (c : ascii) (s : string) :
  Py.contains "," (String c s) = false ->
  Ascii.eqb c "," = false /\ Py.contains "," s = false.
Proof.
  cbn [Py.contains prefix]. intros H. apply orb_false_iff in H.
  destruct H as [H1 H2]. split; [| assumption].
  destruct (ascii_dec "," c) as [<- | Hne].
  - destruct s; discriminate.
  - apply Ascii.eqb_neq. congruence.
Qed.

Lemma split_plain (s : string) :
  Py.contains "," s = false -> Py.split "," s = [s].
Proof.
  induction s as [|c s IH]; intros H; [reflexivity |].
  apply contains_comma_cons in H. destruct H as [Hc Hs].
  cbn [Py.split]. rewrite Hc, (IH Hs). reflexivity.
Qed.

Lemma split_plain_app (s rest : string) :
  Py.contains "," s = false ->
  Py.split "," (s ++ "," ++ rest) = s :: Py.split "," rest.
Proof.
  induction s as [|c s IH]; intros H; [reflexivity |].
  apply contains_comma_cons in H. destruct H as [Hc Hs].
  cbn [Py.split String.append]. rewrite Hc.
  change (s ++ String "," rest) with (s ++ "," ++ rest).
  rewrite (IH Hs). reflexivity.
Qed.

Lemma split_concat (l : list string) :
  l <> [] -> (forall s, In s l -> Py.contains "," s = false) ->
  Py.split "," (String.concat "," l) = l.
Proof.
  induction l as [|x l IH]; intros Hne H; [congruence |].
  destruct l as [|y l].
  - apply split_plain, H. now left.
  - change (String.concat "," (x :: y :: l))
      with (x ++ "," ++ String.concat "," (y :: l)).
    rewrite split_plain_app by (apply H; now left).
    f_equal. apply IH; [discriminate |]. intros s Hs. apply H. now right.
Qed.

Lemma plain_code_spec (s : string) :
  plain_code s = true ->
  (s =? "")%string = false /\ (s =? "NULL")%string = false /\
  Py.contains "," s = false /\ Py.strip s = s.
Proof.
  unfold plain_code. rewrite !andb_true_iff, !negb_true_iff.
  intros [[[H1 H2] H3] H4]. apply String.eqb_eq in H4. auto.
Qed.

Lemma engine_list_plain (col : list (option string)) :
  forallb plain_code (Sql.non_null col) = true ->
  engine_list (Sql.group_concat_distinct col) =
  first_occurrences (Sql.non_null col).
Proof.
  intros H. rewrite forallb_forall in H.
  unfold Sql.group_concat_distinct. rewrite distinct_spec.
  assert (Hp : forall s, In s (first_occurrences (Sql.non_null col)) ->
                         plain_code s = true)
    by (intros s Hs; apply H, first_occurrences_In, Hs).
  destruct (first_occurrences (Sql.non_null col)) as [|x d] eqn:E;
    [reflexivity |].
  unfold engine_list.
  assert (Ht : Py.truthy_str (Some (String.concat "," (x :: d))) = true).
  { destruct (plain_code_spec x (Hp x (or_introl eq_refl))) as (Hx & _).
    destruct x as [|c x]; [discriminate |]. destruct d; reflexivity. }
  rewrite Ht, split_concat;
    [| discriminate | intros s Hs; now apply plain_code_spec, Hp].
  assert (Hf : filter (fun e => negb (e =? "")%string
                                && negb (e =? "NULL")%string) (x :: d)
               = x :: d).
  { apply filter_all_true_in. intros s Hs.
    destruct (plain_code_spec s (Hp s Hs)) as (H1 & H2 & _).
    now rewrite H1, H2. }
  rewrite Hf. rewrite <- (map_id (x :: d)) at 2.
  apply map_ext_in. intros s Hs. now apply plain_code_spec, Hp.
Qed.

Lemma engine_list_none (col : list (option string)) :
  Sql.non_null col = [] -> engine_list (Sql.group_concat_distinct col) = [].
Proof. intros H. unfold Sql.group_concat_distinct. now rewrite H. Qed.

Lemma year_range_rule_witness :
  let g := aggregate_group (fitment_rows 7 fitments_db) (Some "740") in
  let h := aggregate_group (fitment_rows 7 fitments_db) (Some "240") in
  fitment_line g =
  "Volvo " ++ Py.str_opt (fg_model g) ++ " " ++ Py.str_of_Z 1985 ++ "-"
  ++ Py.str_of_Z 1992 ++ engine_segment (engine_list (fg_engines g))
  /\
  fitment_line h =
  "Volvo " ++ Py.str_opt (fg_model h)
  ++ engine_segment (engine_list (fg_engines h)).
Proof.
  intros g h. split.
  - apply (proj1 (year_range_rule 7 fitments_db g
                    ltac:(vm_compute; right; now left))).
    + split; [vm_compute; now left |].
      intros y Hy. vm_compute in Hy. destruct Hy as [<- | [<- | []]]; lia.
    + split; [vm_compute; right; now left |].
      intros y Hy. vm_compute in Hy. destruct Hy as [<- | [<- | []]]; lia.
    + lia.
    + lia.
  - apply (proj2 (year_range_rule 7 fitments_db h
                    ltac:(vm_compute; now left))).
    right. right. left. reflexivity.
Defined.

Lemma split_nonempty (s : string) : Py.split "," s <> [].
Proof.
  destruct s as [|c s]; cbn [Py.split]; [discriminate |].
  destruct (Ascii.eqb c ","); [discriminate |].
  destruct (Py.split "," s); discriminate.
Qed.

Lemma split_app_sep (s rest : string) :
  Py.split "," (s ++ "," ++ rest)
  = (Py.split "," s ++ Py.split "," rest)%list.
Proof.
  induction s as [|c s IH]; [reflexivity |].
  cbn [Py.split String.append].
  change (s ++ String "," rest) with (s ++ "," ++ rest). rewrite IH.
  destruct (Ascii.eqb c ","); [reflexivity |].
  pose proof (split_nonempty s) as Hne.
  destruct (Py.split "," s) as [|p ps]; [contradiction | reflexivity].
Qed.

(** Joining with commas and splitting at commas cuts every code at its
    own commas. *)
Lemma split_concat_pieces (l : list string) :
  l <> [] ->
  Py.split "," (String.concat "," l) = flat_map (Py.split ",") l.
Proof.
  induction l as [|x l IH]; intros Hne; [congruence |].
  destruct l as [|y l].
  - simpl. now rewrite app_nil_r.
  - change (String.concat "," (x :: y :: l))
      with (x ++ "," ++ String.concat "," (y :: l)).
    rewrite split_app_sep, IH by discriminate. reflexivity.
Qed.

Lemma concat_empty (l : list string) :
  l <> [] -> String.concat "," l = "" -> l = [""].
Proof.
  destruct l as [|x [|y l]]; intros Hne H; [congruence | |].
  - simpl in H. now subst.
  - change (String.concat "," (x :: y :: l))
      with (x ++ "," ++ String.concat "," (y :: l)) in H.
    destruct x; discriminate.
Qed.

(** The engine list of a group, whatever its codes look like. *)
Lemma engine_list_rendered (col : list (option string)) :
  engine_list (Sql.group_concat_distinct col) =
  rendered_codes (first_occurrences (Sql.non_null col)).
Proof.
  unfold Sql.group_concat_distinct. rewrite distinct_spec.
  destruct (first_occurrences (Sql.non_null col)) as [|x d] eqn:E;
    [reflexivity |].
  unfold engine_list, rendered_codes.
  destruct (Py.truthy_str (Some (String.concat "," (x :: d)))) eqn:T.
  - now rewrite split_concat_pieces by discriminate.
  - cbn [Py.truthy_str] in T. apply negb_false_iff, String.eqb_eq in T.
    apply concat_empty in T; [| discriminate]. now rewrite T.
Qed.

Lemma non_null_perm {A} (l l' : list (option A)) :
  Permutation l l' -> Permutation (Sql.non_null l) (Sql.non_null l').
Proof.
  induction 1 as [| x l l' H IH | x y l | l l' l'' H1 IH1 H2 IH2]; simpl.
  - constructor.
  - destruct x; [now constructor | assumption].
  - destruct x, y; try apply Permutation_refl. apply perm_swap.
  - eapply Permutation_trans; eassumption.
Qed.

Lemma least_perm (m : Z) (l l' : list Z) :
  Permutation l l' -> least m l <-> least m l'.
Proof.
  intros H. unfold least. split; intros [Hin Hle]; split.
  - now apply (Permutation_in _ H).
  - intros y Hy. apply Hle, (Permutation_in _ (Permutation_sym H)), Hy.
  - now apply (Permutation_in _ (Permutation_sym H)).
  - intros y Hy. apply Hle, (Permutation_in _ H), Hy.
Qed.

Lemma greatest_perm (m : Z) (l l' : list Z) :
  Permutation l l' -> greatest m l <-> greatest m l'.
Proof.
  intros H. unfold greatest. split; intros [Hin Hle]; split.
  - now apply (Permutation_in _ H).
  - intros y Hy. apply Hle, (Permutation_in _ (Permutation_sym H)), Hy.
  - now apply (Permutation_in _ (Permutation_sym H)).
  - intros y Hy. apply Hle, (Permutation_in _ H), Hy.
Qed.

Lemma fitment_rows_visited (product_id : Z) (conn : database)
  (scan : list Fitment.t) :
  Permutation scan (expanded_fitments conn) ->
  Permutation (fitment_rows product_id (with_fitments scan conn))
    (fitment_rows product_id conn).
Proof. intros H. unfold fitment_rows. now apply filter_perm. Qed.

Lemma model_group_visited (k : option string) (product_id : Z)
  (conn : database) (scan : list Fitment.t) :
  Permutation scan (expanded_fitments conn) ->
  Permutation (model_group k product_id (with_fitments scan conn))
    (model_group k product_id conn).
Proof.
  intros H. unfold model_group. now apply filter_perm, fitment_rows_visited.
Qed.

(** The text for the rows in the order of the list. *)
Lemma fitments_in_list_order (product_id : Z) (conn : database) :
  let rows := fitment_rows product_id conn in
  let groups := fitments_query product_id conn in
  (rows = [] -> format_fitments product_id conn = "")
  /\ (rows <> [] ->
      format_fitments product_id conn =
      String.concat Py.nl
        ("Passar till:" :: map (fun g => "- " ++ fitment_line g) groups))
  /\ NoDup (map fg_model groups)
  /\ (forall k, In k (map fg_model groups) <-> In k (map Fitment.model rows))
  /\ (forall g, In g groups ->
        let grp := model_group (fg_model g) product_id conn in
        let froms := Sql.non_null (map Fitment.year_from grp) in
        let tos := Sql.non_null (map Fitment.year_to grp) in
        let codes := Sql.non_null (map Fitment.engine grp) in
        (forall m, fg_year_start g = Some m <-> least m froms)
        /\ (forall m, fg_year_end g = Some m <-> greatest m tos)
        /\ (forall ys ye,
              fg_year_start g = Some ys -> fg_year_end g = Some ye ->
              ys <> 0 -> ye <> 0 ->
              fitment_line g =
              "Volvo " ++ Py.str_opt (fg_model g) ++ " " ++ Py.str_of_Z ys
              ++ "-" ++ Py.str_of_Z ye
              ++ engine_segment (engine_list (fg_engines g)))
        /\ (froms = [] \/ least 0 froms \/ tos = [] \/ greatest 0 tos ->
            fitment_line g =
            "Volvo " ++ Py.str_opt (fg_model g)
            ++ engine_segment (engine_list (fg_engines g)))
        /\ fg_engines g =
           match first_occurrences codes with
           | [] => None
           | d => Some (String.concat "," d)
           end
        /\ engine_list (fg_engines g) = rendered_codes (first_occurrences codes)
        /\ (codes = [] -> engine_segment (engine_list (fg_engines g)) = "")
        /\ (forallb plain_code codes = true ->
            engine_list (fg_engines g) = first_occurrences codes))
  /\ (forall r1 r2,
        rows = [r1; r2] ->
        Fitment.model r1 = Some "740" -> Fitment.model r2 = Some "740" ->
        Fitment.year_from r1 = Some 1985 -> Fitment.year_to r1 = Some 1987 ->
        Fitment.engine r1 = Some "B200" ->
        Fitment.year_from r2 = Some 1988 -> Fitment.year_to r2 = Some 1992 ->
        Fitment.engine r2 = Some "B230" ->
        map fitment_line groups = ["Volvo 740 1985-1992 (B200, B230)"]).
Proof.
  intros rows groups. subst rows groups.
  split; [| split; [| split; [| split; [| split]]]].
  - intros H. unfold format_fitments.
    now rewrite (proj2 (fitments_query_nil product_id conn) H).
  - intros H. unfold format_fitments.
    destruct (fitments_query product_id conn) eqn:E; [| reflexivity].
    apply fitments_query_nil in E. contradiction.
  - rewrite fitments_query_models.
    eapply Permutation_NoDup; [apply Permutation_sym, order_by_perm |].
    apply group_keys_from_NoDup.
  - intros k. rewrite fitments_query_models, order_by_In.
    apply group_keys_In.
  - intros g Hg grp froms tos codes.
    pose proof (year_range_cases product_id conn g Hg) as [Hyes Hno].
    cbv zeta in Hyes, Hno. fold grp in Hyes, Hno.
    fold froms in Hyes, Hno. fold tos in Hyes, Hno.
    apply fitments_query_In in Hg.
    assert (Hs : fg_year_start g = Sql.min_int (map Fitment.year_from grp))
      by (rewrite Hg at 1; reflexivity).
    assert (He : fg_year_end g = Sql.max_int (map Fitment.year_to grp))
      by (rewrite Hg at 1; reflexivity).
    assert (Hen : fg_engines g
                  = Sql.group_concat_distinct (map Fitment.engine grp))
      by (rewrite Hg at 1; reflexivity).
    split; [| split; [| split; [| split; [| split; [| split; [| split]]]]]].
    + intros m. rewrite Hs. apply min_int_spec.
    + intros m. rewrite He. apply max_int_spec.
    + intros ys ye H1 H2. now apply fitment_line_with_years.
    + exact Hno.
    + rewrite Hen. unfold Sql.group_concat_distinct.
      now rewrite distinct_spec.
    + rewrite Hen. apply engine_list_rendered.
    + intros H. rewrite Hen, engine_list_none; [reflexivity | exact H].
    + intros H. rewrite Hen. now apply engine_list_plain.
  - intros r1 r2 Hrows Hm1 Hm2 Hf1 Ht1 He1 Hf2 Ht2 He2.
    unfold fitments_query. rewrite Hrows.
    destruct r1 as [p1 m1 v1 f1 t1 e1], r2 as [p2 m2 v2 f2 t2 e2].
    simpl in Hm1, Hm2, Hf1, Ht1, He1, Hf2, Ht2, He2. subst. reflexivity.
Qed.

(** C2 (amended).  Whatever the order in which the query visits the
    rows of [expanded_fitments]: a product without fitment rows gives the
    empty string.  Otherwise the text is the heading followed by one line
    per distinct model of the product's rows.  For each model group the
    year-from is the least and the year-to the greatest of the group's
    values; the line shows them unless one is missing (or zero).  The
    stored engine codes of the group are de-duplicated in the order in
    which the rows are visited and joined; the rendering cuts the joined
    text at every comma, drops empty pieces and the text NULL, strips the
    rest, and shows at most the first five, and no engine list when the
    group has no engine.  Plain codes are shown as they are, once each.
    Two rows for model 740 with (1985, 1987, B200) and (1988, 1992, B230),
    visited in this order, give the line
    "Volvo 740 1985-1992 (B200, B230)". *)
Theorem fitments_grouped_by_model (product_id : Z) (conn : database)
  (scan : list Fitment.t) :
  Permutation scan (expanded_fitments conn) ->
  let rows := fitment_rows product_id conn in
  let visited := with_fitments scan conn in
  let text := format_fitments product_id visited in
  let groups := fitments_query product_id visited in
  (rows = [] -> text = "")
  /\ (rows <> [] ->
      text =
      String.concat Py.nl
        ("Passar till:" :: map (fun g => "- " ++ fitment_line g) groups))
  /\ NoDup (map fg_model groups)
  /\ (forall k, In k (map fg_model groups) <-> In k (map Fitment.model rows))
  /\ (forall g, In g groups ->
        let grp := model_group (fg_model g) product_id conn in
        let froms := Sql.non_null (map Fitment.year_from grp) in
        let tos := Sql.non_null (map Fitment.year_to grp) in
        let codes :=
          Sql.non_null
            (map Fitment.engine
               (model_group (fg_model g) product_id visited)) in
        Permutation codes (Sql.non_null (map Fitment.engine grp))
        /\ (forall m, fg_year_start g = Some m <-> least m froms)
        /\ (forall m, fg_year_end g = Some m <-> greatest m tos)
        /\ (forall ys ye,
              fg_year_start g = Some ys -> fg_year_end g = Some ye ->
              ys <> 0 -> ye <> 0 ->
              fitment_line g =
              "Volvo " ++ Py.str_opt (fg_model g) ++ " " ++ Py.str_of_Z ys
              ++ "-" ++ Py.str_of_Z ye
              ++ engine_segment (engine_list (fg_engines g)))
        /\ (froms = [] \/ least 0 froms \/ tos = [] \/ greatest 0 tos ->
            fitment_line g =
            "Volvo " ++ Py.str_opt (fg_model g)
            ++ engine_segment (engine_list (fg_engines g)))
        /\ engine_list (fg_engines g)
           = rendered_codes (first_occurrences codes)
        /\ (codes = [] -> engine_segment (engine_list (fg_engines g)) = "")
        /\ (forallb plain_code codes = true ->
            engine_list (fg_engines g) = first_occurrences codes))
  /\ (forall r1 r2,
        fitment_rows product_id visited = [r1; r2] ->
        Fitment.model r1 = Some "740" -> Fitment.model r2 = Some "740" ->
        Fitment.year_from r1 = Some 1985 -> Fitment.year_to r1 = Some 1987 ->
        Fitment.engine r1 = Some "B200" ->
        Fitment.year_from r2 = Some 1988 -> Fitment.year_to r2 = Some 1992 ->
        Fitment.engine r2 = Some "B230" ->
        map fitment_line groups = ["Volvo 740 1985-1992 (B200, B230)"]).
Proof.
  intros Hscan rows visited text groups. subst rows text groups.
  pose proof (fitment_rows_visited product_id conn scan Hscan) as Hrows.
  fold visited in Hrows.
  destruct (fitments_in_list_order product_id visited)
    as (Hnil & Htext & Hnd & Hmodels & Hgroup & Hexample).
  split; [| split; [| split; [| split; [| split]]]].
  - intros E. apply Hnil. now apply (perm_nil_iff _ _ Hrows).
  - intros Hne. apply Htext. intros E. apply Hne.
    now apply (perm_nil_iff _ _ Hrows).
  - exact Hnd.
  - intros k. rewrite Hmodels. split; apply Permutation_in.
    + now apply Permutation_map.
    + now apply Permutation_map, Permutation_sym.
  - intros g Hg grp froms tos codes.
    destruct (Hgroup g Hg) as (Hs & He & Hyes & Hno & _ & Hr & Hnone & Hplain).
    pose proof (model_group_visited (fg_model g) product_id conn scan Hscan)
      as Hgrp.
    fold visited in Hgrp. fold grp in Hgrp.
    assert (Hfroms :
              Permutation
                (Sql.non_null
                   (map Fitment.year_from
                      (model_group (fg_model g) product_id visited)))
                froms)
      by (apply non_null_perm, Permutation_map, Hgrp).
    assert (Htos :
              Permutation
                (Sql.non_null
                   (map Fitment.year_to
                      (model_group (fg_model g) product_id visited)))
                tos)
      by (apply non_null_perm, Permutation_map, Hgrp).
    split; [apply non_null_perm, Permutation_map, Hgrp |].
    split; [intros m; rewrite Hs; now apply least_perm |].
    split; [intros m; rewrite He; now apply greatest_perm |].
    split; [exact Hyes |].
    split; [| split; [exact Hr | split; [exact Hnone | exact Hplain]]].
    intros H. apply Hno.
    destruct H as [H | [H | [H | H]]].
    + left. now apply (perm_nil_iff _ _ Hfroms).
    + right. left. now apply (least_perm 0 _ _ Hfroms).
    + right. right. left. now apply (perm_nil_iff _ _ Htos).
    + right. right. right. now apply (greatest_perm 0 _ _ Htos).
  - exact Hexample.
Qed.

(** C2 as stated fails.  Codes that differ only in white space, or a
    code with a comma in it, are distinct for the query and show the same
    code more than once; and the codes come in the order in which the
    rows are visited, which is not the order of the table when the rows
    are visited through an index on the engine. *)
Lemma engine_codes_not_distinct :
  format_fitments 7 spaced_codes_db =
  "Passar till:" ++ Py.nl
  ++ "- Volvo S40 2000-2004 (B4204, B4204, B4184, B4204)"
  /\ ~ NoDup
        (engine_list
           (fg_engines
              (aggregate_group (fitment_rows 7 spaced_codes_db)
                 (Some "S40"))))
  /\ Permutation by_engine (expanded_fitments two_engines_db)
  /\ first_occurrences
       (Sql.non_null
          (map Fitment.engine (model_group (Some "240") 7 two_engines_db)))
     = ["B21"; "B19"]
  /\ format_fitments 7 (with_fitments by_engine two_engines_db) =
     "Passar till:" ++ Py.nl ++ "- Volvo 240 (B19, B21)".
Proof.
  split; [reflexivity |]. split; [| split; [| split; reflexivity]].
  - vm_compute. intros H. inversion H as [|x l Hx Hl]; subst.
    apply Hx. now left.
  - unfold by_engine, two_engines_db. cbn [expanded_fitments].
    apply perm_swap.
Qed.

(** ** The import loop *)

Section Run.

Context {V : Type} (svc : services V).

Lemma bind_inl {A B} (m : M V A) (k : A -> M V B) tr a tr' :
  m tr = (inl a, tr') -> bind m k tr = k a tr'.
Proof. intros H. unfold bind. now rewrite H. Qed.

Lemma bind_inr {A B} (m : M V A) (k : A -> M V B) tr e tr' :
  m tr = (inr e, tr') -> bind m k tr = (inr e, tr').
Proof. intros H. unfold bind. now rewrite H. Qed.

Lemma bind_returns {A B} (m : M V A) (k : A -> M V B) tr b tr' :
  bind m k tr = (inl b, tr') ->
  exists a tr1, m tr = (inl a, tr1) /\ k a tr1 = (inl b, tr').
Proof.
  unfold bind. destruct (m tr) as [[a | e] tr1]; intros H.
  - now exists a, tr1.
  - discriminate.
Qed.

(** Vectors are attached by position: chunk [i] gets [data[i]]. *)
Lemma attach_embeddings_returns (chunks : list (chunk V)) (data : list V) tr :
  (List.length chunks <= List.length data)%nat ->
  attach_embeddings chunks data tr =
  (inl (map (fun cv => with_embedding (fst cv) (snd cv)) (combine chunks data)),
   tr).
Proof.
  revert data. induction chunks as [|c cs IH]; intros data H; [reflexivity |].
  destruct data as [|v vs]; [simpl in H; lia |].
  cbn [attach_embeddings]. erewrite bind_inl; [| apply IH; simpl in H; lia].
  reflexivity.
Qed.

Lemma attach_embeddings_raises (chunks : list (chunk V)) (data : list V) tr :
  (List.length data < List.length chunks)%nat ->
  attach_embeddings chunks data tr = (inr IndexError, tr).
Proof.
  revert data. induction chunks as [|c cs IH]; intros data H;
    [simpl in H; lia |].
  destruct data as [|v vs]; [reflexivity |].
  cbn [attach_embeddings]. erewrite bind_inr; [reflexivity |].
  apply IH. simpl in H. lia.
Qed.

Lemma attach_embeddings_inv (chunks cs' : list (chunk V)) (data : list V)
  tr tr' :
  attach_embeddings chunks data tr = (inl cs', tr') ->
  tr' = tr /\ (List.length chunks <= List.length data)%nat /\
  cs' = map (fun cv => with_embedding (fst cv) (snd cv)) (combine chunks data).
Proof.
  intros H. destruct (Nat.le_gt_cases (List.length chunks) (List.length data))
    as [L | L].
  - rewrite attach_embeddings_returns in H by assumption.
    injection H as <- <-. auto.
  - rewrite attach_embeddings_raises in H by assumption. discriminate.
Qed.

Lemma combine_contents (chunks : list (chunk V)) (data : list V) :
  (List.length chunks <= List.length data)%nat ->
  map ch_content
    (map (fun cv => with_embedding (fst cv) (snd cv)) (combine chunks data))
  = map ch_content chunks.
Proof.
  revert data. induction chunks as [|c cs IH]; intros data H; [reflexivity |].
  destruct data as [|v vs]; [simpl in H; lia |].
  simpl. f_equal. apply IH. simpl in H. lia.
Qed.

Lemma combine_map_same {A B} (f : A -> B) (l : list A) :
  combine l (map f l) = map (fun a => (a, f a)) l.
Proof. induction l as [|a l IH]; simpl; [reflexivity | now rewrite IH]. Qed.

(** A returning [generate_embeddings] sent one request with the texts in
    order and changed nothing but the vectors. *)
Lemma generate_embeddings_inv (chunks cs' : list (chunk V)) tr tr' :
  generate_embeddings svc chunks tr = (inl cs', tr') ->
  tr' = (tr ++ [EmbeddingRequest (map ch_content chunks)])%list /\
  exists data,
    embeddings_create svc tr (map ch_content chunks) = Returned data /\
    (List.length chunks <= List.length data)%nat /\
    cs' = map (fun cv => with_embedding (fst cv) (snd cv))
            (combine chunks data).
Proof.
  unfold generate_embeddings. intros H. apply bind_returns in H.
  destruct H as (data & tr1 & Hc & Ha). unfold call_embeddings in Hc.
  destruct (embeddings_create svc tr (map ch_content chunks)) as [d|] eqn:E;
    [| discriminate].
  injection Hc as -> <-. apply attach_embeddings_inv in Ha.
  destruct Ha as (-> & L & ->). split; [reflexivity |]. now exists data.
Qed.

Lemma records_of_embedded (chunks : list (chunk V)) (data : list V) tr :
  (List.length chunks <= List.length data)%nat ->
  records_of
    (map (fun cv => with_embedding (fst cv) (snd cv)) (combine chunks data)) tr
  = (inl (map (fun cv => record_with (fst cv) (snd cv)) (combine chunks data)),
     tr).
Proof.
  revert data. induction chunks as [|c cs IH]; intros data H; [reflexivity |].
  destruct data as [|v vs]; [simpl in H; lia |].
  cbn [combine map records_of]. unfold record_of at 1.
  cbn [with_embedding ch_embedding fst snd]. unfold bind at 1. unfold ret at 1.
  erewrite bind_inl; [| apply IH; simpl in H; lia]. reflexivity.
Qed.

(** [records_of] sends nothing; it returns one record per chunk, built
    from the chunk's own fields, or raises on a chunk without vector. *)
Lemma records_of_inv (chunks : list (chunk V)) tr :
  match records_of chunks tr with
  | (inl records, tr') =>
      tr' = tr /\
      Forall2 (fun c r => ch_embedding c = Some (kb_embedding r)
                          /\ r = record_with c (kb_embedding r))
        chunks records
  | (inr e, tr') => tr' = tr /\ e = KeyError
  end.
Proof.
  induction chunks as [|c cs IH]; [split; [reflexivity | constructor] |].
  cbn [records_of]. unfold bind at 1. unfold record_of.
  destruct (ch_embedding c) as [v|] eqn:E; [| split; reflexivity].
  unfold ret at 1. unfold bind.
  destruct (records_of cs tr) as [[rs | e] tr1].
  - destruct IH as [-> IH]. split; [reflexivity |].
    constructor; [| assumption]. split; [exact E | reflexivity].
  - exact IH.
Qed.

End Run.

(** ** A failed insert ends the run *)

Lemma snoc_decompose {A} (tr tr1 tr2 : list A) (x y : A) :
  (tr ++ [y] = tr1 ++ x :: tr2)%list ->
  (tr2 = [] /\ tr = tr1 /\ y = x) \/
  (exists t, tr2 = (t ++ [y])%list /\ tr = (tr1 ++ x :: t)%list).
Proof.
  destruct tr2 as [|z t] using rev_ind; intros H.
  - left. apply app_inj_tail in H. tauto.
  - right. clear IHt.
    change (tr1 ++ x :: t ++ [z])%list with (tr1 ++ (x :: t) ++ [z])%list in H.
    rewrite app_assoc in H. apply app_inj_tail in H. destruct H as [-> ->].
    now exists t.
Qed.

Section Abort.

Context {V : Type} (svc : services V).

Lemma quiet_nil : quiet svc [].
Proof. intros tr1 records tr2 H. destruct tr1; discriminate. Qed.

Lemma quiet_request (tr : list (event V)) (texts : list string) :
  quiet svc tr -> quiet svc (tr ++ [EmbeddingRequest texts]).
Proof.
  intros Hq tr1 records tr2 H. apply snoc_decompose in H.
  destruct H as [(_ & _ & H) | (t & _ & ->)]; [discriminate |].
  now apply (Hq tr1 records t).
Qed.

Lemma quiet_insert (tr : list (event V)) (records : list (kb_record V)) :
  quiet svc tr -> ~ empty_result svc tr records ->
  quiet svc (tr ++ [BulkInsert records]).
Proof.
  intros Hq Hne tr1 recs tr2 H. apply snoc_decompose in H.
  destruct H as [(_ & <- & H) | (t & _ & ->)].
  - injection H as <-. exact Hne.
  - now apply (Hq tr1 recs t).
Qed.

Lemma stops_ret {A} (a : A) : stops_at_empty_result svc (ret a).
Proof. intros tr Hq. exact Hq. Qed.

Lemma stops_raise {A} (e : exception) :
  stops_at_empty_result svc (@raise V A e).
Proof. intros tr Hq. now left. Qed.

Lemma stops_bind {A B} (m : M V A) (k : A -> M V B) :
  stops_at_empty_result svc m ->
  (forall a, stops_at_empty_result svc (k a)) ->
  stops_at_empty_result svc (bind m k).
Proof.
  intros Hm Hk tr Hq. specialize (Hm tr Hq). unfold bind.
  destruct (m tr) as [[a | e] tr1]; [now apply Hk | exact Hm].
Qed.

Lemma stops_generate_embeddings (chunks : list (chunk V)) :
  stops_at_empty_result svc (generate_embeddings svc chunks).
Proof.
  intros tr Hq. unfold generate_embeddings, bind, call_embeddings.
  pose proof (quiet_request tr (map ch_content chunks) Hq) as Hq'.
  destruct (embeddings_create svc tr (map ch_content chunks)) as [data|];
    [| now left].
  destruct (Nat.le_gt_cases (List.length chunks) (List.length data)) as [L|L].
  - now rewrite attach_embeddings_returns.
  - rewrite attach_embeddings_raises by assumption. now left.
Qed.

Lemma stops_insert_to_supabase (chunks : list (chunk V)) :
  stops_at_empty_result svc (insert_to_supabase svc chunks).
Proof.
  intros tr Hq. unfold insert_to_supabase. unfold bind at 1.
  pose proof (records_of_inv chunks tr) as Hr.
  destruct (records_of chunks tr) as [[records | e] tr1].
  - destruct Hr as [-> _]. unfold bind, call_insert.
    destruct (knowledge_base_insert svc tr records) as [[[|r rs]|]|] eqn:E.
    + right. split; [reflexivity |]. exists tr, records.
      repeat split; [assumption |]. now right.
    + apply quiet_insert; [assumption |]. intros [H | H]; congruence.
    + right. split; [reflexivity |]. exists tr, records.
      repeat split; [assumption |]. now left.
    + left. apply quiet_insert; [assumption |]. intros [H | H]; congruence.
  - destruct Hr as [-> _]. now left.
Qed.

Lemma stops_flush {A} (batch : list (chunk V))
  (k : list (chunk V) -> nat -> M V A) :
  (forall cs n, stops_at_empty_result svc (k cs n)) ->
  stops_at_empty_result svc
    (bind (generate_embeddings svc batch)
       (fun cs => bind (insert_to_supabase svc cs) (fun n => k cs n))).
Proof.
  intros Hk. apply stops_bind; [apply stops_generate_embeddings |].
  intros cs. apply stops_bind; [apply stops_insert_to_supabase |].
  intros n. apply Hk.
Qed.

Lemma stops_loop_body (size : nat) (conn : database) (st : loop_state V)
  (row : Product.t) :
  stops_at_empty_result svc (loop_body svc size conn st row).
Proof.
  unfold loop_body.
  destruct (size <=? _)%nat; [| apply stops_ret].
  apply (stops_flush _ (fun cs n => ret _)). intros cs n. apply stops_ret.
Qed.

Lemma stops_loop (size : nat) (conn : database) (rows : list Product.t)
  (st : loop_state V) :
  stops_at_empty_result svc (loop svc size conn rows st).
Proof.
  revert st. induction rows as [|row rows IH]; intros st; [apply stops_ret |].
  cbn [loop]. apply stops_bind; [apply stops_loop_body | apply IH].
Qed.

Lemma stops_final_flush (st : loop_state V) :
  stops_at_empty_result svc (final_flush svc st).
Proof.
  unfold final_flush. destruct (batch_chunks st); [apply stops_ret |].
  apply (stops_flush _ (fun cs n => ret _)). intros cs n. apply stops_ret.
Qed.

Lemma stops_summarize (st : loop_state V) :
  stops_at_empty_result svc (summarize st).
Proof.
  unfold summarize. destruct (processed st); [apply stops_raise |].
  apply stops_ret.
Qed.

Lemma stops_import_with (size : nat) (conn : database) :
  stops_at_empty_result svc (import_with svc size conn).
Proof.
  unfold import_with. apply stops_bind; [apply stops_loop |].
  intros st. apply stops_bind; [apply stops_final_flush |].
  intros st'. apply stops_summarize.
Qed.

End Abort.

(** C8.  A sink write sends exactly one bulk insert with one record per
    chunk; every record carries the chunk's title, text, vector and
    metadata, the source tag "volvo_sqlite" and the token estimate
    [len(content) // 4].  An empty or absent result raises
    "Failed to insert to Supabase"; in a run this is the end: the failed
    insert is the last thing sent, and the run ends with that error. *)
Theorem sink_write_rule {V : Type} (svc : services V) :
  (forall chunks tr records,
     records_of chunks tr = (inl records, tr) ->
     Forall2
       (fun c r =>
          kb_title r = ch_title c /\ kb_content r = ch_content c /\
          ch_embedding c = Some (kb_embedding r) /\
          kb_metadata r = ch_metadata c /\
          kb_source r = "volvo_sqlite" /\
          kb_tokens r = Z.of_nat (Py.len (ch_content c)) / 4)
       chunks records /\
     exists res,
       insert_to_supabase svc chunks tr =
       (res, (tr ++ [BulkInsert records])%list) /\
       (empty_result svc tr records -> res = inr InsertFailed) /\
       (forall r rs,
          knowledge_base_insert svc tr records = Returned (Some (r :: rs)) ->
          res = inl (S (List.length rs))))
  /\
  (forall size conn res tr1 records tr2,
     import_with svc size conn [] =
     (res, (tr1 ++ BulkInsert records :: tr2)%list) ->
     empty_result svc tr1 records ->
     res = inr InsertFailed /\ tr2 = []).
Proof.
  split.
  - intros chunks tr records Hr. split.
    + pose proof (records_of_inv chunks tr) as H. rewrite Hr in H.
      destruct H as [_ H]. eapply Forall2_impl; [| exact H].
      intros c r [He ->]. cbn. repeat split; try reflexivity; assumption.
    + unfold insert_to_supabase. erewrite bind_inl by exact Hr.
      unfold bind, call_insert.
      destruct (knowledge_base_insert svc tr records) as [[[|r rs]|]|] eqn:E;
        eexists; (split; [reflexivity |]); split.
      * reflexivity.
      * intros r' rs' H. discriminate.
      * intros [H | H]; congruence.
      * intros r' rs' H. injection H as -> ->. reflexivity.
      * reflexivity.
      * intros r' rs' H. discriminate.
      * intros [H | H]; congruence.
      * intros r' rs' H. discriminate.
  - intros size conn res tr1 records tr2 Hrun Hempty.
    pose proof (stops_import_with svc size conn [] (quiet_nil svc)) as H.
    rewrite Hrun in H. destruct res as [s | e].
    + exfalso. exact (H tr1 records tr2 eq_refl Hempty).
    + destruct H as [H | (-> & t1 & recs & Ht & Hq & _)].
      * exfalso. exact (H tr1 records tr2 eq_refl Hempty).
      * symmetry in Ht. apply snoc_decompose in Ht.
        destruct Ht as [(-> & _ & _) | (t & _ & ->)]; [now split |].
        exfalso. exact (Hq tr1 records t eq_refl Hempty).
Qed.

Lemma sink_write_rule_witness :
  let row :=
    sample_product 2 "1234" (Some 1) (Some "verified") (Some "Bromsskiva")
      (Some 100%Q) in
  let c := with_embedding (chunk_of_row sample_db row) 7%nat in
  (exists res,
     insert_to_supabase empty_store_services [c] [] =
     (res, [BulkInsert [record_with c 7%nat]]) /\
     res = inr InsertFailed)
  /\
  (exists res records tr2,
     import_products empty_store_services sample_db [] =
     (res,
      [EmbeddingRequest [ch_content (@chunk_of_row nat sample_db row)]]
      ++ BulkInsert records :: tr2)%list /\
     res = inr InsertFailed /\ tr2 = []).
Proof.
  intros row c. split.
  - destruct (proj1 (sink_write_rule empty_store_services) [c] []
                [record_with c 7%nat] eq_refl)
      as (_ & res & Hres & Hfail & _).
    exists res. split; [exact Hres |]. apply Hfail. now right.
  - assert (Hrun : exists res records tr2,
               import_products empty_store_services sample_db [] =
               (res,
                [EmbeddingRequest
                   [ch_content (@chunk_of_row nat sample_db row)]]
                ++ BulkInsert records :: tr2)%list).
    { vm_compute. do 3 eexists. reflexivity. }
    destruct Hrun as (res & records & tr2 & Hrun).
    exists res, records, tr2. split; [exact Hrun |].
    apply (proj2 (sink_write_rule empty_store_services) BATCH_SIZE sample_db
             res
             [EmbeddingRequest [ch_content (@chunk_of_row nat sample_db row)]]
             records tr2 Hrun).
    now right.
Defined.

(** ** Batches *)

Lemma carry_partial {A} (size : nat) (b cs : list A) :
  (List.length b + List.length cs < size)%nat ->
  carry size b cs = (b ++ cs)%list.
Proof.
  revert b. induction cs as [|c cs IH]; intros b H; simpl.
  - now rewrite app_nil_r.
  - simpl in H. rewrite length_app. simpl.
    destruct (Nat.leb_spec size (List.length b + 1)); [lia |].
    rewrite IH by (rewrite length_app; simpl; lia).
    now rewrite <- app_assoc.
Qed.

Lemma carry_fill {A} (size : nat) (b cs : list A) :
  (List.length b + List.length cs = size)%nat -> cs <> [] ->
  carry size b cs = [].
Proof.
  revert b. induction cs as [|c cs IH]; intros b H Hne; [congruence |].
  simpl. simpl in H. rewrite length_app. simpl.
  destruct cs as [|c' cs].
  - simpl in H. destruct (Nat.leb_spec size (List.length b + 1)); [| lia].
    reflexivity.
  - simpl in H. destruct (Nat.leb_spec size (List.length b + 1)); [lia |].
    apply IH; [rewrite length_app; simpl; lia | discriminate].
Qed.

Lemma carry_app {A} (size : nat) (b c1 c2 : list A) :
  carry size b (c1 ++ c2) = carry size (carry size b c1) c2.
Proof.
  revert b. induction c1 as [|c c1 IH]; intros b; simpl; [reflexivity |].
  destruct (size <=? _)%nat; apply IH.
Qed.

(** After [q] full batches the buffer holds what follows them. *)
Lemma carry_blocks {A} (size q r : nat) (cs : list A) :
  (0 < size)%nat -> List.length cs = (q * size + r)%nat -> (r < size)%nat ->
  carry size [] cs = skipn (q * size) cs.
Proof.
  intros Hs. revert cs. induction q as [|q IH]; intros cs Hl Hr.
  - simpl. apply carry_partial. simpl in *. lia.
  - rewrite <- (firstn_skipn size cs) at 1.
    rewrite carry_app, (carry_fill size [] (firstn size cs)).
    + rewrite IH; [| rewrite length_skipn; simpl in Hl; lia | assumption].
      rewrite skipn_skipn. f_equal. simpl. lia.
    + rewrite length_firstn. simpl in *. lia.
    + intros E. apply (f_equal (@List.length A)) in E.
      rewrite length_firstn in E. simpl in *. lia.
Qed.

Section Returns.

Context {V : Type} (svc : services V) (size : nat) (conn : database).

Lemma loop_app (r1 r2 : list Product.t) (st : loop_state V) tr :
  loop svc size conn (r1 ++ r2) st tr =
  bind (loop svc size conn r1 st) (loop svc size conn r2) tr.
Proof.
  revert st tr. induction r1 as [|row r1 IH]; intros st tr; [reflexivity |].
  cbn [loop List.app]. unfold bind.
  destruct (loop_body svc size conn st row tr) as [[st1 | e] tr1];
    [| reflexivity].
  rewrite IH. reflexivity.
Qed.

(** A returning iteration counts the row and leaves in the buffer what
    [carry] says. *)
Lemma loop_body_returns (st st' : loop_state V) (row : Product.t) tr tr' :
  loop_body svc size conn st row tr = (inl st', tr') ->
  processed st' = S (processed st) /\
  batch_chunks st' = carry size (batch_chunks st) [chunk_of_row conn row].
Proof.
  unfold loop_body. cbn [carry].
  destruct (size <=? _)%nat.
  - intros H. apply bind_returns in H. destruct H as (cs & tr1 & _ & H).
    apply bind_returns in H. destruct H as (n & tr2 & _ & H).
    injection H as <- <-. split; reflexivity.
  - intros H. injection H as <- <-. split; reflexivity.
Qed.

Lemma loop_returns (rows : list Product.t) (st st' : loop_state V) tr tr' :
  loop svc size conn rows st tr = (inl st', tr') ->
  processed st' = (processed st + List.length rows)%nat /\
  batch_chunks st' =
  carry size (batch_chunks st) (map (chunk_of_row conn) rows).
Proof.
  revert st tr. induction rows as [|row rows IH]; intros st tr H.
  - injection H as <- <-. simpl. split; [lia | reflexivity].
  - cbn [loop] in H. apply bind_returns in H.
    destruct H as (st1 & tr1 & Hb & Hl). apply loop_body_returns in Hb.
    destruct Hb as [Hp Hc]. apply IH in Hl. destruct Hl as [Hp' Hc'].
    split; [simpl; lia |].
    rewrite Hc', Hc.
    change (map (@chunk_of_row V conn) (row :: rows))
      with ([@chunk_of_row V conn row] ++ map (chunk_of_row conn) rows)%list.
    now rewrite carry_app.
Qed.

(** A returning final flush keeps the texts of the buffer. *)
Lemma final_flush_returns (st st' : loop_state V) tr tr' :
  final_flush svc st tr = (inl st', tr') ->
  processed st' = processed st /\
  map ch_content (batch_chunks st') = map ch_content (batch_chunks st).
Proof.
  unfold final_flush. destruct (batch_chunks st) as [|c cs] eqn:E.
  - intros H. injection H as <- <-. now rewrite E.
  - intros H. apply bind_returns in H. destruct H as (cs' & tr1 & Hg & H).
    apply bind_returns in H. destruct H as (n & tr2 & _ & H).
    injection H as <- <-. cbn [processed batch_chunks].
    split; [reflexivity |].
    apply generate_embeddings_inv in Hg.
    destruct Hg as (_ & data & _ & L & ->). now apply combine_contents.
Qed.

Lemma estimate_tokens_contents (b1 b2 : list (chunk V)) (n : nat) :
  map ch_content b1 = map ch_content b2 ->
  estimate_tokens b1 n = estimate_tokens b2 n.
Proof.
  intros H. unfold estimate_tokens.
  assert (Hl : List.length b1 = List.length b2)
    by (rewrite <- (length_map ch_content b1), H; apply length_map).
  assert (Ht : map (fun c : chunk V => Z.of_nat (Py.len (ch_content c)) / 4) b1
               = map (fun c => Z.of_nat (Py.len (ch_content c)) / 4) b2).
  { rewrite <- (map_map ch_content (fun s => Z.of_nat (Py.len s) / 4) b1).
    rewrite <- (map_map ch_content (fun s => Z.of_nat (Py.len s) / 4) b2).
    now rewrite H. }
  destruct b1, b2; try discriminate; [reflexivity |].
  now rewrite Ht, Hl.
Qed.

End Returns.

(** C7 (amended).  In a run that reaches the summary, the total-token
    figure is 0 when the number of processed rows is a multiple of the
    batch size; otherwise it is the sum of the estimates [len(content) //
    4] of the chunks of the final partial batch, times the number of
    processed rows, floor-divided by the number of chunks in that final
    batch.  The cost is that figure divided by one million, times 0.02,
    in binary64 arithmetic, and is printed with two decimals. *)
Theorem cost_estimate_from_final_batch {V : Type} (svc : services V)
  (conn : database) (s : summary) (tr : list (event V)) (q r : nat) :
  import_products svc conn [] = (inl s, tr) ->
  List.length (canonical_rows conn) = (q * BATCH_SIZE + r)%nat ->
  (r < BATCH_SIZE)%nat ->
  let chunks := map (@chunk_of_row V conn) (canonical_rows conn) in
  let final_batch := skipn (q * BATCH_SIZE) chunks in
  sm_processed s = List.length (canonical_rows conn) /\
  List.length final_batch = r /\
  sm_total_tokens s =
    (if (r =? 0)%nat then 0
     else fold_right Z.add 0 (map tokens_of final_batch)
          * Z.of_nat (sm_processed s) / Z.of_nat r) /\
  sm_cost s =
    Float.mul (Float.true_div (sm_total_tokens s) 1000000)
      Float.two_hundredths /\
  sm_cost_printed s = "$" ++ Py.fmt2 (Float.to_Q (sm_cost s)).
Proof.
  intros Hrun Hlen Hr chunks final_batch.
  unfold import_products, import_with in Hrun.
  apply bind_returns in Hrun. destruct Hrun as (st1 & tr1 & Hloop & Hrun).
  apply bind_returns in Hrun. destruct Hrun as (st2 & tr2 & Hflush & Hsum).
  apply loop_returns in Hloop. cbn [processed batch_chunks] in Hloop.
  destruct Hloop as [Hp1 Hb1].
  apply final_flush_returns in Hflush. destruct Hflush as [Hp2 Hb2].
  assert (Hcarry : batch_chunks st1 = final_batch).
  { rewrite Hb1. apply (carry_blocks BATCH_SIZE q r).
    - unfold BATCH_SIZE. lia.
    - unfold chunks. now rewrite length_map.
    - assumption. }
  assert (Hfl : List.length final_batch = r).
  { unfold final_batch, chunks. rewrite length_skipn, length_map. lia. }
  unfold summarize in Hsum.
  destruct (processed st2) as [|n] eqn:En; [discriminate |].
  injection Hsum as <- _. cbn [sm_processed sm_total_tokens sm_cost
                                sm_cost_printed].
  assert (Hn : S n = List.length (canonical_rows conn)) by lia.
  split; [exact Hn |]. split; [exact Hfl |].
  split; [| split; reflexivity].
  rewrite (estimate_tokens_contents (batch_chunks st2) final_batch)
    by (now rewrite Hb2, Hcarry).
  unfold estimate_tokens. destruct final_batch as [|c cs] eqn:Ef.
  - simpl in Hfl. subst r. reflexivity.
  - simpl in Hfl. destruct r as [|r']; [discriminate |].
    cbn [Nat.eqb]. rewrite <- Hfl. reflexivity.
Qed.

Lemma cost_estimate_from_final_batch_witness :
  exists s tr,
    import_products echo_services sample_db [] = (inl s, tr) /\
    sm_processed s = 1%nat /\
    sm_total_tokens s =
      fold_right Z.add 0
        (map tokens_of
           (skipn 0 (map (@chunk_of_row nat sample_db)
                       (canonical_rows sample_db))))
      * Z.of_nat (sm_processed s) / Z.of_nat 1.
Proof.
  assert (Hrun : exists s tr,
             import_products echo_services sample_db [] = (inl s, tr)).
  { vm_compute. do 2 eexists. reflexivity. }
  destruct Hrun as (s & tr & Hrun). exists s, tr. split; [exact Hrun |].
  destruct (cost_estimate_from_final_batch echo_services sample_db s tr 0 1
              Hrun)
    as (Hp & _ & Ht & _).
  - vm_compute. reflexivity.
  - unfold BATCH_SIZE. lia.
  - split; [exact Hp | exact Ht].
Defined.

(** C7 as stated fails.  With 101 rows the final batch holds one chunk,
    and the figure is its estimate times 101, not times 101 over the batch
    size of 100; with 100 rows no chunk is left and the figure is 0. *)
Lemma total_tokens_not_scaled_by_batch_size :
  (exists s tr,
     import_products echo_services (numbered_products 101) [] = (inl s, tr) /\
     sm_processed s = 101%nat /\
     sm_total_tokens s = 2828 /\
     tokens_scaled_by_batch_size
       (skipn 100
          (map (@chunk_of_row nat (numbered_products 101))
             (canonical_rows (numbered_products 101))))
       (sm_processed s) = 28 /\
     sm_total_tokens s <>
     tokens_scaled_by_batch_size
       (skipn 100
          (map (@chunk_of_row nat (numbered_products 101))
             (canonical_rows (numbered_products 101))))
       (sm_processed s))
  /\
  (exists s tr,
     import_products echo_services (numbered_products 100) [] = (inl s, tr) /\
     sm_processed s = 100%nat /\
     sm_total_tokens s = 0 /\
     tokens_scaled_by_batch_size
       (map (@chunk_of_row nat (numbered_products 100))
          (canonical_rows (numbered_products 100)))
       (sm_processed s) = 2701).
Proof.
  split.
  - do 2 eexists. split; [vm_compute; reflexivity |].
    split; [vm_compute; reflexivity |].
    split; [vm_compute; reflexivity |].
    split; [vm_compute; reflexivity |].
    vm_compute. discriminate.
  - do 2 eexists. split; [vm_compute; reflexivity |].
    split; [vm_compute; reflexivity |].
    split; vm_compute; reflexivity.
Qed.
(** ** Runs against services that answer *)

Section Answering.

Context {V : Type} (svc : services V) (emb : string -> V).

(** The embedding service returns one vector per text, in order; the
    store returns a non-empty result for a non-empty insert. *)
Hypothesis Hemb :
  forall tr texts, embeddings_create svc tr texts = Returned (map emb texts).
Hypothesis Hins :
  forall tr records, records <> [] ->
    exists r rs, knowledge_base_insert svc tr records = Returned (Some (r :: rs)).

Lemma generate_embeddings_answered (batch : list (chunk V)) tr :
  generate_embeddings svc batch tr =
  (inl (map (fun c => with_embedding c (emb (ch_content c))) batch),
   (tr ++ [EmbeddingRequest (map ch_content batch)])%list).
Proof.
  unfold generate_embeddings, bind, call_embeddings. rewrite Hemb.
  rewrite attach_embeddings_returns by (now rewrite !length_map).
  rewrite map_map, combine_map_same, map_map. reflexivity.
Qed.

Lemma records_of_answered (batch : list (chunk V)) tr :
  records_of (map (fun c => with_embedding c (emb (ch_content c))) batch) tr =
  (inl (map (fun c => record_with c (emb (ch_content c))) batch), tr).
Proof.
  induction batch as [|c cs IH]; [reflexivity |].
  cbn [map records_of]. unfold bind at 1. cbn [record_of with_embedding
                                                 ch_embedding ret].
  unfold bind at 1. rewrite IH. reflexivity.
Qed.

Lemma insert_to_supabase_answered (batch : list (chunk V)) tr :
  batch <> [] ->
  exists count,
    insert_to_supabase svc
      (map (fun c => with_embedding c (emb (ch_content c))) batch) tr =
    (inl count,
     (tr ++ [BulkInsert
               (map (fun c => record_with c (emb (ch_content c))) batch)])%list).
Proof.
  intros Hne. unfold insert_to_supabase.
  erewrite bind_inl by apply records_of_answered.
  unfold bind, call_insert.
  destruct (Hins tr (map (fun c => record_with c (emb (ch_content c))) batch))
    as (r & rs & ->).
  - intros E. apply map_eq_nil in E. contradiction.
  - eexists. reflexivity.
Qed.

(** One flush: the request, then the insert. *)
Lemma flush_answered {A} (batch : list (chunk V))
  (k : list (chunk V) -> nat -> M V A) tr :
  batch <> [] ->
  exists count,
    bind (generate_embeddings svc batch)
      (fun cs => bind (insert_to_supabase svc cs) (fun n => k cs n)) tr =
    k (map (fun c => with_embedding c (emb (ch_content c))) batch) count
      (tr ++ flush_events emb batch)%list.
Proof.
  intros Hne.
  destruct (insert_to_supabase_answered batch
              (tr ++ [EmbeddingRequest (map ch_content batch)]) Hne)
    as (count & Hi).
  exists count.
  erewrite bind_inl by apply generate_embeddings_answered.
  erewrite bind_inl by exact Hi.
  unfold flush_events. now rewrite <- app_assoc.
Qed.

Context (size : nat) (conn : database).

(** Rows that do not fill the buffer send nothing. *)
Lemma loop_partial (rows : list Product.t) (st : loop_state V) tr :
  (List.length (batch_chunks st) + List.length rows < size)%nat ->
  loop svc size conn rows st tr =
  (inl {| batch_chunks :=
            (batch_chunks st ++ map (chunk_of_row conn) rows)%list;
          processed := (processed st + List.length rows)%nat;
          inserted := inserted st |}, tr).
Proof.
  revert st. induction rows as [|row rows IH]; intros st H.
  - simpl. rewrite app_nil_r, Nat.add_0_r. now destruct st.
  - cbn [loop]. unfold bind, loop_body. rewrite length_app. simpl in H |- *.
    destruct (Nat.leb_spec size (List.length (batch_chunks st) + 1)); [lia |].
    unfold ret. rewrite IH by (cbn; rewrite length_app; simpl; lia).
    cbn [batch_chunks processed inserted]. rewrite <- app_assoc.
    do 3 f_equal. lia.
Qed.

(** Rows that fill the buffer exactly end with one flush of all of it. *)
Lemma loop_fill (rows : list Product.t) (st : loop_state V) tr :
  (List.length (batch_chunks st) + List.length rows = size)%nat ->
  rows <> [] ->
  exists count,
    loop svc size conn rows st tr =
    (inl {| batch_chunks := [];
            processed := (processed st + List.length rows)%nat;
            inserted := count |},
     (tr ++ flush_events emb
              (batch_chunks st ++ map (chunk_of_row conn) rows))%list).
Proof.
  revert st. induction rows as [|row rows IH]; intros st H Hne; [congruence |].
  cbn [loop]. unfold bind at 1. unfold loop_body. rewrite length_app.
  simpl in H. cbn [List.length].
  destruct rows as [|row' rows].
  - simpl in H.
    destruct (Nat.leb_spec size (List.length (batch_chunks st) + 1)); [| lia].
    destruct (@flush_answered (loop_state V)
                (batch_chunks st ++ [chunk_of_row conn row])
                (fun cs n => @ret V (loop_state V)
                               {| batch_chunks := @nil (chunk V);
                                  processed := S (processed st);
                                  inserted := (inserted st + n)%nat |}) tr)
      as (count & ->); [now destruct (batch_chunks st) |].
    exists (inserted st + count)%nat. unfold ret. cbn [loop map List.length].
    now rewrite Nat.add_1_r.
  - simpl in H.
    destruct (Nat.leb_spec size (List.length (batch_chunks st) + 1)); [lia |].
    unfold ret.
    destruct (IH {| batch_chunks :=
                      (batch_chunks st ++ [chunk_of_row conn row])%list;
                    processed := S (processed st);
                    inserted := inserted st |}) as (count & ->).
    + cbn. rewrite length_app. simpl. lia.
    + discriminate.
    + exists count. cbn [batch_chunks processed]. rewrite <- app_assoc.
      do 3 f_equal. simpl. lia.
Qed.

End Answering.

Lemma attached_nth {V : Type} (batch : list (chunk V)) (data : list V)
  (i : nat) (c : chunk V) :
  (List.length batch <= List.length data)%nat ->
  nth_error batch i = Some c ->
  exists v,
    nth_error data i = Some v /\
    nth_error
      (map (fun cv => with_embedding (fst cv) (snd cv)) (combine batch data)) i
    = Some (with_embedding c v).
Proof.
  revert data i. induction batch as [|b batch IH]; intros data i L H.
  - destruct i; discriminate.
  - destruct data as [|v data]; [simpl in L; lia |].
    destruct i as [|i].
    + injection H as <-. exists v. split; reflexivity.
    + simpl in H. apply (IH data i) in H; [| simpl in L; lia]. exact H.
Qed.

(** C4.  [generate_embeddings] sends the texts of its chunks in order and
    gives chunk [i] the [i]-th vector of the answer.  With an embedding
    service that answers every request with one vector per text, in
    order, and a store that accepts every insert, a run over 250
    canonical rows sends exactly three embedding requests, for the first
    100 chunks, the next 100 and the last 50, each followed by the insert
    of the same chunks, every record carrying the vector of its own
    text. *)
Theorem three_batches_for_250_rows {V : Type} (svc : services V)
  (emb : string -> V) (conn : database) :
  (forall tr texts, embeddings_create svc tr texts = Returned (map emb texts)) ->
  (forall tr records, records <> [] ->
     exists r rs,
       knowledge_base_insert svc tr records = Returned (Some (r :: rs))) ->
  List.length (canonical_rows conn) = 250%nat ->
  let chunks := map (@chunk_of_row V conn) (canonical_rows conn) in
  let b1 := firstn 100 chunks in
  let b2 := firstn 100 (skipn 100 chunks) in
  let b3 := skipn 200 chunks in
  (forall batch tr cs' tr',
     generate_embeddings svc batch tr = (inl cs', tr') ->
     tr' = (tr ++ [EmbeddingRequest (map ch_content batch)])%list /\
     exists data,
       embeddings_create svc tr (map ch_content batch) = Returned data /\
       forall i c, nth_error batch i = Some c ->
         exists v, nth_error data i = Some v /\
                   nth_error cs' i = Some (with_embedding c v))
  /\ chunks = (b1 ++ b2 ++ b3)%list
  /\ List.length b1 = 100%nat /\ List.length b2 = 100%nat
  /\ List.length b3 = 50%nat
  /\ exists s,
       import_products svc conn [] =
       (inl s,
        (flush_events emb b1 ++ flush_events emb b2 ++ flush_events emb b3)%list).
Proof.
  intros Hemb Hins Hlen chunks b1 b2 b3.
  assert (Hc : List.length chunks = 250%nat)
    by (unfold chunks; now rewrite length_map).
  split; [| split; [| split; [| split; [| split]]]].
  - intros batch tr cs' tr' H. apply generate_embeddings_inv in H.
    destruct H as (-> & data & Hd & L & ->). split; [reflexivity |].
    exists data. split; [exact Hd |]. intros i c Hi.
    now apply attached_nth.
  - unfold b1, b2, b3.
    rewrite <- (firstn_skipn 100 chunks) at 1. f_equal.
    rewrite <- (firstn_skipn 100 (skipn 100 chunks)) at 1. f_equal.
    now rewrite skipn_skipn.
  - unfold b1. rewrite length_firstn. lia.
  - unfold b2. rewrite length_firstn, length_skipn. lia.
  - unfold b3. rewrite length_skipn. lia.
  - set (rows := canonical_rows conn) in *.
    set (r1 := firstn 100 rows). set (r2 := firstn 100 (skipn 100 rows)).
    set (r3 := skipn 200 rows).
    assert (Hrows : rows = (r1 ++ r2 ++ r3)%list).
    { unfold r1, r2, r3.
      rewrite <- (firstn_skipn 100 rows) at 1. f_equal.
      rewrite <- (firstn_skipn 100 (skipn 100 rows)) at 1. f_equal.
      now rewrite skipn_skipn. }
    assert (H1 : List.length r1 = 100%nat)
      by (unfold r1; rewrite length_firstn; lia).
    assert (H2 : List.length r2 = 100%nat)
      by (unfold r2; rewrite length_firstn, length_skipn; lia).
    assert (H3 : List.length r3 = 50%nat)
      by (unfold r3; rewrite length_skipn; lia).
    assert (E1 : b1 = map (chunk_of_row conn) r1)
      by (unfold b1, chunks, r1; now rewrite firstn_map).
    assert (E2 : b2 = map (chunk_of_row conn) r2)
      by (unfold b2, chunks, r2; now rewrite skipn_map, firstn_map).
    assert (E3 : b3 = map (chunk_of_row conn) r3)
      by (unfold b3, chunks, r3; now rewrite skipn_map).
    unfold import_products, import_with. fold rows. rewrite Hrows.
    set (st0 := {| batch_chunks := @nil (chunk V); processed := 0%nat;
                   inserted := 0%nat |}).
    destruct (loop_fill svc emb Hemb Hins BATCH_SIZE conn r1 st0 [])
      as (n1 & L1); [exact H1 | intros E; rewrite E in H1; discriminate |].
    set (st1 := {| batch_chunks := @nil (chunk V);
                   processed := (processed st0 + List.length r1)%nat;
                   inserted := n1 |}) in L1.
    destruct (loop_fill svc emb Hemb Hins BATCH_SIZE conn r2 st1
                ([] ++ flush_events emb
                         (batch_chunks st0 ++ map (chunk_of_row conn) r1))%list)
      as (n2 & L2); [exact H2 | intros E; rewrite E in H2; discriminate |].
    set (st2 := {| batch_chunks := @nil (chunk V);
                   processed := (processed st1 + List.length r2)%nat;
                   inserted := n2 |}) in L2.
    assert (Hloop : loop svc BATCH_SIZE conn (r1 ++ r2 ++ r3) st0 [] =
                    (inl {| batch_chunks := b3;
                            processed := 250%nat;
                            inserted := n2 |},
                     (flush_events emb b1 ++ flush_events emb b2)%list)).
    { rewrite loop_app. erewrite bind_inl by exact L1.
      rewrite loop_app. erewrite bind_inl by exact L2.
      rewrite (loop_partial svc BATCH_SIZE conn r3 st2)
        by (change (List.length r3 < 100)%nat; lia).
      cbn [batch_chunks processed inserted st0 st1 st2 List.app].
      rewrite H1, H2, H3, <- E1, <- E2, <- E3. reflexivity. }
    erewrite bind_inl by exact Hloop.
    unfold final_flush. cbn [batch_chunks].
    destruct b3 as [|c3 b3'] eqn:Eb3; [rewrite E3 in *; simpl in *;
                                       destruct r3; discriminate |].
    rewrite <- Eb3.
    destruct (@flush_answered V svc emb Hemb Hins (loop_state V) b3
                (fun cs n => @ret V (loop_state V)
                               {| batch_chunks := cs;
                                  processed := 250%nat;
                                  inserted := (n2 + n)%nat |})
                (flush_events emb b1 ++ flush_events emb b2)%list)
      as (n3 & F); [rewrite Eb3; discriminate |].
    unfold bind at 1. cbn [processed inserted]. rewrite F.
    unfold ret at 1. unfold summarize. cbn [processed].
    eexists. unfold ret. rewrite <- app_assoc. reflexivity.
Qed.

Lemma three_batches_for_250_rows_witness :
  let conn := numbered_products 250 in
  let chunks := map (@chunk_of_row nat conn) (canonical_rows conn) in
  let b1 := firstn 100 chunks in
  let b2 := firstn 100 (skipn 100 chunks) in
  let b3 := skipn 200 chunks in
  List.length b1 = 100%nat /\ List.length b2 = 100%nat /\
  List.length b3 = 50%nat /\
  exists s,
    import_products echo_services conn [] =
    (inl s,
     (flush_events Py.len b1 ++ flush_events Py.len b2
      ++ flush_events Py.len b3)%list).
Proof.
  intros conn chunks b1 b2 b3.
  destruct (three_batches_for_250_rows echo_services Py.len conn)
    as (_ & _ & H1 & H2 & H3 & Hrun).
  - intros tr texts. reflexivity.
  - intros tr records Hne. destruct records as [|r rs]; [congruence |].
    exists r, rs. reflexivity.
  - vm_compute. reflexivity.
  - split; [exact H1 | split; [exact H2 | split; [exact H3 | exact Hrun]]].
Defined.

Lemma fitments_grouped_by_model_witness :
  format_fitments 7 volvo_740_db =
  String.concat Py.nl
    ("Passar till:"
     :: map (fun g => "- " ++ fitment_line g) (fitments_query 7 volvo_740_db))
  /\ map fitment_line (fitments_query 7 volvo_740_db) =
     ["Volvo 740 1985-1992 (B200, B230)"]
  /\ engine_list
       (fg_engines
          (aggregate_group
             (fitment_rows 7 (with_fitments by_engine two_engines_db))
             (Some "240"))) =
     first_occurrences
       (Sql.non_null
          (map Fitment.engine
             (model_group (Some "240") 7
                (with_fitments by_engine two_engines_db)))).
Proof.
  destruct (fitments_grouped_by_model 7 volvo_740_db
              (expanded_fitments volvo_740_db) (Permutation_refl _))
    as (_ & Htext & _ & _ & _ & Hexample).
  split; [| split].
  - apply Htext. discriminate.
  - eapply Hexample; reflexivity.
  - destruct (fitments_grouped_by_model 7 two_engines_db by_engine
                (perm_swap _ _ _))
      as (_ & _ & _ & _ & Hgroup & _).
    destruct (Hgroup (aggregate_group
                        (fitment_rows 7
                           (with_fitments by_engine two_engines_db))
                        (Some "240")))
      as (_ & _ & _ & _ & _ & _ & _ & Hplain); [vm_compute; now left |].
    apply Hplain. reflexivity.
Defined.

(* ================================================================== *)
(** * Further properties of the code *)
(* ================================================================== *)

(** ** Sorted results *)

Lemma insert_In {A} (cmp : A -> A -> comparison) (x y : A) (l : list A) :
  In y (Sql.insert cmp x l) <-> y = x \/ In y l.
Proof.
  split.
  - intros H. apply (Permutation_in _ (insert_perm cmp x l)) in H.
    destruct H as [<- | H]; auto.
  - intros H. apply (Permutation_in _ (Permutation_sym (insert_perm cmp x l))).
    destruct H as [-> | H]; [now left | now right].
Qed.

Section Sortedness.

Context {A : Type} (cmp : A -> A -> comparison).
Hypothesis (Hf : flips cmp) (Ht : chains cmp).

Lemma insert_sorted (x : A) (l : list A) :
  StronglySorted (fun a b => cmp a b <> Gt) l ->
  StronglySorted (fun a b => cmp a b <> Gt) (Sql.insert cmp x l).
Proof.
  induction 1 as [|y l Hs IH Hy]; cbn [Sql.insert].
  - repeat constructor.
  - rewrite Forall_forall in Hy. destruct (cmp x y) eqn:C.
    + constructor; [now constructor; [| apply Forall_forall] |].
      apply Forall_forall. intros z [<- | Hz]; [congruence |].
      apply (Ht x y z); [congruence | now apply Hy].
    + constructor; [now constructor; [| apply Forall_forall] |].
      apply Forall_forall. intros z [<- | Hz]; [congruence |].
      apply (Ht x y z); [congruence | now apply Hy].
    + constructor; [exact IH |]. apply Forall_forall. intros z Hz.
      apply insert_In in Hz. destruct Hz as [-> | Hz]; [| now apply Hy].
      rewrite (Hf x y), C. discriminate.
Qed.

(** ORDER BY returns its rows sorted. *)
Lemma order_by_sorted (l : list A) :
  StronglySorted (fun a b => cmp a b <> Gt) (Sql.order_by cmp l).
Proof.
  induction l as [|x l IH]; [constructor |].
  change (Sql.order_by cmp (x :: l))
    with (Sql.insert cmp x (Sql.order_by cmp l)).
  now apply insert_sorted.
Qed.

End Sortedness.

Lemma sorted_before {A} (R : A -> A -> Prop) (l1 l2 l3 : list A) (a b : A) :
  StronglySorted R (l1 ++ a :: l2 ++ b :: l3) -> R a b.
Proof.
  intros H. apply sorted_split in H. destruct H as [_ H].
  apply H, in_elt.
Qed.

Lemma cmp_num_flips : flips Sql.cmp_num.
Proof.
  intros [a|] [b|]; simpl; try reflexivity.
  symmetry. apply Qcompare_antisym.
Qed.

Lemma cmp_num_chains : chains Sql.cmp_num.
Proof.
  intros [a|] [b|] [c|]; unfold Sql.cmp_num, Sql.cmp_null; intros H1 H2;
    try congruence.
  apply Qle_alt. apply Qle_alt in H1. apply Qle_alt in H2.
  now apply (Qle_trans _ b).
Qed.

Lemma variant_order_flips : flips variant_order.
Proof.
  unfold variant_order.
  repeat (apply then_by_chains || apply then_by_flips || apply desc_chains
          || apply desc_flips || apply asc_chains || apply asc_flips
          || apply cmp_int_chains || apply cmp_int_flips
          || apply cmp_num_chains || apply cmp_num_flips
          || apply Zcompare_chains || apply Zcompare_flips).
Qed.

Lemma variant_order_chains : chains variant_order.
Proof.
  unfold variant_order.
  repeat (apply then_by_chains || apply then_by_flips || apply desc_chains
          || apply desc_flips || apply asc_chains || apply asc_flips
          || apply cmp_int_chains || apply cmp_int_flips
          || apply cmp_num_chains || apply cmp_num_flips
          || apply Zcompare_chains || apply Zcompare_flips).
Qed.

Lemma canonical_order_flips : flips canonical_order.
Proof.
  unfold canonical_order.
  repeat (apply then_by_chains || apply then_by_flips || apply desc_chains
          || apply desc_flips || apply asc_chains || apply asc_flips
          || apply cmp_int_chains || apply cmp_int_flips
          || apply cmp_num_chains || apply cmp_num_flips
          || apply Zcompare_chains || apply Zcompare_flips).
Qed.

Lemma canonical_order_chains : chains canonical_order.
Proof.
  unfold canonical_order.
  repeat (apply then_by_chains || apply then_by_flips || apply desc_chains
          || apply desc_flips || apply asc_chains || apply asc_flips
          || apply cmp_int_chains || apply cmp_int_flips
          || apply cmp_num_chains || apply cmp_num_flips
          || apply Zcompare_chains || apply Zcompare_flips).
Qed.

Lemma cmp_int_refl (x : option Z) : Sql.cmp_int x x = Eq.
Proof. destruct x; simpl; [apply Z.compare_refl | reflexivity]. Qed.

(** X1.  The variants of a part number are exactly the rows of the table
    that pass the variant filter, each once per row, and they come sorted:
    a variant listed earlier never has a smaller has_fitments value, and
    among variants with the same has_fitments value a variant without
    price comes before every priced one and prices ascend. *)
Theorem variants_listed_in_order (oe : option string) (conn : database) :
  Permutation (variant_rows oe conn)
    (filter (is_variant_of oe) (products conn))
  /\ get_product_variants oe conn = map variant_of (variant_rows oe conn)
  /\ forall l1 a l2 b l3,
       variant_rows oe conn = (l1 ++ a :: l2 ++ b :: l3)%list ->
       (forall zb, Product.has_fitments b = Some zb ->
          exists za, Product.has_fitments a = Some za /\ zb <= za)
       /\ (Product.has_fitments a = Product.has_fitments b ->
           match Product.skandix_price a, Product.skandix_price b with
           | Some pa, Some pb => (pa <= pb)%Q
           | Some _, None => False
           | None, _ => True
           end).
Proof.
  split; [apply order_by_perm | split; [reflexivity |]].
  intros l1 a l2 b l3 E.
  pose proof (order_by_sorted variant_order variant_order_flips
                variant_order_chains
                (filter (is_variant_of oe) (products conn))) as Hs.
  fold (variant_rows oe conn) in Hs. rewrite E in Hs.
  apply sorted_before in Hs. unfold variant_order, Sql.then_by in Hs.
  unfold Sql.desc at 1 in Hs. split.
  - intros zb Hb. rewrite Hb in Hs.
    destruct (Product.has_fitments a) as [za|]; simpl in Hs.
    + exists za. split; [reflexivity |].
      unfold Z.le. destruct (zb ?= za) eqn:C; congruence.
    + exfalso. congruence.
  - intros Heq. rewrite Heq, cmp_int_refl in Hs. unfold Sql.asc in Hs.
    destruct (Product.skandix_price a) as [pa|],
             (Product.skandix_price b) as [pb|]; simpl in Hs; trivial.
    congruence.
Qed.

Lemma variants_listed_in_order_witness :
  variant_rows (Some "1234") sample_db
  = [unpriced_row; verified_row; pending_row]
  /\ (100 <= 150)%Q.
Proof.
  split; [reflexivity |].
  apply (proj2 (proj2 (proj2 (variants_listed_in_order (Some "1234") sample_db))
                  [unpriced_row] verified_row [] pending_row [] eq_refl)).
  reflexivity.
Defined.

(** ** The rows of the main loop *)

Lemma unique_ids_NoDup (conn : database) :
  unique_ids conn -> NoDup (products conn).
Proof. apply NoDup_map_inv. Qed.

Lemma canonical_row_best (conn : database) (row : Product.t) :
  unique_ids conn -> In row (canonical_rows conn) ->
  best_of_group (Product.oe_nummer row) conn = Some row.
Proof.
  intros Hu Hc. apply canonical_rows_In in Hc. destruct Hc as (Hp & Hr & _).
  apply (representative_iff conn row Hu Hp) in Hr. unfold best_id in Hr.
  destruct (best_of_group (Product.oe_nummer row) conn) as [h|] eqn:Hb;
    [| discriminate].
  injection Hr as Hid. f_equal. apply best_of_group_In in Hb.
  apply oe_group_In in Hb. destruct Hb as [Hh _].
  now apply (unique_ids_inj conn).
Qed.

Lemma sample_db_unique_ids : unique_ids sample_db.
Proof. unfold unique_ids. simpl. repeat constructor; simpl; lia. Qed.

(** X2.  With ids identifying rows, the rows of the main loop are
    pairwise different, each has a part number and passes the
    fitments-or-verified filter, and no two of them share a part number:
    the run builds at most one chunk per part number. *)
Theorem one_chunk_per_part_number (conn : database) :
  unique_ids conn ->
  NoDup (canonical_rows conn)
  /\ (forall row, In row (canonical_rows conn) ->
        In row (products conn) /\ eligible row = true /\
        exists oe, Product.oe_nummer row = Some oe)
  /\ (forall r1 r2,
        In r1 (canonical_rows conn) -> In r2 (canonical_rows conn) ->
        Product.oe_nummer r1 = Product.oe_nummer r2 -> r1 = r2).
Proof.
  intros Hu. split; [| split].
  - rewrite canonical_rows_unlimited.
    eapply Permutation_NoDup; [apply Permutation_sym, order_by_perm |].
    apply NoDup_filter, unique_ids_NoDup, Hu.
  - intros row Hc. pose proof (canonical_row_best conn row Hu Hc) as Hb.
    apply canonical_rows_In in Hc. destruct Hc as (Hp & _ & He).
    repeat split; try assumption.
    apply best_of_group_In, oe_group_In in Hb. destruct Hb as [_ Hoe].
    apply eq_text_true in Hoe. destruct Hoe as (s & Hs & _). now exists s.
  - intros r1 r2 H1 H2 E.
    pose proof (canonical_row_best conn r1 Hu H1) as B1.
    pose proof (canonical_row_best conn r2 Hu H2) as B2.
    rewrite E in B1. congruence.
Qed.

Lemma one_chunk_per_part_number_witness :
  unique_ids sample_db /\ NoDup (canonical_rows sample_db).
Proof.
  pose proof sample_db_unique_ids as H. split; [exact H |].
  apply (proj1 (one_chunk_per_part_number sample_db H)).
Defined.

(** X3.  The LIMIT of the main query cuts nothing: every row of the table
    whose id the subquery picked and that passes the filter is processed.
    The rows are processed with larger has_fitments values first and,
    among rows with the same has_fitments value, by ascending id. *)
Theorem main_query_order (conn : database) :
  (forall row,
     In row (canonical_rows conn) <->
     In row (products conn)
     /\ In (Product.id row) (representative_ids conn)
     /\ eligible row = true)
  /\ List.length (canonical_rows conn) =
     List.length
       (filter (fun p => existsb (Z.eqb (Product.id p)) (representative_ids conn)
                         && eligible p)
          (products conn))
  /\ forall l1 a l2 b l3,
       canonical_rows conn = (l1 ++ a :: l2 ++ b :: l3)%list ->
       (forall zb, Product.has_fitments b = Some zb ->
          exists za, Product.has_fitments a = Some za /\ zb <= za)
       /\ (Product.has_fitments a = Product.has_fitments b ->
           Product.id a <= Product.id b).
Proof.
  split; [apply canonical_rows_In | split].
  - rewrite canonical_rows_unlimited. apply order_by_length.
  - intros l1 a l2 b l3 E. rewrite canonical_rows_unlimited in E.
    pose proof (order_by_sorted canonical_order canonical_order_flips
                  canonical_order_chains
                  (filter (fun p => existsb (Z.eqb (Product.id p))
                                      (representative_ids conn)
                                    && eligible p)
                     (products conn))) as Hs.
    rewrite E in Hs. apply sorted_before in Hs.
    unfold canonical_order, Sql.then_by in Hs. unfold Sql.desc at 1 in Hs.
    split.
    + intros zb Hb. rewrite Hb in Hs.
      destruct (Product.has_fitments a) as [za|]; simpl in Hs.
      * exists za. split; [reflexivity |].
        unfold Z.le. destruct (zb ?= za) eqn:C; congruence.
      * exfalso. congruence.
    + intros Heq. rewrite Heq, cmp_int_refl in Hs. exact Hs.
Qed.

Lemma main_query_order_witness :
  canonical_rows (numbered_products 2) = [numbered_row 1; numbered_row 2]
  /\ Product.id (numbered_row 1) <= Product.id (numbered_row 2).
Proof.
  split; [reflexivity |].
  apply (proj2 (proj2 (proj2 (main_query_order (numbered_products 2)))
                  [] (numbered_row 1) [] (numbered_row 2) [] eq_refl)).
  reflexivity.
Defined.

(** ** Names *)

Lemma append_if_truthy_In (names : list string) (v : option string)
  (n : string) :
  In n (append_if_truthy names v) -> In n names \/ v = Some n.
Proof.
  unfold append_if_truthy. destruct v as [s|]; [| auto].
  destruct (Py.truthy_str (Some s)); [| auto].
  intros H. apply in_app_or in H. destruct H as [H | [<- | []]]; auto.
Qed.

Lemma append_if_new_In (names : list string) (v : option string)
  (n : string) :
  In n (append_if_new names v) -> In n names \/ v = Some n.
Proof.
  unfold append_if_new. destruct v as [s|]; [| auto].
  destruct (Py.truthy_str (Some s) && negb (Py.mem s names)); [| auto].
  intros H. apply in_app_or in H. destruct H as [H | [<- | []]]; auto.
Qed.

Lemma append_if_new_count (names : list string) (v : option string)
  (n : string) :
  (count_occ string_dec (append_if_new names v) n
   <= Nat.max (count_occ string_dec names n) 1)%nat.
Proof.
  unfold append_if_new. destruct v as [s|]; [| lia].
  destruct (Py.truthy_str (Some s)); simpl; [| lia].
  destruct (Py.mem s names) eqn:M; simpl; [lia |].
  rewrite count_occ_app. simpl. destruct (string_dec s n) as [-> | Hne].
  - apply mem_not_In in M.
    rewrite (proj1 (count_occ_not_In string_dec names n) M). simpl. lia.
  - lia.
Qed.

Lemma fold_append_if_new_In (fs : list (option string)) (names : list string)
  (n : string) :
  In n (fold_left append_if_new fs names) -> In n names \/ In (Some n) fs.
Proof.
  revert names. induction fs as [|f fs IH]; intros names H; simpl in *;
    [auto |].
  apply IH in H. destruct H as [H | H]; [| auto].
  apply append_if_new_In in H. destruct H as [H | ->]; auto.
Qed.

Lemma fold_append_if_new_count (fs : list (option string))
  (names : list string) (n : string) :
  (count_occ string_dec (fold_left append_if_new fs names) n
   <= Nat.max (count_occ string_dec names n) 1)%nat.
Proof.
  revert names. induction fs as [|f fs IH]; intros names; simpl; [lia |].
  specialize (IH (append_if_new names f)).
  pose proof (append_if_new_count names f n). lia.
Qed.

Lemma count_occ_filter_le (f : string -> bool) (l : list string) (n : string) :
  (count_occ string_dec (filter f l) n <= count_occ string_dec l n)%nat.
Proof.
  induction l as [|x l IH]; simpl; [lia |].
  destruct (f x); simpl; destruct (string_dec x n); lia.
Qed.

(** X4.  Every name [get_all_names] returns is the value of one of the
    eight name columns, is not empty, is not the text NULL and has more
    than three characters.  A name that is not the value of one of the
    first three columns is returned at most once. *)
Theorem all_names_are_real_names (row : Product.t) (n : string) :
  (In n (get_all_names row) ->
   In (Some n) (name_columns row) /\ n <> "" /\ n <> "NULL"
   /\ (3 < Py.len n)%nat)
  /\ (~ In (Some n) (primary_columns row) ->
      (count_occ string_dec (get_all_names row) n <= 1)%nat).
Proof.
  unfold get_all_names. split.
  - intros H. apply filter_In in H. destruct H as [H Hf].
    apply andb_true_iff in Hf. destruct Hf as [Hf H3].
    apply andb_true_iff in Hf. destruct Hf as [H1 H2].
    split; [| split; [| split]].
    + apply fold_append_if_new_In in H. unfold name_columns.
      destruct H as [H | H]; [| simpl in *; tauto].
      apply append_if_truthy_In in H. destruct H as [H | H]; [| simpl; auto].
      apply append_if_truthy_In in H. destruct H as [H | H]; [| simpl; auto].
      apply append_if_truthy_In in H. destruct H as [[] | H]. simpl; auto.
    + intros ->. discriminate.
    + intros ->. discriminate.
    + now apply Nat.ltb_lt.
  - intros Hn. eapply Nat.le_trans; [apply count_occ_filter_le |].
    eapply Nat.le_trans; [apply fold_append_if_new_count |].
    match goal with
    | |- (Nat.max (count_occ _ ?l _) 1 <= 1)%nat =>
        assert (Hl : ~ In n l)
    end.
    { intros H. apply Hn. unfold primary_columns.
      apply append_if_truthy_In in H. destruct H as [H | H]; [| simpl; auto].
      apply append_if_truthy_In in H. destruct H as [H | H]; [| simpl; auto].
      apply append_if_truthy_In in H. destruct H as [[] | H]. simpl; auto. }
    rewrite (proj1 (count_occ_not_In string_dec _ n) Hl). simpl. lia.
Qed.

Lemma all_names_are_real_names_witness :
  In "Bromsskiva" (get_all_names verified_row)
  /\ In (Some "Bromsskiva") (name_columns verified_row)
  /\ "Bromsskiva" <> "" /\ "Bromsskiva" <> "NULL"
  /\ (3 < Py.len "Bromsskiva")%nat.
Proof.
  assert (H : In "Bromsskiva" (get_all_names verified_row))
    by (left; reflexivity).
  split; [exact H |].
  apply (proj1 (all_names_are_real_names verified_row "Bromsskiva") H).
Defined.

Lemma first_truthy_cases (l : list (option string)) (default : string) :
  (first_truthy l default = default
   /\ forall s, In (Some s) l -> s = "" \/ s = default)
  \/ (In (Some (first_truthy l default)) l /\ first_truthy l default <> "").
Proof.
  induction l as [|[s|] l IH]; simpl.
  - left. split; [reflexivity | intros s []].
  - destruct (String.eqb_spec s "") as [-> | Hne]; simpl.
    + destruct IH as [[E H] | [H1 H2]].
      * left. split; [exact E |]. intros s [Hs | Hs]; [| now apply H].
        injection Hs as <-. now left.
      * right. split; [now right | exact H2].
    + right. split; [now left | exact Hne].
  - destruct IH as [[E H] | [H1 H2]].
    + left. split; [exact E |]. intros s [Hs | Hs]; [discriminate |].
      now apply H.
    + right. split; [now right | exact H2].
Qed.

Lemma blank_not_truthy (o : option string) :
  blank o -> Py.truthy_str o = false.
Proof. intros [-> | ->]; reflexivity. Qed.

Lemma first_truthy_skip (o : option string) (l : list (option string))
  (default : string) :
  blank o -> first_truthy (o :: l) default = first_truthy l default.
Proof. intros [-> | ->]; reflexivity. Qed.

Lemma first_truthy_take (s : string) (l : list (option string))
  (default : string) :
  s <> "" -> first_truthy (Some s :: l) default = s.
Proof.
  intros H. cbn [first_truthy Py.truthy_str].
  destruct (String.eqb_spec s ""); [contradiction | reflexivity].
Qed.

(** X5.  The title of a chunk is never empty.  It is normalized_name
    when that is neither NULL nor empty; else swedish_translation when
    that is neither NULL nor empty; else skandix_name_eng when that is
    neither NULL nor empty; else "Okänd produkt".  The part system of the
    metadata is never empty either: it is the row's part_system, and
    "allmänt" when that is NULL or empty. *)
Theorem title_and_system_never_empty (V : Type) (row : Product.t)
  (fitments alt_names : string) (conn : database) :
  let c := @create_chunk V row fitments alt_names conn in
  ch_title c <> ""
  /\ (ch_title c = "Okänd produkt" \/ In (Some (ch_title c)) (primary_columns row))
  /\ (forall s, Product.normalized_name row = Some s -> s <> "" ->
        ch_title c = s)
  /\ (forall s, blank (Product.normalized_name row) ->
        Product.swedish_translation row = Some s -> s <> "" ->
        ch_title c = s)
  /\ (forall s, blank (Product.normalized_name row) ->
        blank (Product.swedish_translation row) ->
        Product.skandix_name_eng row = Some s -> s <> "" ->
        ch_title c = s)
  /\ (blank (Product.normalized_name row) ->
      blank (Product.swedish_translation row) ->
      blank (Product.skandix_name_eng row) ->
      ch_title c = "Okänd produkt")
  /\ md_part_system (ch_metadata c) <> ""
  /\ (forall s, Product.part_system row = Some s -> s <> "" ->
        md_part_system (ch_metadata c) = s)
  /\ (blank (Product.part_system row) ->
      md_part_system (ch_metadata c) = "allmänt").
Proof.
  intros c. subst c. unfold create_chunk.
  cbn [ch_title ch_metadata md_part_system].
  split; [| split; [| split; [| split; [| split; [| split; [| split;
    [| split]]]]]]].
  - destruct (first_truthy_cases (primary_columns row) "Okänd produkt")
      as [[E _] | [_ H]]; unfold primary_columns in *; [| exact H].
    rewrite E. discriminate.
  - destruct (first_truthy_cases (primary_columns row) "Okänd produkt")
      as [[E _] | [H _]]; unfold primary_columns in *; [now left | now right].
  - intros s Hs Hne. rewrite Hs. now apply first_truthy_take.
  - intros s H1 Hs Hne. rewrite (first_truthy_skip _ _ _ H1), Hs.
    now apply first_truthy_take.
  - intros s H1 H2 Hs Hne.
    rewrite (first_truthy_skip _ _ _ H1), (first_truthy_skip _ _ _ H2), Hs.
    now apply first_truthy_take.
  - intros H1 H2 H3.
    rewrite (first_truthy_skip _ _ _ H1), (first_truthy_skip _ _ _ H2),
      (first_truthy_skip _ _ _ H3). reflexivity.
  - destruct (first_truthy_cases [Product.part_system row] "allmänt")
      as [[E _] | [_ H]]; [| exact H].
    rewrite E. discriminate.
  - intros s Hs Hne. rewrite Hs. now apply first_truthy_take.
  - intros H. rewrite (first_truthy_skip _ _ _ H). reflexivity.
Qed.

Lemma title_and_system_never_empty_witness :
  ch_title (@create_chunk nat verified_row "" "" sample_db) = "Bromsskiva"
  /\ ch_title (@create_chunk nat translated_row "" "" sample_db)
     = "Bromsskiva"
  /\ md_part_system
       (ch_metadata (@create_chunk nat translated_row "" "" sample_db))
     = "allmänt".
Proof.
  split; [| split].
  - pose proof (title_and_system_never_empty nat verified_row "" "" sample_db)
      as H.
    destruct H as (_ & _ & Ht & _).
    apply (Ht "Bromsskiva"); [reflexivity | discriminate].
  - pose proof (title_and_system_never_empty nat translated_row "" ""
                  sample_db) as H.
    destruct H as (_ & _ & _ & Ht & _).
    apply (Ht "Bromsskiva"); [now left | reflexivity | discriminate].
  - pose proof (title_and_system_never_empty nat translated_row "" ""
                  sample_db) as H.
    destruct H as (_ & _ & _ & _ & _ & _ & _ & _ & Hs).
    apply Hs. now right.
Defined.

(** ** Alternative names *)

Lemma same_pair_eq (a b : option string * option string) :
  same_pair a b = true <-> a = b.
Proof.
  destruct a as [[a1|] [a2|]], b as [[b1|] [b2|]]; unfold same_pair; simpl;
    rewrite ?andb_true_iff, ?String.eqb_eq; split; intros H;
    try discriminate; try (destruct H; discriminate);
    try (destruct H; congruence); try (injection H; auto); try reflexivity;
    try (now destruct H as [-> ->]); try (now rewrite H);
    try (apply String.eqb_eq in H; congruence);
    try (injection H as ->; apply String.eqb_refl).
Qed.

Lemma distinct_pairs_In (seen l : list (option string * option string))
  (x : option string * option string) :
  In x (distinct_pairs seen l) <-> In x l /\ ~ In x seen.
Proof.
  revert seen. induction l as [|y l IH]; intros seen; simpl; [tauto |].
  destruct (existsb (same_pair y) seen) eqn:E.
  - rewrite IH. apply existsb_exists in E. destruct E as (z & Hz & Hyz).
    apply same_pair_eq in Hyz. subst z. intuition congruence.
  - assert (Hy : ~ In y seen).
    { intros H. assert (existsb (same_pair y) seen = true).
      { apply existsb_exists. exists y. split; [exact H |].
        now apply same_pair_eq. }
      congruence. }
    simpl. rewrite IH. simpl. split.
    + intros [<- | [H1 H2]]; [tauto |]. split; [tauto |]. tauto.
    + intros [[<- | H1] H2]; [now left |].
      destruct (same_pair y x) eqn:S.
      * apply same_pair_eq in S. now left.
      * right. split; [exact H1 |]. intros [<- | H3]; [| contradiction].
        assert (same_pair y y = true) by (now apply same_pair_eq).
        congruence.
Qed.

Lemma distinct_pairs_NoDup (seen l : list (option string * option string)) :
  NoDup (distinct_pairs seen l).
Proof.
  revert seen. induction l as [|y l IH]; intros seen; simpl; [constructor |].
  destruct (existsb (same_pair y) seen); [apply IH |].
  constructor; [| apply IH]. rewrite distinct_pairs_In.
  intros [_ H]. apply H. now left.
Qed.

Lemma firstn_In {A} (n : nat) (l : list A) (x : A) :
  In x (firstn n l) -> In x l.
Proof.
  revert n. induction l as [|y l IH]; intros [|n] H; simpl in *; try tauto.
  destruct H as [H | H]; [now left | right; now apply (IH n)].
Qed.

Lemma firstn_NoDup {A} (n : nat) (l : list A) : NoDup l -> NoDup (firstn n l).
Proof.
  revert n. induction l as [|x l IH]; intros [|n] H; simpl;
    try constructor.
  - inversion H as [|? ? Hx Hl]; subst. intros Hin. apply Hx.
    now apply (firstn_In n).
  - inversion H; subst. now apply IH.
Qed.

Lemma firstn_short {A} (n : nat) (l : list A) :
  (List.length (firstn n l) < n)%nat -> firstn n l = l.
Proof.
  revert n. induction l as [|x l IH]; intros [|n] H; simpl in *;
    try reflexivity; try lia.
  f_equal. apply IH. lia.
Qed.

(** The text for the rows in the order of the list. *)
Lemma alternative_names_text (product_id : Z) (conn : database) :
  let shown := firstn 10 (distinct_pairs [] (alt_pairs product_id conn)) in
  (format_alternative_names product_id conn = "" <->
   alt_pairs product_id conn = [])
  /\ (alt_pairs product_id conn <> [] ->
      format_alternative_names product_id conn =
      "Även känd som: " ++ String.concat ", " (map render_alt shown)).
Proof.
  intros shown. subst shown.
  unfold format_alternative_names, alternative_names_query, Sql.limit.
  fold (alt_pairs product_id conn).
  assert (Hnil : distinct_pairs [] (alt_pairs product_id conn) = [] <->
                 alt_pairs product_id conn = []).
  { split; [| intros ->; reflexivity]. intros H.
    destruct (alt_pairs product_id conn) as [|x l]; [reflexivity |].
    simpl in H. discriminate. }
  split.
  - destruct (distinct_pairs [] (alt_pairs product_id conn)) as [|x d] eqn:E.
    + simpl. split; [intros _; now apply Hnil | reflexivity].
    + simpl. split; [discriminate |]. intros H. apply Hnil in H.
      discriminate.
  - intros Hne.
    destruct (distinct_pairs [] (alt_pairs product_id conn)) as [|x d] eqn:E.
    + exfalso. apply Hne. now apply Hnil.
    + destruct (firstn 20 (x :: d)) as [|y t] eqn:F;
        [simpl in F; discriminate |].
      rewrite <- F, firstn_firstn. reflexivity.
Qed.

Lemma alt_pairs_visited (product_id : Z) (conn : database)
  (scan : list AltName.t) :
  Permutation scan (alternative_names conn) ->
  Permutation (alt_pairs product_id (with_alternative_names scan conn))
    (alt_pairs product_id conn).
Proof.
  intros H. unfold alt_pairs. cbn [with_alternative_names alternative_names].
  apply Permutation_map. generalize (fun a : AltName.t =>
    Sql.eq_int (AltName.product_id a) (Some product_id)). intros f.
  induction H; simpl.
  - constructor.
  - destruct (f x); [now constructor | assumption].
  - destruct (f x), (f y); try apply Permutation_refl. apply perm_swap.
  - eapply Permutation_trans; eassumption.
Qed.

(** X6.  Whatever the order in which the query visits the rows of
    [alternative_names]: the text is empty exactly when the product has no
    row in the table.  Otherwise it is the label followed by pairs
    (name, site) of the product's rows rendered "name (site)" and joined
    by commas; no pair is rendered twice, at most ten are, and fewer than
    ten only when these are all the pairs of the product: the LIMIT 20 of
    the query changes nothing.  Which ten of more than ten are rendered,
    and in which order, is left to the order of visiting. *)
Theorem alternative_names_first_ten (product_id : Z) (conn : database)
  (scan : list AltName.t) :
  Permutation scan (alternative_names conn) ->
  let pairs := alt_pairs product_id conn in
  let text :=
    format_alternative_names product_id (with_alternative_names scan conn) in
  (text = "" <-> pairs = [])
  /\ exists shown,
       (pairs <> [] ->
        text = "Även känd som: " ++ String.concat ", " (map render_alt shown))
       /\ NoDup shown
       /\ (forall p, In p shown -> In p pairs)
       /\ (List.length shown <= 10)%nat
       /\ ((List.length shown < 10)%nat -> forall p, In p pairs -> In p shown).
Proof.
  intros Hscan pairs text. subst pairs text.
  pose proof (alt_pairs_visited product_id conn scan Hscan) as Hperm.
  destruct (alternative_names_text product_id
              (with_alternative_names scan conn)) as [Hempty Htext].
  cbv zeta in Htext.
  set (visited := alt_pairs product_id (with_alternative_names scan conn)) in *.
  assert (Hnil : visited = [] <-> alt_pairs product_id conn = []).
  { split; intros E.
    - rewrite E in Hperm. now apply Permutation_nil.
    - rewrite E in Hperm. now apply Permutation_nil, Permutation_sym. }
  split; [now rewrite Hempty |].
  exists (firstn 10 (distinct_pairs [] visited)).
  split; [| split; [| split; [| split]]].
  - intros Hne. apply Htext. now rewrite Hnil.
  - apply firstn_NoDup, distinct_pairs_NoDup.
  - intros p Hp. apply firstn_In in Hp. apply distinct_pairs_In in Hp.
    apply (Permutation_in _ Hperm). tauto.
  - apply firstn_le_length.
  - intros Hlt p Hp. rewrite (firstn_short _ _ Hlt).
    apply distinct_pairs_In. split; [| intros []].
    apply (Permutation_in _ (Permutation_sym Hperm)), Hp.
Qed.

Lemma alternative_names_first_ten_witness :
  alt_pairs 7 alt_names_db <> []
  /\ exists shown,
       format_alternative_names 7
         (with_alternative_names (rev (alternative_names alt_names_db))
            alt_names_db)
       = "Även känd som: " ++ String.concat ", " (map render_alt shown)
       /\ NoDup shown
       /\ (forall p, In p shown -> In p (alt_pairs 7 alt_names_db))
       /\ (List.length shown <= 10)%nat.
Proof.
  assert (Hne : alt_pairs 7 alt_names_db <> []) by (simpl; discriminate).
  destruct (alternative_names_first_ten 7 alt_names_db
              (rev (alternative_names alt_names_db))
              (Permutation_sym (Permutation_rev _)))
    as (_ & shown & Htext & Hnd & Hin & Hlen & _).
  split; [exact Hne |]. exists shown.
  split; [exact (Htext Hne) |]. split; [exact Hnd |].
  split; [exact Hin | exact Hlen].
Defined.

(** ** Metadata *)

Lemma max_from_spec (l : list Q) (m0 : Q) :
  (Py.max_from m0 l = m0 \/ In (Py.max_from m0 l) l) /\
  (m0 <= Py.max_from m0 l)%Q /\
  forall q, In q l -> (q <= Py.max_from m0 l)%Q.
Proof.
  revert m0. induction l as [|x l IH]; intros m0; simpl.
  - repeat split; [now left | apply Qle_refl | intros q []].
  - destruct (Qlt_le_dec m0 x) as [L|L].
    + destruct (IH x) as (H1 & H2 & H3). repeat split.
      * right. destruct H1 as [-> | H1]; [now left | now right].
      * eapply Qle_trans; [apply Qlt_le_weak, L | exact H2].
      * intros q [<- | Hq]; [assumption | now apply H3].
    + destruct (IH m0) as (H1 & H2 & H3). repeat split.
      * destruct H1 as [-> | H1]; [now left | right; now right].
      * assumption.
      * intros q [<- | Hq]; [| now apply H3].
        eapply Qle_trans; [exact L | exact H2].
Qed.

Lemma truthy_values_length {A} (truthy : option A -> bool)
  (l : list (option A)) :
  (List.length (truthy_values truthy l) <= List.length l)%nat.
Proof.
  induction l as [|[x|] l IH]; simpl; [lia | | lia].
  destruct (truthy (Some x)); simpl; lia.
Qed.

(** X7.  In the metadata of a chunk the variant count is the number of
    variant ids, and there are at most that many Skandix and VP ids.  The
    two price bounds are null together; when they are not, both are
    prices of priced variants and every priced variant's price lies
    between them. *)
Theorem metadata_price_range (V : Type) (row : Product.t)
  (fitments alt_names : string) (conn : database) :
  let md := ch_metadata (@create_chunk V row fitments alt_names conn) in
  let vs := get_product_variants (Product.oe_nummer row) conn in
  md_variant_count md = List.length (md_variant_ids md)
  /\ (List.length (md_skandix_ids md) <= md_variant_count md)%nat
  /\ (List.length (md_vp_ids md) <= md_variant_count md)%nat
  /\ (md_price_from md = None <-> md_price_to md = None)
  /\ forall lo hi,
       md_price_from md = Some lo -> md_price_to md = Some hi ->
       (exists v, In v vs /\ Variant.skandix_price v = Some lo
                  /\ priced v = true)
       /\ (exists v, In v vs /\ Variant.skandix_price v = Some hi
                     /\ priced v = true)
       /\ (forall v q, In v vs -> Variant.skandix_price v = Some q ->
             priced v = true -> (lo <= q)%Q /\ (q <= hi)%Q)
       /\ (lo <= hi)%Q.
Proof.
  intros md vs. subst md. unfold create_chunk.
  cbn [ch_metadata md_variant_count md_variant_ids md_skandix_ids md_vp_ids
         md_price_from md_price_to].
  fold vs.
  split; [now rewrite length_map | split; [| split; [| split]]].
  - eapply Nat.le_trans; [apply truthy_values_length |].
    now rewrite length_map.
  - eapply Nat.le_trans; [apply truthy_values_length |].
    now rewrite length_map.
  - destruct (variant_prices vs); simpl; split; congruence.
  - intros lo hi Hlo Hhi.
    destruct (variant_prices vs) as [|p0 rest] eqn:E; [discriminate |].
    simpl in Hlo, Hhi. injection Hlo as <-. injection Hhi as <-.
    destruct (min_from_spec rest p0) as (A1 & A2 & A3).
    destruct (max_from_spec rest p0) as (B1 & B2 & B3).
    assert (Hmin : In (Py.min_from p0 rest) (variant_prices vs)).
    { rewrite E. destruct A1 as [-> | A1]; [now left | now right]. }
    assert (Hmax : In (Py.max_from p0 rest) (variant_prices vs)).
    { rewrite E. destruct B1 as [-> | B1]; [now left | now right]. }
    split; [now apply variant_prices_In |].
    split; [now apply variant_prices_In |].
    split.
    + intros v q Hv Hq Hp.
      assert (Hin : In q (p0 :: rest)).
      { rewrite <- E. apply variant_prices_In. now exists v. }
      destruct Hin as [<- | Hin]; split; auto.
    + now apply (Qle_trans _ p0).
Qed.

Lemma metadata_price_range_witness :
  md_price_from (ch_metadata sample_chunk) = Some 100%Q
  /\ md_price_to (ch_metadata sample_chunk) = Some 150%Q
  /\ (100 <= 150)%Q.
Proof.
  split; [reflexivity |]. split; [reflexivity |].
  apply (proj2 (proj2 (proj2 (proj2
           (metadata_price_range nat verified_row
              (format_fitments 2 sample_db)
              (format_alternative_names 2 sample_db) sample_db))))
         100%Q 150%Q eq_refl eq_refl).
Defined.

(** X8.  The chunk of a row of the main loop carries the row's id and
    part number, and is flagged: has_fitments or verified is true in its
    metadata. *)
Theorem corpus_chunks_are_flagged (V : Type) (conn : database)
  (row : Product.t) (fitments alt_names : string) :
  In row (canonical_rows conn) ->
  let md := ch_metadata (@create_chunk V row fitments alt_names conn) in
  md_product_id md = Product.id row
  /\ md_oe_nummer md = Product.oe_nummer row
  /\ (md_has_fitments md = true \/ md_verified md = true).
Proof.
  intros Hc md. subst md. unfold create_chunk.
  cbn [ch_metadata md_product_id md_oe_nummer md_has_fitments md_verified].
  split; [reflexivity | split; [reflexivity |]].
  apply canonical_rows_In in Hc. destruct Hc as (_ & _ & He).
  unfold eligible in He. apply orb_true_iff in He.
  destruct He as [He | He]; [left | now right].
  apply eq_int_true in He. destruct He as (z & -> & Hz).
  injection Hz as <-. reflexivity.
Qed.

Lemma corpus_chunks_are_flagged_witness :
  In verified_row (canonical_rows sample_db)
  /\ (md_has_fitments
        (ch_metadata (@create_chunk nat verified_row "" "" sample_db)) = true
      \/ md_verified
           (ch_metadata (@create_chunk nat verified_row "" "" sample_db))
         = true).
Proof.
  assert (H : In verified_row (canonical_rows sample_db))
    by (left; reflexivity).
  split; [exact H |].
  apply (corpus_chunks_are_flagged nat sample_db verified_row "" "" H).
Defined.

(** ** The shape of every run *)

Section Shape.

Context {V : Type} (svc : services V).

Lemma combine_record_cores (chunks : list (chunk V)) (data : list V) :
  (List.length chunks <= List.length data)%nat ->
  map record_core
    (map (fun cv => record_with (fst cv) (snd cv)) (combine chunks data))
  = map chunk_core chunks.
Proof.
  revert data. induction chunks as [|c cs IH]; intros data H; [reflexivity |].
  destruct data as [|v vs]; [simpl in H; lia |].
  simpl. f_equal. apply IH. simpl in H. lia.
Qed.

Lemma combine_chunk_cores (chunks : list (chunk V)) (data : list V) :
  (List.length chunks <= List.length data)%nat ->
  map chunk_core
    (map (fun cv => with_embedding (fst cv) (snd cv)) (combine chunks data))
  = map chunk_core chunks.
Proof.
  revert data. induction chunks as [|c cs IH]; intros data H; [reflexivity |].
  destruct data as [|v vs]; [simpl in H; lia |].
  simpl. f_equal. apply IH. simpl in H. lia.
Qed.

Lemma cores_contents (records : list (kb_record V)) (chunks : list (chunk V)) :
  map record_core records = map chunk_core chunks ->
  map kb_content records = map ch_content chunks.
Proof.
  revert chunks. induction records as [|r rs IH]; intros [|c cs] H;
    try discriminate; [reflexivity |].
  simpl in H. injection H as H1 H2 H3 H4 H5 H6. simpl. f_equal; auto.
Qed.

Lemma inserted_records_pair (tr : list (event V)) (texts : list string)
  (records : list (kb_record V)) :
  inserted_records (tr ++ [EmbeddingRequest texts; BulkInsert records])
  = (inserted_records tr ++ records)%list.
Proof.
  unfold inserted_records. rewrite flat_map_app. simpl.
  now rewrite app_nil_r.
Qed.

Lemma inserted_records_request (tr : list (event V)) (texts : list string) :
  inserted_records (tr ++ [EmbeddingRequest texts]) = inserted_records tr.
Proof.
  unfold inserted_records. rewrite flat_map_app. simpl.
  now rewrite app_nil_r.
Qed.

Lemma cores_sent_pair (tr : list (event V)) (texts : list string)
  (records : list (kb_record V)) (batch : list (chunk V)) :
  map record_core records = map chunk_core batch ->
  cores_sent (tr ++ [EmbeddingRequest texts; BulkInsert records])
  = (cores_sent tr ++ map chunk_core batch)%list.
Proof.
  intros H. unfold cores_sent.
  now rewrite inserted_records_pair, map_app, H.
Qed.

Lemma cores_sent_request (tr : list (event V)) (texts : list string) :
  cores_sent (tr ++ [EmbeddingRequest texts]) = cores_sent tr.
Proof. unfold cores_sent. now rewrite inserted_records_request. Qed.

(** The five ways one flush can go. *)
Lemma flush_cases {A} (batch : list (chunk V))
  (k : list (chunk V) -> nat -> M V A) tr :
  let texts := map ch_content batch in
  let m := bind (generate_embeddings svc batch)
             (fun cs => bind (insert_to_supabase svc cs) (k cs)) in
  (exists e, (e = ApiError \/ e = IndexError) /\
             m tr = (inr e, (tr ++ [EmbeddingRequest texts])%list))
  \/ exists records,
       map record_core records = map chunk_core batch /\
       ((exists e, (e = ApiError \/ e = InsertFailed) /\
                   m tr = (inr e, (tr ++ [EmbeddingRequest texts;
                                          BulkInsert records])%list))
        \/ exists cs data,
             map chunk_core cs = map chunk_core batch /\
             knowledge_base_insert svc (tr ++ [EmbeddingRequest texts])
               records = Returned (Some data) /\
             data <> [] /\
             m tr = k cs (List.length data)
                      (tr ++ [EmbeddingRequest texts;
                              BulkInsert records])%list).
Proof.
  intros texts m. subst m texts.
  unfold generate_embeddings.
  unfold bind, call_embeddings. cbv beta.
  destruct (embeddings_create svc tr (map ch_content batch)) as [data|].
  2:{ left. exists ApiError. split; [now left |]. reflexivity. }
  destruct (Nat.le_gt_cases (List.length batch) (List.length data)) as [L|L].
  2:{ left. exists IndexError. split; [now right |].
      now rewrite attach_embeddings_raises. }
  right.
  exists (map (fun cv => record_with (fst cv) (snd cv)) (combine batch data)).
  split; [now apply combine_record_cores |].
  rewrite attach_embeddings_returns by assumption.
  unfold insert_to_supabase, bind. cbv beta.
  rewrite records_of_embedded by assumption.
  unfold call_insert.
  replace ((tr ++ [EmbeddingRequest (map ch_content batch)])
           ++ [BulkInsert
                 (map (fun cv => record_with (fst cv) (snd cv))
                    (combine batch data))])%list
    with (tr ++ [EmbeddingRequest (map ch_content batch);
                 BulkInsert
                   (map (fun cv => record_with (fst cv) (snd cv))
                      (combine batch data))])%list
    by (now rewrite <- app_assoc).
  destruct (knowledge_base_insert svc (tr ++ [EmbeddingRequest (map ch_content batch)])
              (map (fun cv => record_with (fst cv) (snd cv))
                 (combine batch data))) as [[[|r rs]|]|] eqn:E.
  - left. exists InsertFailed. split; [now right | reflexivity].
  - right.
    exists (map (fun cv => with_embedding (fst cv) (snd cv))
              (combine batch data)), (r :: rs).
    split; [now apply combine_chunk_cores |].
    split; [reflexivity |]. split; [discriminate | reflexivity].
  - left. exists InsertFailed. split; [now right | reflexivity].
  - left. exists ApiError. split; [now left | reflexivity].
Qed.

Lemma paired_request (tr : list (event V)) (records : list (kb_record V))
  (texts : list string) :
  paired tr -> map kb_content records = texts ->
  paired (tr ++ [EmbeddingRequest texts; BulkInsert records]).
Proof. intros H <-. now constructor. Qed.

Lemma sized_pair (size : nat) (tr : list (event V))
  (records : list (kb_record V)) (texts : list string) :
  Forall (sized size) tr -> map kb_content records = texts ->
  (1 <= List.length texts <= size)%nat ->
  Forall (sized size) (tr ++ [EmbeddingRequest texts; BulkInsert records]).
Proof.
  intros H E L. apply Forall_app. split; [exact H |].
  repeat constructor; simpl; try lia;
    rewrite <- (length_map kb_content), E; lia.
Qed.

Lemma sized_request (size : nat) (tr : list (event V)) (texts : list string) :
  Forall (sized size) tr -> (1 <= List.length texts <= size)%nat ->
  Forall (sized size) (tr ++ [EmbeddingRequest texts]).
Proof.
  intros H L. apply Forall_app. split; [exact H |].
  repeat constructor; simpl; lia.
Qed.

(** What a flush of a batch of allowed size leaves behind. *)
Lemma flush_shape {A} (size : nat) (batch : list (chunk V))
  (f : list (chunk V) -> nat -> A) tr :
  (1 <= List.length batch <= size)%nat ->
  paired tr -> Forall (sized size) tr ->
  match bind (generate_embeddings svc batch)
          (fun cs => bind (insert_to_supabase svc cs)
                       (fun n => ret (f cs n))) tr with
  | (inl x, tr') =>
      paired tr' /\ Forall (sized size) tr' /\
      exists cs n,
        x = f cs n /\ map chunk_core cs = map chunk_core batch /\
        (1 <= n)%nat /\
        (row_per_record svc -> n = List.length batch) /\
        cores_sent tr' = (cores_sent tr ++ map chunk_core batch)%list
  | (inr e, tr') =>
      Forall (sized size) tr' /\ stopped e tr' /\
      (cores_sent tr' = cores_sent tr \/
       cores_sent tr' = (cores_sent tr ++ map chunk_core batch)%list)
  end.
Proof.
  intros L Hp Hs.
  assert (Lt : (1 <= List.length (map ch_content batch) <= size)%nat)
    by (now rewrite length_map).
  destruct (flush_cases batch (fun cs n => ret (f cs n)) tr)
    as [(e & He & ->) | (records & Hr & [(e & He & ->) | Hok])].
  - split; [now apply sized_request |].
    split; [| left; apply cores_sent_request].
    right. split; [exact He |].
    now exists tr, (map ch_content batch).
  - pose proof (cores_contents _ _ Hr) as Hc.
    split; [now apply sized_pair |].
    split; [| right; now apply cores_sent_pair].
    left. split; [exact He |].
    now apply paired_request.
  - pose proof (cores_contents _ _ Hr) as Hc.
    destruct Hok as (cs & data & Hcs & Hd & Hne & ->). unfold ret.
    split; [now apply paired_request |].
    split; [now apply sized_pair |].
    exists cs, (List.length data).
    split; [reflexivity |]. split; [exact Hcs |].
    split; [destruct data; [congruence | simpl; lia] |].
    split; [| now apply cores_sent_pair].
    intros Hh. rewrite (Hh _ _ _ Hd).
    rewrite <- (length_map kb_content), Hc. apply length_map.
Qed.

Context (size : nat) (conn : database).
Hypothesis Hsize : (0 < size)%nat.

Lemma loop_body_shape (st : loop_state V) (row : Product.t) tr :
  (List.length (batch_chunks st) < size)%nat ->
  paired tr -> Forall (sized size) tr ->
  match loop_body svc size conn st row tr with
  | (inl st', tr') =>
      paired tr' /\ Forall (sized size) tr' /\
      (List.length (batch_chunks st') < size)%nat /\
      processed st' = S (processed st) /\
      (row_per_record svc ->
       (inserted st + List.length (batch_chunks st) = processed st)%nat ->
       (inserted st' + List.length (batch_chunks st') = processed st')%nat) /\
      (cores_sent tr' ++ map chunk_core (batch_chunks st')
       = (cores_sent tr ++ map chunk_core (batch_chunks st))
           ++ [chunk_core (chunk_of_row conn row : chunk V)])%list
  | (inr e, tr') =>
      Forall (sized size) tr' /\ stopped e tr' /\
      exists rest,
        ((cores_sent tr ++ map chunk_core (batch_chunks st))
           ++ [chunk_core (chunk_of_row conn row : chunk V)]
         = cores_sent tr' ++ rest)%list
  end.
Proof.
  intros L Hp Hs. unfold loop_body.
  destruct (Nat.leb_spec size
              (List.length (batch_chunks st ++ [chunk_of_row conn row])))
    as [Hfull | Hroom].
  - rewrite length_app in Hfull. simpl in Hfull.
    pose proof (flush_shape size (batch_chunks st ++ [chunk_of_row conn row])
                  (fun _ n => {| batch_chunks := @nil (chunk V);
                                 processed := S (processed st);
                                 inserted := (inserted st + n)%nat |})
                  tr) as H.
    cbv beta in H.
    match type of H with
    | _ -> _ -> _ -> match ?m with _ => _ end =>
        destruct m as [[st' | e] tr']
    end.
    + destruct H as (P1 & P2 & cs & n & -> & _ & _ & Hn & Hc);
        [rewrite length_app; simpl; lia | assumption | assumption |].
      cbn [batch_chunks processed inserted].
      split; [exact P1 |]. split; [exact P2 |].
      split; [simpl; lia |]. split; [reflexivity |].
      split.
      * intros Hh Hinv. rewrite (Hn Hh), length_app. simpl in *. lia.
      * rewrite Hc, map_app, app_nil_r, app_assoc. reflexivity.
    + destruct H as (P1 & P2 & Hc);
        [rewrite length_app; simpl; lia | assumption | assumption |].
      split; [exact P1 |]. split; [exact P2 |].
      rewrite map_app in Hc. simpl in Hc.
      destruct Hc as [-> | ->].
      * exists (map chunk_core (batch_chunks st)
                ++ [chunk_core (chunk_of_row conn row : chunk V)])%list.
        now rewrite app_assoc.
      * exists []. now rewrite app_nil_r, app_assoc.
  - rewrite length_app in Hroom. simpl in Hroom. unfold ret.
    cbn [batch_chunks processed inserted].
    split; [exact Hp |]. split; [exact Hs |].
    split; [rewrite length_app; simpl; lia |]. split; [reflexivity |].
    split.
    + intros _ Hinv. rewrite length_app. simpl. lia.
    + now rewrite map_app, app_assoc.
Qed.

Lemma loop_shape (rows : list Product.t) (st : loop_state V) tr :
  (List.length (batch_chunks st) < size)%nat ->
  paired tr -> Forall (sized size) tr ->
  match loop svc size conn rows st tr with
  | (inl st', tr') =>
      paired tr' /\ Forall (sized size) tr' /\
      (List.length (batch_chunks st') < size)%nat /\
      processed st' = (processed st + List.length rows)%nat /\
      (row_per_record svc ->
       (inserted st + List.length (batch_chunks st) = processed st)%nat ->
       (inserted st' + List.length (batch_chunks st') = processed st')%nat) /\
      (cores_sent tr' ++ map chunk_core (batch_chunks st')
       = (cores_sent tr ++ map chunk_core (batch_chunks st))
           ++ map chunk_core (map (chunk_of_row conn) rows : list (chunk V)))%list
  | (inr e, tr') =>
      Forall (sized size) tr' /\ stopped e tr' /\
      exists rest,
        ((cores_sent tr ++ map chunk_core (batch_chunks st))
           ++ map chunk_core (map (chunk_of_row conn) rows : list (chunk V))
         = cores_sent tr' ++ rest)%list
  end.
Proof.
  revert st tr. induction rows as [|row rows IH]; intros st tr L Hp Hs.
  - simpl. split; [exact Hp |]. split; [exact Hs |].
    split; [exact L |]. split; [lia |].
    split; [tauto | now rewrite app_nil_r].
  - cbn [loop]. unfold bind.
    pose proof (loop_body_shape st row tr L Hp Hs) as Hb.
    destruct (loop_body svc size conn st row tr) as [[st1 | e] tr1].
    2:{ destruct Hb as (P1 & P2 & rest & Hc).
        split; [exact P1 |]. split; [exact P2 |].
        exists (rest ++ map chunk_core (map (chunk_of_row conn) rows : list (chunk V)))%list.
        cbn [map].
        rewrite app_assoc, <- Hc, <- (app_assoc _ [_] _). reflexivity. }
    destruct Hb as (P1 & P2 & L1 & N1 & I1 & C1).
    specialize (IH st1 tr1 L1 P1 P2).
    destruct (loop svc size conn rows st1 tr1) as [[st2 | e] tr2].
    2:{ destruct IH as (P3 & P4 & rest & Hc).
        split; [exact P3 |]. split; [exact P4 |].
        exists rest. rewrite <- Hc, C1. cbn [map].
        rewrite <- (app_assoc _ [_] _). reflexivity. }
    destruct IH as (P3 & P4 & L2 & N2 & I2 & C2).
    split; [exact P3 |]. split; [exact P4 |].
    split; [exact L2 |]. split; [simpl; lia |].
    split.
    + intros Hh Hinv. apply (I2 Hh), (I1 Hh), Hinv.
    + rewrite C2, C1. cbn [map].
      rewrite <- (app_assoc _ [_] _). reflexivity.
Qed.

Lemma final_flush_shape (st : loop_state V) tr :
  (List.length (batch_chunks st) < size)%nat ->
  paired tr -> Forall (sized size) tr ->
  match final_flush svc st tr with
  | (inl st', tr') =>
      paired tr' /\ Forall (sized size) tr' /\
      processed st' = processed st /\
      (row_per_record svc ->
       (inserted st + List.length (batch_chunks st) = processed st)%nat ->
       inserted st' = processed st') /\
      cores_sent tr'
      = (cores_sent tr ++ map chunk_core (batch_chunks st))%list
  | (inr e, tr') =>
      Forall (sized size) tr' /\ stopped e tr' /\
      exists rest,
        (cores_sent tr ++ map chunk_core (batch_chunks st)
         = cores_sent tr' ++ rest)%list
  end.
Proof.
  intros L Hp Hs. unfold final_flush.
  destruct (batch_chunks st) as [|c cs] eqn:E.
  - unfold ret. split; [exact Hp |]. split; [exact Hs |].
    split; [reflexivity |].
    split; [| now rewrite app_nil_r].
    intros _ H. simpl in H. lia.
  - pose proof (flush_shape size (c :: cs)
                  (fun cs' n => {| batch_chunks := cs';
                                   processed := processed st;
                                   inserted := (inserted st + n)%nat |})
                  tr) as H.
    cbv beta in H.
    match type of H with
    | _ -> _ -> _ -> match ?m with _ => _ end =>
        destruct m as [[st' | e] tr']
    end.
    + destruct H as (P1 & P2 & cs' & n & -> & _ & _ & Hn & Hc);
        [simpl in *; lia | assumption | assumption |].
      cbn [batch_chunks processed inserted].
      split; [exact P1 |]. split; [exact P2 |].
      split; [reflexivity |]. split; [| exact Hc].
      intros Hh Hinv. rewrite (Hn Hh). exact Hinv.
    + destruct H as (P1 & P2 & Hc);
        [simpl in *; lia | assumption | assumption |].
      split; [exact P1 |]. split; [exact P2 |].
      destruct Hc as [-> | ->].
      * now exists (map chunk_core (c :: cs)).
      * exists []. now rewrite app_nil_r.
Qed.

(** Every run, whatever the services answer. *)
Lemma import_with_shape :
  match import_with svc size conn [] with
  | (inl s, tr) =>
      paired tr /\ Forall (sized size) tr /\
      sm_processed s = List.length (canonical_rows conn) /\
      canonical_rows conn <> [] /\
      (row_per_record svc -> sm_inserted s = sm_processed s) /\
      cores_sent tr
      = map chunk_core
          (map (chunk_of_row conn) (canonical_rows conn) : list (chunk V))
  | (inr e, tr) =>
      Forall (sized size) tr /\
      ((e = ZeroDivisionError /\ canonical_rows conn = [] /\ tr = [])
       \/ (canonical_rows conn <> [] /\ stopped e tr)) /\
      exists rest,
        (map chunk_core
          (map (chunk_of_row conn) (canonical_rows conn) : list (chunk V))
         = cores_sent tr ++ rest)%list
  end.
Proof.
  unfold import_with, bind.
  pose proof (loop_shape (canonical_rows conn)
                {| batch_chunks := []; processed := 0; inserted := 0 |} []
                Hsize paired_nil (Forall_nil _)) as Hl.
  destruct (canonical_rows conn) as [|row rows] eqn:Erows.
  - simpl. split; [constructor |]. split; [left; auto |]. now exists [].
  - destruct (loop svc size conn (row :: rows) _ []) as [[st1 | e] tr1].
    2:{ destruct Hl as (H1 & H2 & H3). split; [exact H1 |].
        split; [right; split; [discriminate | exact H2] | exact H3]. }
    destruct Hl as (P1 & P2 & L1 & N1 & I1 & C1).
    pose proof (final_flush_shape st1 tr1 L1 P1 P2) as Hf.
    destruct (final_flush svc st1 tr1) as [[st2 | e] tr2].
    2:{ destruct Hf as (H1 & H2 & rest & H3). split; [exact H1 |].
        split; [right; split; [discriminate | exact H2] |].
        exists rest. now rewrite <- H3, C1. }
    destruct Hf as (P3 & P4 & N2 & I2 & C2).
    unfold summarize. cbn [processed] in N1.
    destruct (processed st2) as [|n] eqn:En; [simpl in N1; lia |].
    unfold ret. cbn [sm_processed sm_inserted].
    split; [exact P3 |]. split; [exact P4 |].
    split; [simpl in *; lia |]. split; [discriminate |].
    split.
    + intros Hh. apply (I2 Hh), (I1 Hh). reflexivity.
    + now rewrite C2, C1.
Qed.

End Shape.

Lemma stopped_exceptions {V : Type} (e : exception) (tr : list (event V)) :
  stopped e tr -> e = ApiError \/ e = IndexError \/ e = InsertFailed.
Proof. intros [[[-> | ->] _] | [[-> | ->] _]]; auto. Qed.

Lemma batch_size_positive : (0 < BATCH_SIZE)%nat.
Proof. unfold BATCH_SIZE. lia. Qed.

(** X9.  Whatever the two services answer, every embedding request and
    every bulk insert of a run is for at least one chunk and at most
    BATCH_SIZE chunks. *)
Theorem requests_within_batch_size {V : Type} (svc : services V)
  (conn : database) :
  Forall (sized BATCH_SIZE) (snd (import_products svc conn [])).
Proof.
  pose proof (import_with_shape svc BATCH_SIZE conn batch_size_positive) as H.
  unfold import_products.
  destruct (import_with svc BATCH_SIZE conn []) as [[s | e] tr]; simpl.
  - apply H.
  - apply H.
Qed.

(** X10.  Whatever the two services answer, a run sends request/insert
    pairs, every insert carrying exactly the texts of the request before
    it, in order.  A run that returns ends on a complete pair; only a run
    that stops with an error can end on a request without its insert. *)
Theorem inserts_follow_their_requests {V : Type} (svc : services V)
  (conn : database) :
  match import_products svc conn [] with
  | (inl _, tr) => paired tr
  | (inr e, tr) =>
      paired tr \/
      exists t texts, tr = (t ++ [EmbeddingRequest texts])%list /\ paired t
  end.
Proof.
  pose proof (import_with_shape svc BATCH_SIZE conn batch_size_positive) as H.
  unfold import_products.
  destruct (import_with svc BATCH_SIZE conn []) as [[s | e] tr].
  - apply H.
  - destruct H as (_ & [(_ & _ & ->) | [_ [[_ H] | [_ H]]]] & _).
    + left. constructor.
    + now left.
    + now right.
Qed.

(** X11.  A run never ends with a missing-key error, since every chunk
    gets its vector before its record is built.  It ends with a division
    by zero exactly when the main query returns no row, and then it has
    sent nothing. *)
Theorem run_exceptions {V : Type} (svc : services V) (conn : database) :
  fst (import_products svc conn []) <> inr KeyError
  /\ (fst (import_products svc conn []) = inr ZeroDivisionError <->
      canonical_rows conn = [])
  /\ (canonical_rows conn = [] ->
      import_products svc conn [] = (inr ZeroDivisionError, [])).
Proof.
  pose proof (import_with_shape svc BATCH_SIZE conn batch_size_positive) as H.
  unfold import_products.
  destruct (import_with svc BATCH_SIZE conn []) as [[s | e] tr]; simpl.
  - destruct H as (_ & _ & _ & Hne & _).
    split; [discriminate | split; [split; [discriminate | contradiction] |]].
    contradiction.
  - destruct H as (_ & [(-> & Hnil & ->) | [Hne Hs]] & _).
    + split; [discriminate | split; [tauto | reflexivity]].
    + apply stopped_exceptions in Hs.
      split; [| split; [split |]].
      * intros E. injection E as ->. destruct Hs as [? | [? | ?]];
          discriminate.
      * intros E. injection E as ->. destruct Hs as [? | [? | ?]];
          discriminate.
      * contradiction.
      * contradiction.
Qed.

Lemma run_exceptions_witness :
  canonical_rows (products_only []) = []
  /\ import_products echo_services (products_only []) []
     = (inr ZeroDivisionError, []).
Proof.
  assert (H : canonical_rows (products_only []) = []) by reflexivity.
  split; [exact H |].
  apply (proj2 (proj2 (run_exceptions echo_services (products_only []))) H).
Defined.

(** X12.  When the store returns one row per record, a run that returns
    has inserted as many chunks as it processed rows, one per row of the
    main query. *)
Theorem all_processed_rows_inserted {V : Type} (svc : services V)
  (conn : database) (s : summary) (tr : list (event V)) :
  row_per_record svc ->
  import_products svc conn [] = (inl s, tr) ->
  sm_inserted s = sm_processed s
  /\ sm_processed s = List.length (canonical_rows conn).
Proof.
  intros Hh Hrun.
  pose proof (import_with_shape svc BATCH_SIZE conn batch_size_positive) as H.
  unfold import_products in Hrun. rewrite Hrun in H.
  destruct H as (_ & _ & Hp & _ & Hi & _). split; [now apply Hi | exact Hp].
Qed.

Lemma all_processed_rows_inserted_witness :
  exists s tr,
    import_products echo_services sample_db [] = (inl s, tr) /\
    sm_inserted s = sm_processed s /\
    sm_processed s = List.length (canonical_rows sample_db).
Proof.
  assert (Hrun : exists s tr,
             import_products echo_services sample_db [] = (inl s, tr)).
  { vm_compute. do 2 eexists. reflexivity. }
  destruct Hrun as (s & tr & Hrun). exists s, tr. split; [exact Hrun |].
  apply (all_processed_rows_inserted echo_services sample_db s tr);
    [| exact Hrun].
  intros t records data H. injection H as <-. reflexivity.
Defined.

(** ** Edge cases of the two calls *)

Lemma attached_embeddings {V : Type} (chunks : list (chunk V))
  (data : list V) :
  (List.length chunks <= List.length data)%nat ->
  map ch_embedding
    (map (fun cv => with_embedding (fst cv) (snd cv)) (combine chunks data))
  = map Some (firstn (List.length chunks) data).
Proof.
  revert data. induction chunks as [|c cs IH]; intros data H; [reflexivity |].
  destruct data as [|v vs]; [simpl in H; lia |].
  simpl. f_equal. apply IH. simpl in H. lia.
Qed.

(** X13.  [generate_embeddings] always sends exactly one request with the
    texts of its chunks.  When the service fails the call fails; when the
    answer has fewer vectors than there are chunks it raises an index
    error; when it has at least as many, the chunks get the first vectors
    in order, the surplus is ignored and the texts are unchanged. *)
Theorem embedding_response_length {V : Type} (svc : services V)
  (chunks : list (chunk V)) (tr : list (event V)) :
  let request := EmbeddingRequest (map ch_content chunks) in
  snd (generate_embeddings svc chunks tr) = (tr ++ [request])%list
  /\ (embeddings_create svc tr (map ch_content chunks) = ApiFailure ->
      fst (generate_embeddings svc chunks tr) = inr ApiError)
  /\ (forall data,
        embeddings_create svc tr (map ch_content chunks) = Returned data ->
        (List.length data < List.length chunks)%nat ->
        fst (generate_embeddings svc chunks tr) = inr IndexError)
  /\ (forall data,
        embeddings_create svc tr (map ch_content chunks) = Returned data ->
        (List.length chunks <= List.length data)%nat ->
        exists cs,
          fst (generate_embeddings svc chunks tr) = inl cs /\
          map ch_embedding cs = map Some (firstn (List.length chunks) data) /\
          map ch_content cs = map ch_content chunks /\
          map ch_title cs = map ch_title chunks /\
          map ch_metadata cs = map ch_metadata chunks).
Proof.
  intros request. subst request.
  unfold generate_embeddings, bind, call_embeddings.
  destruct (embeddings_create svc tr (map ch_content chunks)) as [d|] eqn:E.
  - destruct (Nat.le_gt_cases (List.length chunks) (List.length d)) as [L|L].
    + rewrite attach_embeddings_returns by assumption. simpl.
      split; [reflexivity | split; [discriminate | split]].
      * intros data H. injection H as <-. lia.
      * intros data H _. injection H as <-. eexists. split; [reflexivity |].
        split; [now apply attached_embeddings |].
        split; [now apply combine_contents |].
        clear E. revert d L.
        induction chunks as [|c cs IH]; intros d L; [split; reflexivity |].
        destruct d as [|v vs]; [simpl in L; lia |].
        simpl. destruct (IH vs) as [H1 H2]; [simpl in L; lia |].
        now rewrite H1, H2.
    + rewrite attach_embeddings_raises by assumption. simpl.
      split; [reflexivity | split; [discriminate | split]].
      * reflexivity.
      * intros data H. injection H as <-. lia.
  - simpl. split; [reflexivity | split; [reflexivity | split]];
      intros data H; discriminate.
Qed.

Lemma embedding_response_length_witness :
  fst (generate_embeddings short_answer_services [sample_chunk] [])
  = inr IndexError.
Proof.
  apply (proj1 (proj2 (proj2 (embedding_response_length
                                short_answer_services [sample_chunk] [])))
           []);
    [reflexivity | simpl; lia].
Defined.

Lemma records_of_missing_vector {V : Type} (chunks : list (chunk V))
  (tr : list (event V)) :
  (exists c, In c chunks /\ ch_embedding c = None) ->
  records_of chunks tr = (inr KeyError, tr).
Proof.
  intros (c & Hin & Hc). pose proof (records_of_inv chunks tr) as H.
  destruct (records_of chunks tr) as [[records | e] tr'].
  - exfalso. destruct H as [_ H]. clear tr tr'.
    induction H as [|x r l l' Hx Hl IH]; [destruct Hin |].
    destruct Hin as [-> | Hin]; [| now apply IH].
    destruct Hx as [Hx _]. congruence.
  - destruct H as [-> ->]. reflexivity.
Qed.

Lemma records_of_complete {V : Type} (chunks : list (chunk V))
  (tr : list (event V)) :
  (forall c, In c chunks -> ch_embedding c <> None) ->
  exists records,
    List.length records = List.length chunks /\
    records_of chunks tr = (inl records, tr).
Proof.
  induction chunks as [|c cs IH]; intros H.
  - exists []. split; reflexivity.
  - destruct IH as (rs & Hl & Hr); [intros x Hx; apply H; now right |].
    cbn [records_of]. unfold bind at 1. unfold record_of.
    destruct (ch_embedding c) as [v|] eqn:E;
      [| exfalso; apply (H c); [now left | exact E]].
    unfold ret at 1. unfold bind. rewrite Hr. eexists. split; [| reflexivity].
    simpl. now rewrite Hl.
Qed.

(** X14.  [insert_to_supabase] on a batch in which some chunk has no
    vector raises a missing-key error before anything is sent to the
    store.  On a batch whose chunks all have vectors it sends exactly one
    insert with one record per chunk, whatever the store answers. *)
Theorem insert_needs_every_vector {V : Type} (svc : services V)
  (chunks : list (chunk V)) (tr : list (event V)) :
  ((exists c, In c chunks /\ ch_embedding c = None) ->
   insert_to_supabase svc chunks tr = (inr KeyError, tr))
  /\ ((forall c, In c chunks -> ch_embedding c <> None) ->
      exists records,
        List.length records = List.length chunks /\
        snd (insert_to_supabase svc chunks tr) =
        (tr ++ [BulkInsert records])%list).
Proof.
  split.
  - intros H. unfold insert_to_supabase.
    erewrite bind_inr by (now apply records_of_missing_vector).
    reflexivity.
  - intros Hall.
    destruct (records_of_complete chunks tr Hall) as (records & Hl & Hr).
    exists records. split; [exact Hl |].
    unfold insert_to_supabase. erewrite bind_inl by exact Hr.
    unfold bind, call_insert.
    destruct (knowledge_base_insert svc tr records) as [[[|r rs]|]|];
      reflexivity.
Qed.

Lemma insert_needs_every_vector_witness :
  insert_to_supabase echo_services [sample_chunk] [] = (inr KeyError, []).
Proof.
  apply (proj1 (insert_needs_every_vector echo_services [sample_chunk] [])).
  exists sample_chunk. split; [left; reflexivity | reflexivity].
Defined.

(** ** Order of the fitment lines *)

Lemma string_compare_refl (s : string) : (s ?= s)%string = Eq.
Proof.
  induction s as [|c s IH]; simpl; [reflexivity |].
  unfold Ascii.compare. now rewrite N.compare_refl.
Qed.

Lemma string_compare_chains : chains String.compare.
Proof.
  intros a. induction a as [|x a IH]; intros [|y b] [|z c]; simpl;
    try congruence.
  unfold Ascii.compare.
  destruct (N.compare_spec (N_of_ascii x) (N_of_ascii y)) as [E1 | L1 | G1];
    destruct (N.compare_spec (N_of_ascii y) (N_of_ascii z)) as [E2 | L2 | G2];
    try congruence; intros H1 H2.
  - rewrite E1, E2, N.compare_refl. now apply (IH b c).
  - rewrite E1. apply N.compare_lt_iff in L2. rewrite L2. discriminate.
  - rewrite <- E2. apply N.compare_lt_iff in L1. rewrite L1. discriminate.
  - assert (L : (N_of_ascii x < N_of_ascii z)%N) by (eapply N.lt_trans; eauto).
    apply N.compare_lt_iff in L. rewrite L. discriminate.
Qed.

Lemma cmp_text_flips : flips Sql.cmp_text.
Proof.
  intros [a|] [b|]; simpl; try reflexivity. apply String.compare_antisym.
Qed.

Lemma cmp_text_chains : chains Sql.cmp_text.
Proof.
  intros [a|] [b|] [c|]; unfold Sql.cmp_text, Sql.cmp_null; intros H1 H2;
    try congruence.
  now apply (string_compare_chains a b c).
Qed.

Lemma cmp_text_eq (a b : option string) : Sql.cmp_text a b = Eq -> a = b.
Proof.
  destruct a as [x|], b as [y|]; simpl; try discriminate; [| reflexivity].
  intros H. f_equal. now apply String.compare_eq_iff.
Qed.

(** X15.  The result rows of the fitment query, and with them the lines
    of the fitment text, come in strictly ascending order of the model
    (bytewise, a NULL model first): no model has two lines. *)
Theorem fitment_lines_ordered_by_model (product_id : Z) (conn : database) :
  forall l1 g l2 h l3,
    fitments_query product_id conn = (l1 ++ g :: l2 ++ h :: l3)%list ->
    Sql.cmp_text (fg_model g) (fg_model h) = Lt.
Proof.
  intros l1 g l2 h l3 E.
  pose proof (fitments_query_models product_id conn) as Hm.
  rewrite E in Hm. rewrite map_app in Hm. cbn [map] in Hm.
  rewrite map_app in Hm. cbn [map] in Hm.
  pose proof (order_by_sorted Sql.cmp_text cmp_text_flips cmp_text_chains
                (Sql.group_keys
                   (map Fitment.model (fitment_rows product_id conn))))
    as Hs.
  assert (Hnd : NoDup
                  (Sql.order_by Sql.cmp_text
                     (Sql.group_keys
                        (map Fitment.model (fitment_rows product_id conn))))).
  { eapply Permutation_NoDup; [apply Permutation_sym, order_by_perm |].
    apply group_keys_from_NoDup. }
  rewrite <- Hm in Hs, Hnd. apply sorted_before in Hs.
  destruct (Sql.cmp_text (fg_model g) (fg_model h)) eqn:C;
    [| reflexivity | congruence].
  exfalso. apply cmp_text_eq in C.
  apply NoDup_remove_2 in Hnd. apply Hnd.
  apply in_or_app. right. rewrite C. apply in_or_app. right. now left.
Qed.

Lemma fitment_lines_ordered_by_model_witness :
  exists g h,
    fitments_query 7 fitments_db = [g; h]
    /\ fg_model g = Some "240" /\ fg_model h = Some "740"
    /\ Sql.cmp_text (fg_model g) (fg_model h) = Lt.
Proof.
  assert (E : exists g h,
             fitments_query 7 fitments_db = [g; h]
             /\ fg_model g = Some "240" /\ fg_model h = Some "740").
  { vm_compute. do 2 eexists. split; [reflexivity |]. split; reflexivity. }
  destruct E as (g & h & E & Hg & Hh). exists g, h.
  split; [exact E |]. split; [exact Hg |]. split; [exact Hh |].
  apply (fitment_lines_ordered_by_model 7 fitments_db [] g [] h [] E).
Defined.

(** ** Which part numbers get a chunk *)

Lemma best_of_group_not_after (oe : option string) (conn : database)
  (h r : Product.t) :
  best_of_group oe conn = Some h -> In r (oe_group oe conn) ->
  dedup_order h r <> Gt.
Proof.
  intros Hb Hr. unfold best_of_group in Hb.
  destruct (Sql.order_by dedup_order (oe_group oe conn)) as [|h' rest] eqn:E;
    [discriminate |].
  simpl in Hb. injection Hb as ->.
  destruct (order_by_head dedup_order dedup_order_flips dedup_order_chains
              _ _ _ E) as (l1 & l2 & Hl & H1 & H2).
  rewrite Hl in Hr. apply in_app_or in Hr. destruct Hr as [Hr | [<- | Hr]].
  - rewrite (H1 r Hr). discriminate.
  - pose proof (dedup_order_flips h h) as Hf.
    destruct (dedup_order h h); simpl in Hf; congruence.
  - now apply H2.
Qed.

(** With 0/1 flags the best-ranked row of a group passes the filter as
    soon as some row of the group does. *)
Lemma best_is_eligible (h e : Product.t) :
  dedup_order h e <> Gt ->
  (Product.has_fitments h = Some 0 \/ Product.has_fitments h = Some 1) ->
  (Product.has_fitments e = Some 0 \/ Product.has_fitments e = Some 1) ->
  eligible e = true -> eligible h = true.
Proof.
  unfold dedup_order, Sql.then_by, eligible. unfold Sql.desc at 1 2.
  intros Hc [Hh | Hh] [He | He] Hel; rewrite Hh in *; rewrite He in *;
    simpl in *; try reflexivity; try congruence.
  destruct (Product.translation_status e) as [se|]; [| discriminate].
  cbn [Sql.eq_text] in Hel. unfold Sql.eq_text_expr at 1 in Hc.
  rewrite Hel in Hc.
  destruct (Product.translation_status h) as [sh|];
    cbn [Sql.eq_text Sql.eq_text_expr] in *.
  - destruct (sh =? "verified")%string; [reflexivity |].
    simpl in Hc. congruence.
  - simpl in Hc. congruence.
Qed.

(** X16.  With ids identifying rows and has_fitments holding only 0 or 1
    in a part-number group, the group gets a row in the main loop exactly
    when one of its rows has fitments or a verified translation; the row
    it gets is one that no row of the group ranks before. *)
Theorem part_number_with_usable_row_gets_chunk (conn : database)
  (oe : string) :
  unique_ids conn ->
  (forall p, In p (oe_group (Some oe) conn) ->
     Product.has_fitments p = Some 0 \/ Product.has_fitments p = Some 1) ->
  ((exists p, In p (oe_group (Some oe) conn) /\ eligible p = true) <->
   (exists row, In row (canonical_rows conn)
                /\ Product.oe_nummer row = Some oe))
  /\ forall row r,
       In row (canonical_rows conn) -> Product.oe_nummer row = Some oe ->
       In r (oe_group (Some oe) conn) -> dedup_order row r <> Gt.
Proof.
  intros Hu Hflags. split; [split |].
  - intros (e & He & Hel).
    destruct (best_of_group_some (Some oe) conn) as [h Hb].
    { intros E. rewrite E in He. destruct He. }
    pose proof (best_of_group_In _ _ _ Hb) as Hh.
    exists h. pose proof Hh as Hh'. apply oe_group_In in Hh'.
    destruct Hh' as [Hp Hoe]. apply eq_text_true in Hoe.
    destruct Hoe as (s & Hs & Hs'). injection Hs' as <-.
    split; [| exact Hs].
    apply canonical_rows_In. split; [exact Hp | split].
    + apply (representative_iff conn h Hu Hp). unfold best_id.
      now rewrite Hs, Hb.
    + apply (best_is_eligible h e); auto.
      now apply (best_of_group_not_after (Some oe) conn).
  - intros (row & Hc & Hoe). exists row.
    apply canonical_rows_In in Hc. destruct Hc as (Hp & _ & Hel).
    split; [| exact Hel]. apply oe_group_In. split; [exact Hp |].
    rewrite Hoe. simpl. apply String.eqb_refl.
  - intros row r Hc Hoe Hr.
    apply (best_of_group_not_after (Some oe) conn); [| exact Hr].
    rewrite <- Hoe. now apply canonical_row_best.
Qed.

Lemma part_number_with_usable_row_gets_chunk_witness :
  unique_ids sample_db
  /\ ((exists p, In p (oe_group (Some "1234") sample_db)
                 /\ eligible p = true) <->
      (exists row, In row (canonical_rows sample_db)
                   /\ Product.oe_nummer row = Some "1234")).
Proof.
  pose proof sample_db_unique_ids as H. split; [exact H |].
  apply (part_number_with_usable_row_gets_chunk sample_db "1234" H).
  intros p Hp. simpl in Hp.
  destruct Hp as [<- | [<- | [<- | []]]]; right; reflexivity.
Defined.

(** The 0-or-1 condition is needed: a NULL flag sorts last, so a group
    with an unverified row flagged 0 and a verified row flagged NULL gets
    no row, although the verified row passes the filter. *)
Example null_flag_group_gets_no_row :
  (exists p, In p (oe_group (Some "9001") null_flag_db)
             /\ eligible p = true)
  /\ canonical_rows null_flag_db = [].
Proof.
  split; [| reflexivity].
  eexists. split; [right; left; reflexivity | reflexivity].
Qed.

(** ** The row chosen for a part number *)

Lemma usable_iff (p : Product.t) : eligible p = true <-> usable p.
Proof.
  unfold eligible, usable. rewrite orb_true_iff, eq_int_true, eq_text_true.
  split; intros [H | H].
  - left. destruct H as (z & Hz & Hone). congruence.
  - right. destruct H as (z & Hz & Hone). congruence.
  - left. now exists 1.
  - right. now exists "verified".
Qed.

Lemma unique_ids_visited (conn : database) (scan : list Product.t) :
  Permutation scan (products conn) -> unique_ids conn ->
  unique_ids (with_products scan conn).
Proof.
  unfold unique_ids. cbn [with_products products]. intros H Hu.
  eapply Permutation_NoDup; [| exact Hu].
  apply Permutation_map, Permutation_sym, H.
Qed.

Lemma oe_group_visited (oe : option string) (conn : database)
  (scan : list Product.t) (p : Product.t) :
  Permutation scan (products conn) ->
  (In p (oe_group oe (with_products scan conn)) <-> In p (oe_group oe conn)).
Proof.
  intros H. rewrite !oe_group_In. cbn [with_products products].
  split; intros [Hp Hoe]; split; try assumption.
  - now apply (Permutation_in _ H).
  - now apply (Permutation_in _ (Permutation_sym H)).
Qed.

Lemma canonical_rows_distinct (conn : database) :
  unique_ids conn -> NoDup (canonical_rows conn).
Proof.
  intros Hu. rewrite canonical_rows_unlimited.
  eapply Permutation_NoDup; [apply Permutation_sym, order_by_perm |].
  apply NoDup_filter, unique_ids_NoDup, Hu.
Qed.

(** The canonical rows of a group, given the row its subquery picks. *)
Lemma selected_for_best (oe : string) (conn : database) (h : Product.t) :
  unique_ids conn ->
  best_of_group (Some oe) conn = Some h ->
  selected_for (Some oe) conn = if eligible h then [h] else [].
Proof.
  intros Hu Hb.
  pose proof (best_of_group_In _ _ _ Hb) as Hh.
  apply oe_group_In in Hh. destruct Hh as [Hhp Hhoe].
  assert (Hin : forall x, In x (selected_for (Some oe) conn) <->
                          x = h /\ eligible h = true).
  { intros x. unfold selected_for. rewrite filter_In, canonical_rows_In.
    split.
    - intros ((Hx & Hr & He) & Hoe).
      apply (representative_iff conn x Hu Hx) in Hr.
      unfold best_id in Hr. apply eq_text_true in Hoe.
      destruct Hoe as (s & Hxs & Hs'). injection Hs' as <-.
      rewrite Hxs, Hb in Hr. injection Hr as Hr.
      assert (h = x) by (now apply (unique_ids_inj conn)). subst x.
      now split.
    - intros [-> He]. repeat split; try assumption.
      apply (representative_iff conn h Hu Hhp).
      unfold best_id.
      apply eq_text_true in Hhoe. destruct Hhoe as (s & Hxs & Hs').
      injection Hs' as <-. now rewrite Hxs, Hb. }
  assert (Hnd : NoDup (selected_for (Some oe) conn))
    by (apply NoDup_filter, canonical_rows_distinct, Hu).
  destruct (eligible h).
  - apply NoDup_single; [assumption |]. intros x. rewrite Hin. tauto.
  - apply no_element_nil. intros x Hx. apply Hin in Hx.
    destruct Hx; discriminate.
Qed.

(** With 0/1 flags, a row that the ORDER BY of the subquery does not put
    after another one is not outranked by it on the four keys. *)
Lemma not_after_not_outranked (h r : Product.t) :
  (Product.has_fitments h = Some 0 \/ Product.has_fitments h = Some 1) ->
  (Product.has_fitments r = Some 0 \/ Product.has_fitments r = Some 1) ->
  dedup_order h r <> Gt ->
  ranks_before (ranking_keys r) (ranking_keys h) = false.
Proof.
  unfold dedup_order, Sql.then_by, Sql.desc, ranking_keys.
  intros [Hh | Hh] [Hr | Hr] Hc; rewrite Hh, Hr in *;
    destruct (Product.translation_status h) as [sh|];
    destruct (Product.translation_status r) as [sr|];
    cbn [Sql.eq_text_expr Sql.of_bool] in Hc;
    try destruct (sh =? "verified")%string;
    try destruct (sr =? "verified")%string;
    destruct (Product.normalized_name h), (Product.normalized_name r),
      (Product.skandix_price h), (Product.skandix_price r);
    simpl in *; congruence || reflexivity.
Qed.

Lemma verified_outranks (a b : Product.t) :
  Product.translation_status a = Some "verified" ->
  Product.translation_status b <> Some "verified" ->
  Product.has_fitments a = Product.has_fitments b ->
  ranks_before (ranking_keys a) (ranking_keys b) = true.
Proof.
  intros Ha Hb Hf. unfold ranking_keys. rewrite Ha, Hf.
  cbn [ranks_before]. rewrite Nat.eqb_refl. cbn [String.eqb].
  destruct (Product.translation_status b) as [s|]; [| reflexivity].
  destruct (String.eqb_spec s "verified") as [-> | _]; [congruence |].
  reflexivity.
Qed.

(** C1 (amended).  Whatever the order in which the query visits the
    rows of [products]: with ids identifying rows, for a part number whose
    rows have has_fitments 0 or 1 and one of whose rows has fitments or a
    verified translation, the deduplication query selects exactly one row
    of the group.  That row has fitments or a verified translation, and no
    row of the group ranks before it under: has fitments first; then a
    verified translation first, any other status next, no status last;
    then a normalized name present first; then a price present first.
    Rows that tie on all four keys are not told apart by the query.  In a
    group of two rows that differ only in verification status the
    verified one is selected. *)
Theorem dedup_selects_a_best_row (conn : database) (scan : list Product.t)
  (oe : string) :
  Permutation scan (products conn) ->
  unique_ids conn ->
  (forall p, In p (oe_group (Some oe) conn) ->
     Product.has_fitments p = Some 0 \/ Product.has_fitments p = Some 1) ->
  (exists p, In p (oe_group (Some oe) conn) /\ usable p) ->
  exists best,
    selected_for (Some oe) (with_products scan conn) = [best]
    /\ In best (oe_group (Some oe) conn)
    /\ usable best
    /\ (forall r, In r (oe_group (Some oe) conn) ->
          ranks_before (ranking_keys r) (ranking_keys best) = false)
    /\ (forall a b,
          (forall r, In r (oe_group (Some oe) conn) <-> r = a \/ r = b) ->
          Product.translation_status a = Some "verified" ->
          Product.translation_status b <> Some "verified" ->
          Product.has_fitments a = Product.has_fitments b ->
          Product.normalized_name a = Product.normalized_name b ->
          Product.skandix_price a = Product.skandix_price b ->
          best = a).
Proof.
  intros Hscan Hu Hflags (e & He & Hue).
  set (visited := with_products scan conn).
  assert (Hu' : unique_ids visited) by (now apply unique_ids_visited).
  assert (Hg : forall p, In p (oe_group (Some oe) visited) <->
                         In p (oe_group (Some oe) conn))
    by (intros p; now apply oe_group_visited).
  destruct (best_of_group_some (Some oe) visited) as [h Hb].
  { intros E. apply Hg in He. rewrite E in He. destruct He. }
  pose proof (best_of_group_In _ _ _ Hb) as Hh. apply Hg in Hh.
  assert (Hnot : forall r, In r (oe_group (Some oe) conn) ->
                           dedup_order h r <> Gt).
  { intros r Hr. apply (best_of_group_not_after (Some oe) visited);
      [exact Hb | now apply Hg]. }
  assert (Hel : eligible h = true).
  { apply (best_is_eligible h e); auto. now apply usable_iff. }
  assert (Hbest : forall r, In r (oe_group (Some oe) conn) ->
                    ranks_before (ranking_keys r) (ranking_keys h) = false).
  { intros r Hr. apply not_after_not_outranked; auto. }
  exists h. split; [| split; [exact Hh | split; [now apply usable_iff |]]].
  - rewrite (selected_for_best oe visited h Hu' Hb), Hel. reflexivity.
  - split; [exact Hbest |].
    intros a b Hab Ha Hnb Hf _ _.
    apply Hab in Hh. destruct Hh as [-> | ->]; [reflexivity |].
    exfalso.
    assert (Hin : In a (oe_group (Some oe) conn)) by (apply Hab; now left).
    specialize (Hbest a Hin).
    rewrite (verified_outranks a b Ha Hnb Hf) in Hbest. discriminate.
Qed.

Lemma dedup_selects_a_best_row_witness :
  exists best,
    selected_for (Some "1234")
      (with_products (rev (products sample_db)) sample_db) = [best]
    /\ In best (oe_group (Some "1234") sample_db)
    /\ usable best
    /\ forall r, In r (oe_group (Some "1234") sample_db) ->
         ranks_before (ranking_keys r) (ranking_keys best) = false.
Proof.
  destruct (dedup_selects_a_best_row sample_db (rev (products sample_db))
              "1234")
    as (best & H1 & H2 & H3 & H4 & _).
  - apply Permutation_sym, Permutation_rev.
  - exact sample_db_unique_ids.
  - intros p Hp. simpl in Hp.
    destruct Hp as [<- | [<- | [<- | []]]]; right; reflexivity.
  - exists verified_row. split; [simpl; tauto | right; reflexivity].
  - exists best. split; [exact H1 |]. split; [exact H2 |].
    split; [exact H3 | exact H4].
Defined.

(** C1 as stated fails in three ways.  Ties are not broken by the row
    id: of two rows that tie on all four keys and are visited through an
    index on (oe_nummer, skandix_price), the one with the larger id is
    selected.  A part number can have a usable row and get no row: the
    verified row has has_fitments NULL and ranks after an unverified row
    flagged 0, which the filter then drops.  And a row without
    translation status ranks after a row with an unverified status, even
    when only the first has a name and a price. *)
Lemma claimed_selection_fails :
  Permutation by_price (products tied_db)
  /\ unique_ids tied_db
  /\ ~ claimed_selection by_price tied_db
  /\ unique_ids null_flag_db
  /\ ~ claimed_selection (products null_flag_db) null_flag_db
  /\ unique_ids null_status_db
  /\ ~ claimed_selection (products null_status_db) null_status_db.
Proof.
  split; [apply perm_swap |].
  split; [unfold unique_ids; simpl; repeat constructor; simpl; lia |].
  split.
  { intros H. destruct (H "7777") as (best & Hsel & Hrank).
    - exists first_tied_row. split; [simpl; tauto | left; reflexivity].
    - vm_compute in Hsel. injection Hsel as <-.
      destruct (Hrank first_tied_row) as [Hr | [_ Hr]].
      + simpl. tauto.
      + discriminate.
      + vm_compute in Hr. discriminate.
      + vm_compute in Hr. discriminate. }
  split; [unfold unique_ids; simpl; repeat constructor; simpl; lia |].
  split.
  { intros H. destruct (H "9001") as (best & Hsel & _).
    - eexists. split; [right; left; reflexivity | right; reflexivity].
    - vm_compute in Hsel. discriminate. }
  split; [unfold unique_ids; simpl; repeat constructor; simpl; lia |].
  intros H. destruct (H "8001") as (best & Hsel & Hrank).
  - eexists. split; [left; reflexivity | left; reflexivity].
  - vm_compute in Hsel. injection Hsel as <-.
    destruct (Hrank (sample_product 1 "8001" (Some 1) None (Some "Kamrem")
                       (Some 1%Q))) as [Hr | [Hr _]].
    + simpl. tauto.
    + discriminate.
    + vm_compute in Hr. discriminate.
    + vm_compute in Hr. discriminate.
Qed.

(** ** What reaches the store *)

Lemma paired_requested_texts {V : Type} (tr : list (event V)) :
  paired tr -> requested_texts tr = map kb_content (inserted_records tr).
Proof.
  induction 1 as [|tr records Hp IH]; [reflexivity |].
  unfold requested_texts, inserted_records in *.
  rewrite !flat_map_app, map_app, IH. simpl. now rewrite !app_nil_r.
Qed.

Lemma cores_contents_sent {V : Type} (tr : list (event V))
  (chunks : list (chunk V)) :
  cores_sent tr = map chunk_core chunks ->
  map kb_content (inserted_records tr) = map ch_content chunks.
Proof. apply cores_contents. Qed.

(** X17.  A run that returns has sent the store exactly one record per
    row of the main query, in the order of the query, each with the
    title, text and metadata of the row's chunk, the source tag
    "volvo_sqlite" and the token estimate len(text) // 4; it has asked
    vectors for exactly these texts, in the same order.  A run that stops
    with an error has sent the store a prefix of these records and nothing
    else. *)
Theorem store_receives_each_chunk_once {V : Type} (svc : services V)
  (conn : database) :
  let chunks : list (chunk V) :=
    map (chunk_of_row conn) (canonical_rows conn) in
  match import_products svc conn [] with
  | (inl _, tr) =>
      cores_sent tr = map chunk_core chunks
      /\ requested_texts tr = map ch_content chunks
  | (inr _, tr) =>
      exists rest, (map chunk_core chunks = cores_sent tr ++ rest)%list
  end.
Proof.
  intros chunks. subst chunks.
  pose proof (import_with_shape svc BATCH_SIZE conn batch_size_positive) as H.
  unfold import_products.
  destruct (import_with svc BATCH_SIZE conn []) as [[s | e] tr].
  - destruct H as (Hp & _ & _ & _ & _ & Hc). split; [exact Hc |].
    rewrite (paired_requested_texts tr Hp). now apply cores_contents_sent.
  - apply H.
Qed.

Lemma canonical_oe_NoDup (conn : database) :
  unique_ids conn -> NoDup (map Product.oe_nummer (canonical_rows conn)).
Proof.
  intros Hu.
  assert (Hn : NoDup (canonical_rows conn)).
  { rewrite canonical_rows_unlimited.
    eapply Permutation_NoDup; [apply Permutation_sym, order_by_perm |].
    apply NoDup_filter, unique_ids_NoDup, Hu. }
  assert (Hinj : forall r1 r2,
             In r1 (canonical_rows conn) -> In r2 (canonical_rows conn) ->
             Product.oe_nummer r1 = Product.oe_nummer r2 -> r1 = r2).
  { intros r1 r2 H1 H2 E.
    pose proof (canonical_row_best conn r1 Hu H1) as B1.
    pose proof (canonical_row_best conn r2 Hu H2) as B2.
    rewrite E in B1. congruence. }
  induction (canonical_rows conn) as [|r rs IH]; [constructor |].
  simpl. inversion Hn as [|? ? Hr Hrs]; subst. constructor.
  - intros Hin. apply in_map_iff in Hin. destruct Hin as (r' & E & Hr').
    apply Hr. rewrite <- (Hinj r' r); auto; [now right | now left].
  - apply IH; [exact Hrs |]. intros r1 r2 H1 H2. apply Hinj; now right.
Qed.

Lemma NoDup_prefix {A} (l1 l2 : list A) : NoDup (l1 ++ l2) -> NoDup l1.
Proof. intros H. apply NoDup_app_remove_r in H. exact H. Qed.

Lemma chunk_core_oe {V : Type} (conn : database) (rows : list Product.t) :
  map (fun c => md_oe_nummer (snd (fst (fst c))))
    (map chunk_core (map (chunk_of_row conn) rows : list (chunk V)))
  = map Product.oe_nummer rows.
Proof.
  rewrite !map_map. apply map_ext. intros row. reflexivity.
Qed.

(** X18.  With ids identifying rows, no run sends the store two records
    with the same part number in their metadata, whatever the services
    answer and however the run ends. *)
Theorem no_part_number_inserted_twice {V : Type} (svc : services V)
  (conn : database) :
  unique_ids conn ->
  NoDup (map (fun r => md_oe_nummer (kb_metadata r))
           (inserted_records (snd (import_products svc conn [])))).
Proof.
  intros Hu.
  pose proof (canonical_oe_NoDup conn Hu) as Hn.
  rewrite <- (chunk_core_oe (V:=V) conn) in Hn.
  pose proof (import_with_shape svc BATCH_SIZE conn batch_size_positive) as H.
  unfold import_products.
  destruct (import_with svc BATCH_SIZE conn []) as [[s | e] tr];
    cbn [snd].
  - destruct H as (_ & _ & _ & _ & _ & Hc). rewrite <- Hc in Hn.
    unfold cores_sent in Hn. rewrite map_map in Hn. exact Hn.
  - destruct H as (_ & _ & rest & Hc). rewrite Hc, map_app in Hn.
    apply NoDup_prefix in Hn.
    unfold cores_sent in Hn. rewrite map_map in Hn. exact Hn.
Qed.

Lemma no_part_number_inserted_twice_witness :
  unique_ids sample_db
  /\ NoDup (map (fun r => md_oe_nummer (kb_metadata r))
              (inserted_records
                 (snd (import_products echo_services sample_db [])))).
Proof.
  pose proof sample_db_unique_ids as H. split; [exact H |].
  apply (no_part_number_inserted_twice echo_services sample_db H).
Defined.
